(** * Browser agent: the RPC bridge, the tool dispatcher, the action
      executor, the page controller and the session transport.

    A shallow embedding of
      - mcp-server/src/index.ts          (bridge and dispatcher),
      - extension/src/background/index.ts (action executor),
      - extension/src/cdp/transport.ts    (ExtensionTransport and Page).

    Conventions.  A JavaScript [Error] is its message.  Code that may throw
    returns [Res].  Module-level variables and object fields become record
    fields of an explicit state; every event-loop turn is one step.  A JS
    number that only ever holds a small non-negative integer (counters, timer
    handles, tab ids) is an [N]; pixel quantities are exact rationals.  A
    JavaScript string is held in UTF-8, one [ascii] per byte; where the code
    counts or cuts a string it does so in UTF-16 code units, and [Text]
    computes that on the bytes. *)

Set Warnings "-register-all".
From Stdlib Require Import QArith Ascii.
From stdpp Require Import base option list gmap strings pretty.

Open Scope string_scope.
Open Scope list_scope.

(** ** Values shared by all layers *)

(** The JSON values that cross the wire. *)
Inductive JSON :=
  | JNull
  | JBool (b : bool)
  | JNum (q : Q)
  | JStr (s : string)
  | JArr (items : list JSON)
  | JObj (fields : list (string * JSON)).

(** The outcome of code that may throw. *)
Inductive Res (A : Type) :=
  | Ok (a : A)
  | Throw (message : string).
Arguments Ok {A} a.
Arguments Throw {A} message.

(** [a || b] on strings: the empty string is falsy. *)
Definition str_or (a b : string) : string :=
  if decide (a = "") then b else a.

(** [a || b] where [a] may also be [undefined]. *)
Definition opt_str_or (a : option string) (b : string) : string :=
  match a with
  | Some s => str_or s b
  | None => b
  end.

(** Looking a key up in a JSON object; [None] is [undefined]. *)
Fixpoint field (key : string) (fields : list (string * JSON)) : option JSON :=
  match fields with
  | [] => None
  | (k, v) :: rest => if decide (k = key) then Some v else field key rest
  end.

(** The arguments of a tool call, [Record<string, unknown>] read through
    the casts the executor applies to it: every key is optional and holds a
    value of the type its tool's schema gives it. *)
Record Params := {
  p_url : option string;
  p_selector : option string;
  p_x : option Q;
  p_y : option Q;
  p_button : option string;
  p_clickCount : option Q;
  p_text : option string;
  p_clearFirst : option bool;
  p_delay : option Q;
  p_direction : option string;
  p_distance : option Q;
  p_format : option string;
  p_quality : option Q;
  p_fullPage : option bool;
  p_script : option string;
  p_tabId : option Z;
  p_key : option string;
  p_value : option string;
  p_index : option Z
}.

(** [{}] *)
Definition noParams : Params :=
  {| p_url := None; p_selector := None; p_x := None; p_y := None;
     p_button := None; p_clickCount := None; p_text := None;
     p_clearFirst := None; p_delay := None; p_direction := None;
     p_distance := None; p_format := None; p_quality := None;
     p_fullPage := None; p_script := None; p_tabId := None; p_key := None;
     p_value := None; p_index := None |}.

(** Is a string-valued key present and non-empty?  ([if (params.k)]) *)
Definition truthy (s : option string) : option string :=
  match s with
  | Some v => if decide (v = "") then None else Some v
  | None => None
  end.

(** The names every object literal inherits from [Object.prototype].
    [table[name]] finds something truthy under them although the table has
    no such key; the table lookups of this development ([OPERATION_STATUS]
    and the tool-name mapping) are those of the code for every other
    name. *)
Definition inheritedNames : list string :=
  ["constructor"; "hasOwnProperty"; "isPrototypeOf"; "propertyIsEnumerable";
   "toLocaleString"; "toString"; "valueOf"; "__proto__";
   "__defineGetter__"; "__defineSetter__"; "__lookupGetter__";
   "__lookupSetter__"].

(** ** JavaScript text *)
Module Text.

(** A byte [10xxxxxx], which continues a code point. *)
Definition isContinuation (c : Ascii.ascii) : bool :=
  let n := Ascii.nat_of_ascii c in (128 <=? n)%nat && (n <? 192)%nat.

(** The code points of a text, each as its bytes: what
    [for (const ch of text)] iterates.  A byte starts a new code point
    unless it is a continuation byte. *)
Fixpoint codePoints (s : string) : list string :=
  match s with
  | EmptyString => []
  | String c rest =>
    let pieces := codePoints rest in
    match rest with
    | String d _ =>
      match pieces with
      | piece :: others =>
        if isContinuation d then String c piece :: others
        else String c EmptyString :: pieces
      | [] => String c EmptyString :: pieces
      end
    | EmptyString => String c EmptyString :: pieces
    end
  end.

(** Is this code point above U+FFFF (a four-byte sequence)?  Then it takes
    two UTF-16 code units, a surrogate pair; any other takes one. *)
Definition astral (piece : string) : bool :=
  match piece with
  | String c _ => (240 <=? Ascii.nat_of_ascii c)%nat
  | EmptyString => false
  end.

Definition units (piece : string) : nat := if astral piece then 2 else 1.

(** [text.length] *)
Definition length (s : string) : nat :=
  foldr (λ piece n, (units piece + n)%nat) 0%nat (codePoints s).

Definition byteAt (i : nat) (piece : string) : N :=
  match String.get i piece with
  | Some c => Ascii.N_of_ascii c
  | None => 0%N
  end.

(** The first unit of the surrogate pair of a four-byte code point, as the
    three bytes of its own encoding. *)
Definition highSurrogate (piece : string) : string :=
  let cp := (byteAt 0 piece mod 8 * 262144 + byteAt 1 piece mod 64 * 4096
             + byteAt 2 piece mod 64 * 64 + byteAt 3 piece mod 64)%N in
  let hi := (55296 + (cp - 65536) / 1024)%N in
  String (Ascii.ascii_of_N (224 + hi / 4096))
    (String (Ascii.ascii_of_N (128 + (hi / 64) mod 64))
       (String (Ascii.ascii_of_N (128 + hi mod 64)) EmptyString)).

(** The first [n] UTF-16 code units of a text given by its code points; a
    surrogate pair may be cut in two. *)
Fixpoint takeUnits (n : nat) (pieces : list string) : string :=
  match n, pieces with
  | O, _ | _, [] => EmptyString
  | S m, piece :: rest =>
    if astral piece then
      match m with
      | O => highSurrogate piece
      | S m' => piece +:+ takeUnits m' rest
      end
    else piece +:+ takeUnits m rest
  end.

(** [text.slice(0, n)] *)
Definition slice (n : nat) (s : string) : string :=
  takeUnits n (codePoints s).

End Text.

(** ** The RPC bridge (mcp-server/src/index.ts) *)
Module Bridge.

Inductive ReadyState := CONNECTING | OPEN | CLOSING | CLOSED.

Global Instance ReadyState_eq_dec : EqDecision ReadyState.
Proof. solve_decision. Defined.

(** The request envelope written to the socket. *)
Record Request := {
  rq_type : string;
  rq_id : string;
  rq_action : string;
  rq_params : option Params
}.

(** [message.payload] of a response. *)
Record Payload := {
  success : bool;
  data : option JSON;
  error : option string
}.

(** What arrives on the socket: text that [JSON.parse] rejects, or an
    object with its [type], [id] and (possibly missing) [payload]. *)
Inductive Incoming :=
  | Unparseable
  | Message (type : string) (id : string) (payload : option Payload).

(** How a promise returned by [sendToExtension] is settled. *)
Inductive Settlement :=
  | Resolved (value : option JSON)
  | Rejected (message : string).

(** An entry of [pendingRequests]: the [resolve]/[reject] pair of one
    promise (named by the promise) and the timer handle. *)
Record PendingEntry := {
  caller : N;
  timeout : N
}.

(** The closure passed to [setTimeout]: it captures [id], [action] and
    [reject]; [t_delay] is the delay in milliseconds. *)
Record Timer := {
  t_id : string;
  t_action : string;
  t_caller : N;
  t_delay : N
}.

(** Which handler deleted an entry. *)
Inductive Cause := ByResponse | ByTimeout.

Record State := {
  extensionClient : option N;
  readyState : gmap N ReadyState;
  nextSocket : N;
  requestIdCounter : N;
  pendingRequests : gmap string PendingEntry;
  timers : gmap N Timer;
  nextTimer : N;
  nextPromise : N;
  (** every frame written with [ws.send], oldest first *)
  sent : list (N * Request);
  (** every call of a [resolve] or [reject], oldest first *)
  settled : list (N * Settlement);
  (** every [pendingRequests.delete] that found an entry, oldest first *)
  removed : list (string * Cause)
}.

(** The module's initial state. *)
Definition init : State :=
  {| extensionClient := None; readyState := ∅; nextSocket := 0;
     requestIdCounter := 0; pendingRequests := ∅; timers := ∅;
     nextTimer := 0; nextPromise := 0; sent := []; settled := [];
     removed := [] |}.

(** *** Primitive updates *)

(** A call of the [resolve] or [reject] function of promise [p]. *)
Definition settle (p : N) (s : Settlement) (st : State) : State :=
  {| extensionClient := extensionClient st; readyState := readyState st;
     nextSocket := nextSocket st; requestIdCounter := requestIdCounter st;
     pendingRequests := pendingRequests st; timers := timers st;
     nextTimer := nextTimer st; nextPromise := nextPromise st;
     sent := sent st; settled := settled st ++ [(p, s)];
     removed := removed st |}.

(** [pendingRequests.delete(id)] *)
Definition deletePending (id : string) (by_ : Cause) (st : State) : State :=
  {| extensionClient := extensionClient st; readyState := readyState st;
     nextSocket := nextSocket st; requestIdCounter := requestIdCounter st;
     pendingRequests := delete id (pendingRequests st); timers := timers st;
     nextTimer := nextTimer st; nextPromise := nextPromise st;
     sent := sent st; settled := settled st;
     removed := match pendingRequests st !! id with
                | Some _ => removed st ++ [(id, by_)]
                | None => removed st
                end |}.

(** [clearTimeout(h)]; also what the runtime does to a timer that fires. *)
Definition clearTimeout (h : N) (st : State) : State :=
  {| extensionClient := extensionClient st; readyState := readyState st;
     nextSocket := nextSocket st; requestIdCounter := requestIdCounter st;
     pendingRequests := pendingRequests st; timers := delete h (timers st);
     nextTimer := nextTimer st; nextPromise := nextPromise st;
     sent := sent st; settled := settled st; removed := removed st |}.

(** [extensionClient = c] *)
Definition setClient (c : option N) (st : State) : State :=
  {| extensionClient := c; readyState := readyState st;
     nextSocket := nextSocket st; requestIdCounter := requestIdCounter st;
     pendingRequests := pendingRequests st; timers := timers st;
     nextTimer := nextTimer st; nextPromise := nextPromise st;
     sent := sent st; settled := settled st; removed := removed st |}.

(** The socket library moves [ws] to ready state [rs]. *)
Definition setReadyState (ws : N) (rs : ReadyState) (st : State) : State :=
  {| extensionClient := extensionClient st;
     readyState := <[ws := rs]> (readyState st);
     nextSocket := nextSocket st; requestIdCounter := requestIdCounter st;
     pendingRequests := pendingRequests st; timers := timers st;
     nextTimer := nextTimer st; nextPromise := nextPromise st;
     sent := sent st; settled := settled st; removed := removed st |}.

(** A fresh promise handle for the caller of an [async] function. *)
Definition newPromise (st : State) : State :=
  {| extensionClient := extensionClient st; readyState := readyState st;
     nextSocket := nextSocket st; requestIdCounter := requestIdCounter st;
     pendingRequests := pendingRequests st; timers := timers st;
     nextTimer := nextTimer st; nextPromise := N.succ (nextPromise st);
     sent := sent st; settled := settled st; removed := removed st |}.

(** *** sendToExtension *)

Definition notConnectedMessage : string :=
  "Browser extension not connected. Please open the extension side panel.".

(** [extensionClient && extensionClient.readyState === WebSocket.OPEN] *)
Definition connected (st : State) : bool :=
  match extensionClient st with
  | Some ws => bool_decide (readyState st !! ws = Some OPEN)
  | None => false
  end.

(** [`req_${++requestIdCounter}`], from the counter before the increment.
    The counter is a JS number; it is exact for every count a process can
    reach and is an unbounded natural here. *)
Definition requestId (counter : N) : string :=
  "req_" +:+ pretty (N.succ counter).

Definition timeoutMessage (action : string) : string :=
  "Request timeout: " +:+ action.

(** The body of the [new Promise] executor: arm the timer, insert the
    entry, write the request to socket [ws] (an open socket queues the
    frame; [send] does not throw). *)
Definition register (ws p : N) (action : string) (params : option Params)
    (st : State) : State :=
  let id := requestId (requestIdCounter st) in
  let h := nextTimer st in
  {| extensionClient := extensionClient st; readyState := readyState st;
     nextSocket := nextSocket st;
     requestIdCounter := N.succ (requestIdCounter st);
     pendingRequests :=
       <[id := {| caller := p; timeout := h |}]> (pendingRequests st);
     timers :=
       <[h := {| t_id := id; t_action := action; t_caller := p;
                 t_delay := 30000 |}]> (timers st);
     nextTimer := N.succ h; nextPromise := nextPromise st;
     sent := sent st ++
       [(ws, {| rq_type := "REQUEST"; rq_id := id; rq_action := action;
                rq_params := params |})];
     settled := settled st; removed := removed st |}.

(** [sendToExtension(action, params)]: the new state and the promise the
    call returns.  A [throw] in the async function rejects that promise. *)
Definition sendToExtension (action : string) (params : option Params)
    (st : State) : State * N :=
  let p := nextPromise st in
  match extensionClient st with
  | Some ws =>
    if bool_decide (readyState st !! ws = Some OPEN)
    then (register ws p action params (newPromise st), p)
    else (settle p (Rejected notConnectedMessage) (newPromise st), p)
  | None => (settle p (Rejected notConnectedMessage) (newPromise st), p)
  end.

(** *** The socket handlers of startWebSocketServer *)

(** [wss.on('connection')]: a new socket, open, takes the slot. *)
Definition onConnection (st : State) : State :=
  let ws := nextSocket st in
  {| extensionClient := Some ws;
     readyState := <[ws := OPEN]> (readyState st);
     nextSocket := N.succ ws; requestIdCounter := requestIdCounter st;
     pendingRequests := pendingRequests st; timers := timers st;
     nextTimer := nextTimer st; nextPromise := nextPromise st;
     sent := sent st; settled := settled st; removed := removed st |}.

(** [ws.on('message')].  Everything is inside one [try]: a parse failure
    and the [TypeError] of reading [success] off a missing payload are
    caught and logged, after the statements before them have run. *)
Definition onMessage (m : Incoming) (st : State) : State :=
  match m with
  | Unparseable => st
  | Message type id payload =>
    if decide (type = "RESPONSE") then
      match pendingRequests st !! id with
      | Some pending =>
        let st1 :=
          deletePending id ByResponse (clearTimeout (timeout pending) st) in
        match payload with
        | Some pl =>
          if success pl
          then settle (caller pending) (Resolved (data pl)) st1
          else settle (caller pending)
                 (Rejected (opt_str_or (error pl) "Unknown error")) st1
        | None => st1
        end
      | None => st
      end
    else st
  end.

(** [ws.on('close')] *)
Definition onClose (ws : N) (st : State) : State :=
  let st1 := setReadyState ws CLOSED st in
  if decide (extensionClient st1 = Some ws) then setClient None st1
  else st1.

(** The callback given to [setTimeout], run for an armed timer [h]. *)
Definition onTimeout (h : N) (st : State) : State :=
  match timers st !! h with
  | Some t =>
    settle (t_caller t) (Rejected (timeoutMessage (t_action t)))
      (deletePending (t_id t) ByTimeout (clearTimeout h st))
  | None => st
  end.

(** *** Event-loop turns *)

(** What the environment can make happen.  [EvClosing] is the socket
    leaving [OPEN] before its close event is delivered; a timer that was
    cleared or has fired is not armed and its event changes nothing. *)
Inductive Event :=
  | EvConnection
  | EvMessage (ws : N) (m : Incoming)
  | EvClosing (ws : N)
  | EvClose (ws : N)
  | EvTimeout (h : N)
  | EvCall (action : string) (params : option Params).

Definition step (st : State) (e : Event) : State :=
  match e with
  | EvConnection => onConnection st
  | EvMessage _ m => onMessage m st
  | EvClosing ws => setReadyState ws CLOSING st
  | EvClose ws => onClose ws st
  | EvTimeout h => onTimeout h st
  | EvCall action params => fst (sendToExtension action params st)
  end.

Definition run (st : State) (evs : list Event) : State :=
  foldl step st evs.

(** The state of promise [p]: the first settlement wins, later calls of
    its [resolve]/[reject] do nothing. *)
Definition promiseState (p : N) (st : State) : option Settlement :=
  snd <$> head (filter (λ x, fst x = p) (settled st)).

(** The ids the bridge has issued: those of the requests it wrote. *)
Definition issued (st : State) : list string :=
  (λ x, rq_id (snd x)) <$> sent st.

(** What every reachable state satisfies. *)
Record Inv (st : State) : Prop := {
  inv_key : ∀ id e, pendingRequests st !! id = Some e →
    ∃ n, (n < requestIdCounter st)%N ∧ id = requestId n;
  inv_timer_of : ∀ id e, pendingRequests st !! id = Some e →
    ∃ a, timers st !! timeout e =
         Some {| t_id := id; t_action := a; t_caller := caller e;
                 t_delay := 30000 |};
  inv_entry_of : ∀ h t, timers st !! h = Some t →
    pendingRequests st !! t_id t =
    Some {| caller := t_caller t; timeout := h |};
  inv_timer_lt : ∀ h t, timers st !! h = Some t → (h < nextTimer st)%N;
  inv_timer_sent : ∀ h t, timers st !! h = Some t →
    ∃ ws params,
      (ws, {| rq_type := "REQUEST"; rq_id := t_id t;
              rq_action := t_action t; rq_params := params |}) ∈ sent st;
  inv_caller_lt : ∀ id e, pendingRequests st !! id = Some e →
    (caller e < nextPromise st)%N;
  inv_caller_unsettled : ∀ id e, pendingRequests st !! id = Some e →
    caller e ∉ (settled st).*1;
  inv_caller_inj : ∀ id1 id2 e1 e2,
    pendingRequests st !! id1 = Some e1 →
    pendingRequests st !! id2 = Some e2 →
    caller e1 = caller e2 → id1 = id2;
  inv_settled_lt : ∀ p, p ∈ (settled st).*1 → (p < nextPromise st)%N;
  inv_settled_nodup : NoDup (settled st).*1;
  inv_issued : ∀ id, id ∈ issued st ↔
    ∃ n, (n < requestIdCounter st)%N ∧ id = requestId n;
  inv_issued_nodup : NoDup (issued st);
  inv_removed_nodup : NoDup (removed st).*1;
  inv_live_or_removed : ∀ n, (n < requestIdCounter st)%N →
    (is_Some (pendingRequests st !! requestId n)
     ∧ requestId n ∉ (removed st).*1)
    ∨ (pendingRequests st !! requestId n = None
       ∧ requestId n ∈ (removed st).*1);
  inv_removed_issued : ∀ id, id ∈ (removed st).*1 →
    ∃ n, (n < requestIdCounter st)%N ∧ id = requestId n
}.

End Bridge.

(** ** The session transport and the page controller
       (extension/src/cdp/transport.ts) *)
Module Cdp.

(** *** The page as injected scripts see it *)

Record LogEntry := {
  log_type : string;
  log_text : string;
  log_timestamp : N;
  log_url : option string;
  log_lineNumber : option Z
}.

Record OptionElement := {
  opt_value : string;
  opt_text : string
}.

(** [getBoundingClientRect()] *)
Record DOMRect := {
  rect_left : Q;
  rect_top : Q;
  rect_width : Q;
  rect_height : Q
}.

Record Element := {
  tagName : string;
  textContent : string;
  boundingClientRect : DOMRect;
  (** [select.options] and the index of the selected one (-1 for none);
      empty and unused for other elements *)
  options : list OptionElement;
  selectedIndex : Z
}.

Record Window := {
  (** [document.querySelector]: the first match, [null], or the exception
      thrown for a selector that is not valid CSS *)
  querySelector : string → Res (option N);
  elements : gmap N Element;
  (** every [dispatchEvent] of an injected script: target and event type *)
  dispatched : list (N * string);
  (** [window.__agentsCCConsoleLogs], [None] while undefined *)
  agentsCCConsoleLogs : option (list LogEntry);
  agentsCCMaxLogs : N;
  (** how many times the console wrappers and the two error listeners
      have been installed *)
  interceptors : nat;
  innerWidth : Z;
  innerHeight : Z;
  location_href : string;
  document_title : string
}.

Definition setLogs (logs : option (list LogEntry)) (w : Window) : Window :=
  {| querySelector := querySelector w; elements := elements w;
     dispatched := dispatched w; agentsCCConsoleLogs := logs;
     agentsCCMaxLogs := agentsCCMaxLogs w; interceptors := interceptors w;
     innerWidth := innerWidth w; innerHeight := innerHeight w;
     location_href := location_href w;
     document_title := document_title w |}.

(** The first run of the collector script: the buffer, its cap, the five
    console wrappers and the two listeners. *)
Definition installCollector (w : Window) : Window :=
  {| querySelector := querySelector w; elements := elements w;
     dispatched := dispatched w; agentsCCConsoleLogs := Some [];
     agentsCCMaxLogs := 1000; interceptors := S (interceptors w);
     innerWidth := innerWidth w; innerHeight := innerHeight w;
     location_href := location_href w;
     document_title := document_title w |}.

(** [select.value = v; select.dispatchEvent(change); dispatchEvent(input)]
    on element [n]. *)
Definition setElement (n : N) (e : Element) (events : list string)
    (w : Window) : Window :=
  {| querySelector := querySelector w; elements := <[n := e]> (elements w);
     dispatched := dispatched w ++ ((λ ev, (n, ev)) <$> events);
     agentsCCConsoleLogs := agentsCCConsoleLogs w;
     agentsCCMaxLogs := agentsCCMaxLogs w; interceptors := interceptors w;
     innerWidth := innerWidth w; innerHeight := innerHeight w;
     location_href := location_href w;
     document_title := document_title w |}.

(** *** What the page does between protocol calls *)

Inductive ConsoleMethod := c_log | c_info | c_warn | c_error | c_debug.

Definition methodName (m : ConsoleMethod) : string :=
  match m with
  | c_log => "log" | c_info => "info" | c_warn => "warn"
  | c_error => "error" | c_debug => "debug"
  end.

(** [args.map(...).join(' ')] over the already rendered arguments. *)
Fixpoint join (sep : string) (parts : list string) : string :=
  match parts with
  | [] => ""
  | [p] => p
  | p :: rest => p +:+ sep +:+ join sep rest
  end.

(** [window.__agentsCCConsoleLogs.push(entry)] *)
Definition push (entry : LogEntry) (w : Window) : Window :=
  match agentsCCConsoleLogs w with
  | Some logs => setLogs (Some (logs ++ [entry])) w
  | None => w
  end.

(** [if (logs.length > max) logs.shift()] *)
Definition limit (w : Window) : Window :=
  match agentsCCConsoleLogs w with
  | Some logs =>
    if (agentsCCMaxLogs w <? N.of_nat (length logs))%N
    then setLogs (Some (tail logs)) w
    else w
  | None => w
  end.

(** One installed console wrapper handling [console[type](...args)]. *)
Definition consoleWrapper (m : ConsoleMethod) (args : list string) (now : N)
    (w : Window) : Window :=
  limit (push {| log_type := methodName m; log_text := join " " args;
                 log_timestamp := now; log_url := None;
                 log_lineNumber := None |} w).

(** One installed listener for the window's [error] event. *)
Definition errorListener (message filename : string) (lineno : Z) (now : N)
    (w : Window) : Window :=
  push {| log_type := "error"; log_text := message; log_timestamp := now;
          log_url := Some filename; log_lineNumber := Some lineno |} w.

(** One installed listener for [unhandledrejection]. *)
Definition rejectionListener (reason : string) (now : N) (w : Window)
    : Window :=
  push {| log_type := "error";
          log_text := "Unhandled Promise Rejection: " +:+ reason;
          log_timestamp := now; log_url := None;
          log_lineNumber := None |} w.

Inductive PageEvent :=
  | ConsoleCall (m : ConsoleMethod) (args : list string) (now : N)
  | ErrorEvent (message filename : string) (lineno : Z) (now : N)
  | UnhandledRejection (reason : string) (now : N).

(** Every installed wrapper or listener runs once per event. *)
Definition pageStep (w : Window) (e : PageEvent) : Window :=
  match e with
  | ConsoleCall m args now =>
      Nat.iter (interceptors w) (consoleWrapper m args now) w
  | ErrorEvent message filename lineno now =>
      Nat.iter (interceptors w) (errorListener message filename lineno now) w
  | UnhandledRejection reason now =>
      Nat.iter (interceptors w) (rejectionListener reason now) w
  end.

Definition pageRun (w : Window) (evs : list PageEvent) : Window :=
  foldl pageStep w evs.

(** *** Injected scripts *)

Record ElementInfo := {
  info_x : Q;
  info_y : Q;
  info_tagName : string;
  info_text : string
}.

Record SelectedOption := {
  selected_value : string;
  selected_text : string
}.

Record PageInfo := {
  page_url : string;
  page_title : string
}.

Record ViewportSize := {
  viewport_width : Z;
  viewport_height : Z
}.

(** The expressions the page controller and the executor hand to
    [evaluate], each with the values interpolated into its text, indexed
    by the type it is read back as. *)
Inductive Script : Type → Type :=
  | ElementCenterScript (selector : string) : Script ElementInfo
  | ClearElementScript (selector : string) : Script unit
  | ScrollPositionScript : Script (Q * Q)
  | ScrollIntoViewScript (selector : string) : Script unit
  | ScrollToScript (x y : Q) : Script unit
  | PageInfoScript : Script PageInfo
  | ViewportSizeScript : Script ViewportSize
  | SelectOptionScript (selector : string) (value text : option string)
      (index : option Z) : Script SelectedOption
  | ConsoleLogsScript : Script (list LogEntry)
  | ExtractScript (selector : string) : Script JSON
  | UserScript (source : string) : Script (option JSON).

(** What running a script in the page gives: its value, an exception it
    threw, or no run at all because its text does not parse. *)
Inductive Outcome (T : Type) :=
  | Returns (v : T)
  | Raises (message : string)
  | SyntaxError.
Arguments Returns {T} v.
Arguments Raises {T} message.
Arguments SyntaxError {T}.

(** Two of the templates splice the selector, as it is, between single
    quotes: ['Element not found: ${selector}'] and
    ['Element is not a SELECT: ${selector}'].  Scanning the spliced text as
    the body of a single-quoted literal: no quote, backslash or line break
    leaves the literal as written; a quote closes it there, with [rest]
    still to come before the template's own closing quote. *)
Inductive Literal :=
  | Intact
  | ClosedEarly (rest : string)
  | Irregular.

Fixpoint scanSingleQuoted (s : string) : Literal :=
  match s with
  | EmptyString => Intact
  | String c rest =>
    if decide (c = "'"%char) then ClosedEarly rest
    else if decide (c = "\"%char ∨ c = "010"%char ∨ c = "013"%char)
    then Irregular
    else scanSingleQuoted rest
  end.

Definition isSpace (c : Ascii.ascii) : bool :=
  bool_decide (c = " "%char ∨ c = "009"%char).

Definition isDigit (c : Ascii.ascii) : bool :=
  let n := Ascii.nat_of_ascii c in (48 <=? n)%nat && (n <=? 57)%nat.

Definition isIdentifierStart (c : Ascii.ascii) : bool :=
  let n := Ascii.nat_of_ascii c in
  ((65 <=? n)%nat && (n <=? 90)%nat) || ((97 <=? n)%nat && (n <=? 122)%nat)
  || bool_decide (c = "_"%char ∨ c = "$"%char).

Fixpoint identifierRun (s : string) : string :=
  match s with
  | EmptyString => ""
  | String c rest =>
    if isIdentifierStart c || isDigit c then String c (identifierRun rest)
    else ""
  end.

(** Does the text that follows a closed string literal begin with a
    number, or with a name other than the operators [in] and
    [instanceof]?  Then two operands stand side by side and the script is
    not a program.  ([false] claims nothing.) *)
Fixpoint startsOperand (s : string) : bool :=
  match s with
  | EmptyString => false
  | String c rest =>
    if isSpace c then startsOperand rest
    else if isDigit c then true
    else if isIdentifierStart c
    then negb (bool_decide (identifierRun s = "in"
                            ∨ identifierRun s = "instanceof"))
    else false
  end.

(** [textContent?.slice(0, 100) || ''] *)
Definition slice100 (s : string) : string := Text.slice 100 s.

(** [querySelector] followed by the element it names. *)
Definition lookupElement (w : Window) (selector : string)
    : Res (option (N * Element)) :=
  match querySelector w selector with
  | Throw m => Throw m
  | Ok None => Ok None
  | Ok (Some n) =>
    match elements w !! n with
    | Some el => Ok (Some (n, el))
    | None => Ok None
    end
  end.

(** The body of the script of [clickElement]. *)
Definition elementCenter (selector : string) (w : Window)
    : Outcome ElementInfo * Window :=
  match lookupElement w selector with
  | Throw m => (Raises m, w)
  | Ok None => (Raises ("Element not found: " +:+ selector), w)
  | Ok (Some (_, el)) =>
    let r := boundingClientRect el in
    (Returns {| info_x := rect_left r + rect_width r / 2;
                info_y := rect_top r + rect_height r / 2;
                info_tagName := tagName el;
                info_text := slice100 (textContent el) |}, w)
  end.

(** [Array.from(select.options).find(pred)] *)
Definition findOption (pred : OptionElement → bool)
    (opts : list OptionElement) : option OptionElement :=
  head (filter (λ o, pred o = true) opts).

(** [select.options[i]] *)
Definition optionAt (i : Z) (opts : list OptionElement)
    : option OptionElement :=
  if (i <? 0)%Z then None else opts !! Z.to_nat i.

(** The option the script settles on: by value, else by text, else by
    index, each only when supplied and only while nothing is found. *)
Definition resolveOption (value text : option string) (index : option Z)
    (opts : list OptionElement) : option OptionElement :=
  let byValue :=
    match value with
    | Some v => findOption (λ o, bool_decide (opt_value o = v)) opts
    | None => None
    end in
  let byText :=
    match text, byValue with
    | Some t, None => findOption (λ o, bool_decide (opt_text o = t)) opts
    | _, _ => byValue
    end in
  match index, byText with
  | Some i, None => optionAt i opts
  | _, _ => byText
  end.

(** The position [select.value = v] selects: the first option with that
    value, or none. *)
Fixpoint indexOfValue (v : string) (opts : list OptionElement) : Z :=
  match opts with
  | [] => -1
  | o :: rest =>
    if decide (opt_value o = v) then 0
    else let i := indexOfValue v rest in
         if (i <? 0)%Z then -1 else (1 + i)%Z
  end.

(** The body of the script of [selectOption]. *)
Definition selectInPage (selector : string) (value text : option string)
    (index : option Z) (w : Window) : Outcome SelectedOption * Window :=
  match lookupElement w selector with
  | Throw m => (Raises m, w)
  | Ok None => (Raises ("Element is not a SELECT: " +:+ selector), w)
  | Ok (Some (n, select)) =>
    if decide (tagName select = "SELECT") then
      match resolveOption value text index (options select) with
      | None => (Raises "Option not found", w)
      | Some optionToSelect =>
        let select' :=
          {| tagName := tagName select; textContent := textContent select;
             boundingClientRect := boundingClientRect select;
             options := options select;
             selectedIndex :=
               indexOfValue (opt_value optionToSelect) (options select) |} in
        (Returns {| selected_value := opt_value optionToSelect;
                    selected_text := opt_text optionToSelect |},
         setElement n select' ["change"; "input"] w)
      end
    else (Raises ("Element is not a SELECT: " +:+ selector), w)
  end.

(** The body of the script of [getConsoleLogs]: install once, then hand
    over a copy of the buffer and start a new one. *)
Definition drainLogs (w : Window) : Outcome (list LogEntry) * Window :=
  let w1 := match agentsCCConsoleLogs w with
            | None => installCollector w
            | Some _ => w
            end in
  (Returns (default [] (agentsCCConsoleLogs w1)), setLogs (Some []) w1).

(** The spec's wording of the resolution order: of the criteria taken in
    the order value, text, index, the first that is supplied and yields a
    match decides. *)
Fixpoint firstMatch (candidates : list (option OptionElement))
    : option OptionElement :=
  match candidates with
  | [] => None
  | Some o :: _ => Some o
  | None :: rest => firstMatch rest
  end.

(** *** Protocol commands and the host *)

Inductive MouseEventType :=
  mouseMoved | mousePressed | mouseReleased | mouseWheel.
Inductive KeyEventType := keyDown | keyUp.

Record NavigateResult := {
  frameId : string;
  loaderId : string
}.

(** [Page.getNavigationHistory]: the current index and the entry ids. *)
Record NavigationHistory := {
  currentIndex : Z;
  entries : list Z
}.

(** [CaptureScreenshotParams.clip] *)
Record Viewport := {
  clip_x : Q;
  clip_y : Q;
  clip_width : Q;
  clip_height : Q;
  clip_scale : Q
}.

(** [Runtime.evaluate]'s reply, read the way [evaluate] reads it:
    [exceptionDetails.text] first, [result.value] otherwise. *)
Inductive EvaluateResult (T : Type) :=
  | EvalValue (value : T)
  | EvalException (text : string).
Arguments EvalValue {T} value.
Arguments EvalException {T} text.

(** A method name with its parameters, indexed by the type the reply is
    read as. *)
Inductive Command : Type → Type :=
  | PageEnable : Command unit
  | DOMEnable : Command unit
  | RuntimeEnable : Command unit
  | LogEnable : Command unit
  | PageNavigate (url : string) : Command NavigateResult
  | PageGetNavigationHistory : Command NavigationHistory
  | PageNavigateToHistoryEntry (entryId : Z) : Command unit
  | PageReload : Command unit
  | PageCaptureScreenshot (format : string) (quality : option Q)
      (clip : option Viewport) (captureBeyondViewport : bool)
      : Command string
  | RuntimeEvaluate {T : Type} (expression : Script T)
      : Command (EvaluateResult T)
  | InputDispatchMouseEvent (type : MouseEventType) (x y : Q)
      (button : option string) (clickCount : option Q)
      (deltaX deltaY : option Q) : Command unit
  | InputDispatchKeyEvent (type : KeyEventType) (key : string)
      : Command unit
  | InputInsertText (text : string) : Command unit.

Definition method {T} (c : Command T) : string :=
  match c with
  | PageEnable => "Page.enable"
  | DOMEnable => "DOM.enable"
  | RuntimeEnable => "Runtime.enable"
  | LogEnable => "Log.enable"
  | PageNavigate _ => "Page.navigate"
  | PageGetNavigationHistory => "Page.getNavigationHistory"
  | PageNavigateToHistoryEntry _ => "Page.navigateToHistoryEntry"
  | PageReload => "Page.reload"
  | PageCaptureScreenshot _ _ _ _ => "Page.captureScreenshot"
  | RuntimeEvaluate _ => "Runtime.evaluate"
  | InputDispatchMouseEvent _ _ _ _ _ _ _ => "Input.dispatchMouseEvent"
  | InputDispatchKeyEvent _ _ => "Input.dispatchKeyEvent"
  | InputInsertText _ => "Input.insertText"
  end.

(** A call into [chrome.debugger]. *)
Inductive HostCall :=
  | HAttach (tabId : N) (version : string)
  | HDetach (tabId : N)
  | HSendCommand (tabId : N) {T : Type} (c : Command T).

(** The host capability, which the repository only calls: every reply may
    depend on the calls made so far.  [otherScript] runs the scripts this
    development gives no body to, and those whose spliced selector leaves
    a text it cannot judge. *)
Record Host := {
  attachReply : list HostCall → N → Res unit;
  detachReply : list HostCall → N → Res unit;
  commandError : list HostCall → ∀ T, Command T → option string;
  navigateReply : list HostCall → string → NavigateResult;
  historyReply : list HostCall → NavigationHistory;
  screenshotReply : list HostCall → string;
  pageReacts : list HostCall → Window → Window;
  exceptionText : ∀ T, Outcome T → string;
  otherScript : ∀ T, Script T → Window → Outcome T * Window;
  loadEventFires : list HostCall → bool;
  (** [browserContext] of '@/cdp' *)
  getActivePageReply : list HostCall → Res unit;
  getAllTabsInfoReply : list HostCall → Res JSON;
  switchToTabReply : list HostCall → Z → Res unit;
  (** the content script reached through [chrome.tabs] *)
  overlayReply : list HostCall → Res unit;
  (** '@/ai', for an action of the add-on and its arguments *)
  aiReply : list HostCall → string → Params → Res JSON
}.

(** A script whose message literal the selector may break. *)
Definition spliced {T} (host : Host) (s : Script T) (selector : string)
    (body : Window → Outcome T * Window) (w : Window)
    : Outcome T * Window :=
  match scanSingleQuoted selector with
  | Intact => body w
  | ClosedEarly rest =>
    if startsOperand rest then (SyntaxError, w) else otherScript host T s w
  | Irregular => otherScript host T s w
  end.

(** What the page does with an evaluated expression. *)
Definition runScript (host : Host) {T} (s : Script T)
    : Window → Outcome T * Window :=
  match s in Script T return Window → Outcome T * Window with
  | ElementCenterScript selector =>
      spliced host (ElementCenterScript selector) selector
        (elementCenter selector)
  | SelectOptionScript selector value text index =>
      spliced host (SelectOptionScript selector value text index) selector
        (selectInPage selector value text index)
  | ConsoleLogsScript => drainLogs
  | PageInfoScript => λ w,
      (Returns {| page_url := location_href w;
                  page_title := document_title w |}, w)
  | ViewportSizeScript => λ w,
      (Returns {| viewport_width := innerWidth w;
                  viewport_height := innerHeight w |}, w)
  | ClearElementScript selector =>
      otherScript host _ (ClearElementScript selector)
  | ScrollPositionScript => otherScript host _ ScrollPositionScript
  | ScrollIntoViewScript selector =>
      otherScript host _ (ScrollIntoViewScript selector)
  | ScrollToScript x y => otherScript host _ (ScrollToScript x y)
  | ExtractScript selector => otherScript host _ (ExtractScript selector)
  | UserScript source => otherScript host _ (UserScript source)
  end.

(** The reply to a command the host accepts, and the page afterwards. *)
Definition hostResult (host : Host) (calls : list HostCall) {T}
    (c : Command T) : Window → T * Window :=
  match c in Command T return Window → T * Window with
  | RuntimeEvaluate s => λ w,
      let '(o, w') := runScript host s w in
      (match o with
       | Returns v => EvalValue v
       | _ => EvalException (exceptionText host _ o)
       end, w')
  | PageNavigate url => λ w,
      (navigateReply host calls url, pageReacts host calls w)
  | PageGetNavigationHistory => λ w, (historyReply host calls, w)
  | PageCaptureScreenshot _ _ _ _ => λ w, (screenshotReply host calls, w)
  | PageEnable | DOMEnable | RuntimeEnable | LogEnable => λ w, (tt, w)
  | PageNavigateToHistoryEntry _ | PageReload
  | InputDispatchMouseEvent _ _ _ _ _ _ _ | InputDispatchKeyEvent _ _
  | InputInsertText _ => λ w, (tt, pageReacts host calls w)
  end.

(** *** The extension's state and its computations *)

(** One [Page] with its [ExtensionTransport], the host's call log, the
    page, and two ghost logs: every error raised ([raised]) and every
    overlay message sent ([overlay]: a status to show, [None] to hide). *)
Record World := {
  tabId : N;
  attached : bool;
  (** [handleEvent] and [handleDetach] are registered with the host *)
  listening : bool;
  hostLog : list HostCall;
  window : Window;
  raised : list string;
  overlay : list (option string)
}.

(** A computation that may throw and may change the world. *)
Definition M (A : Type) : Type := World → Res A * World.

Definition ret {A} (a : A) : M A := λ w, (Ok a, w).

Definition bind {A B} (m : M A) (k : A → M B) : M B := λ w,
  match m w with
  | (Ok a, w') => k a w'
  | (Throw e, w') => (Throw e, w')
  end.

Notation "'let!' x := m 'in' k" := (bind m (λ x, k))
  (at level 10, x pattern, m at level 100, k at level 200).
Notation "m ;;; k" := (bind m (λ _, k))
  (at level 100, k at level 200, right associativity).

Definition noteRaised (e : string) (w : World) : World :=
  {| tabId := tabId w; attached := attached w; listening := listening w;
     hostLog := hostLog w; window := window w; raised := raised w ++ [e];
     overlay := overlay w |}.

(** [throw new Error(e)] *)
Definition throw {A} (e : string) : M A := λ w, (Throw e, noteRaised e w).

(** [try { await m } catch { }] *)
Definition swallow {A} (m : M A) : M unit := λ w, (Ok tt, snd (m w)).

Definition setAttached (b : bool) : M unit := λ w,
  (Ok tt, {| tabId := tabId w; attached := b; listening := listening w;
             hostLog := hostLog w; window := window w; raised := raised w;
             overlay := overlay w |}).

Definition setListening (b : bool) : M unit := λ w,
  (Ok tt, {| tabId := tabId w; attached := attached w; listening := b;
             hostLog := hostLog w; window := window w; raised := raised w;
             overlay := overlay w |}).

Definition noteCall (c : HostCall) (w : World) : World :=
  {| tabId := tabId w; attached := attached w; listening := listening w;
     hostLog := hostLog w ++ [c]; window := window w; raised := raised w;
     overlay := overlay w |}.

Definition setWindow (win : Window) (w : World) : World :=
  {| tabId := tabId w; attached := attached w; listening := listening w;
     hostLog := hostLog w; window := win; raised := raised w;
     overlay := overlay w |}.

Definition noteOverlay (o : option string) (w : World) : World :=
  {| tabId := tabId w; attached := attached w; listening := listening w;
     hostLog := hostLog w; window := window w; raised := raised w;
     overlay := overlay w ++ [o] |}.

(** The three pointer events of [clickAt]. *)
Definition pointerEvents (tab : N) (x y : Q) (button : string)
    (clickCount : Q) : list HostCall :=
  [HSendCommand tab
     (InputDispatchMouseEvent mouseMoved x y None None None None);
   HSendCommand tab
     (InputDispatchMouseEvent mousePressed x y (Some button)
        (Some clickCount) None None);
   HSendCommand tab
     (InputDispatchMouseEvent mouseReleased x y (Some button)
        (Some clickCount) None None)].

(** What a result adds to the log of raised errors when nothing was
    swallowed on the way: the error thrown, if any. *)
Definition outcomeTail {A} (r : Res A) : list string :=
  match r with
  | Ok _ => []
  | Throw e => [e]
  end.

(** [m] accounts for every error raised while it runs: each is either the
    one [m] throws or one of the errors [P] allows it to drop. *)
Definition carries {A} (P : string → Prop) (m : M A) : Prop :=
  ∀ w, ∃ dropped,
    Forall P dropped
    ∧ raised (m w).2 = raised w ++ dropped ++ outcomeTail (m w).1.

Section WithHost.

Variable host : Host.

(** A call whose reply is all the repository sees of it. *)
Definition external {A} (reply : list HostCall → Res A) : M A := λ w,
  match reply (hostLog w) with
  | Ok a => (Ok a, w)
  | Throw e => (Throw e, noteRaised e w)
  end.

(** A logged call into the host with the reply it gets. *)
Definition hostCall {A} (c : HostCall) (reply : Res A) : M A := λ w,
  match reply with
  | Ok a => (Ok a, noteCall c w)
  | Throw e => (Throw e, noteRaised e (noteCall c w))
  end.

(** [await chrome.debugger.attach({ tabId }, '1.3')] *)
Definition debuggerAttach : M unit := λ w,
  hostCall (HAttach (tabId w) "1.3")
    (attachReply host (hostLog w) (tabId w)) w.

(** [await chrome.debugger.detach({ tabId })] *)
Definition debuggerDetach : M unit := λ w,
  hostCall (HDetach (tabId w)) (detachReply host (hostLog w) (tabId w)) w.

(** [await chrome.debugger.sendCommand({ tabId }, method, params)] *)
Definition debuggerSendCommand {T} (c : Command T) : M T := λ w,
  let w1 := noteCall (HSendCommand (tabId w) c) w in
  match commandError host (hostLog w) T c with
  | Some e => (Throw e, noteRaised e w1)
  | None =>
    let '(r, win) := hostResult host (hostLog w) c (window w) in
    (Ok r, setWindow win w1)
  end.

(** **** ExtensionTransport *)

Definition attach : M unit := λ w,
  if attached w then ret tt w
  else (debuggerAttach ;;; setAttached true ;;; setListening true) w.

Definition detach : M unit := λ w,
  if negb (attached w) then ret tt w
  else (setListening false ;;; swallow debuggerDetach ;;;
        setAttached false) w.

Definition send {T} (c : Command T) : M T := λ w,
  if negb (attached w) then throw "Debugger not attached" w
  else debuggerSendCommand c w.

Definition isAttached : M bool := λ w, (Ok (attached w), w).

(** [handleDetach(source, reason)] *)
Definition handleDetach (source : N) (w : World) : World :=
  if decide (source = tabId w) then snd (setAttached false w) else w.

(** The host's [onDetach] event: it reaches [handleDetach] while the
    listener is registered. *)
Definition onDetach (source : N) (w : World) : World :=
  if listening w then handleDetach source w else w.

(** The host accepts every command (it may still report a script's
    exception). *)
Definition accepts : Prop :=
  ∀ calls T (c : Command T), commandError host calls T c = None.

(** Whenever the session is attached its detach listener is registered;
    [attach], [detach] and the host's detach event keep it so. *)
Definition wired (w : World) : Prop :=
  attached w = true → listening w = true.

(** **** Page *)

Definition navigateTo (url : string) : M NavigateResult :=
  send (PageNavigate url).

(** [waitForNavigation()]: the load event or the 30000 ms timer,
    whichever the host makes come first. *)
Definition waitForNavigation : M unit := λ w,
  if loadEventFires host (hostLog w) then ret tt w
  else throw "Navigation timeout" w.

Definition evaluate {T} (expression : Script T) : M T :=
  let! result := send (RuntimeEvaluate expression) in
  match result with
  | EvalException text => throw text
  | EvalValue value => ret value
  end.

(** [options.clickCount || 1] *)
Definition clickCountOr1 (c : option Q) : Q :=
  match c with
  | Some q => if Qeq_bool q 0 then 1 else q
  | None => 1
  end.

Definition clickAt (x y : Q) (button : option string)
    (clickCount : option Q) : M unit :=
  let button := opt_str_or button "left" in
  let clickCount := clickCountOr1 clickCount in
  send (InputDispatchMouseEvent mouseMoved x y None None None None) ;;;
  send (InputDispatchMouseEvent mousePressed x y (Some button)
          (Some clickCount) None None) ;;;
  send (InputDispatchMouseEvent mouseReleased x y (Some button)
          (Some clickCount) None None).

Definition clickElement (selector : string) : M (string * string) :=
  let! elementInfo := evaluate (ElementCenterScript selector) in
  clickAt (info_x elementInfo) (info_y elementInfo) None None ;;;
  ret (info_tagName elementInfo, info_text elementInfo).

(** The characters of [text], for [for (const char of text)]: its code
    points. *)
Definition chars (text : string) : list string := Text.codePoints text.

Fixpoint insertEach (cs : list string) : M unit :=
  match cs with
  | [] => ret tt
  | c :: rest => send (InputInsertText c) ;;; insertEach rest
  end.

(** [type(text, delay = 0)]; the sleeps between characters pass time
    and nothing else. *)
Definition type (text : string) (delay : option Q) : M unit :=
  if Qeq_bool (default 0%Q delay) 0 then send (InputInsertText text)
  else insertEach (chars text).

Definition typeInElement (selector text : string)
    (clearFirst : option bool) (delay : option Q) : M unit :=
  clickElement selector ;;;
  (if default false clearFirst
   then evaluate (ClearElementScript selector)
   else ret tt) ;;;
  type text delay.

Definition pressKey (key : string) : M unit :=
  send (InputDispatchKeyEvent keyDown key) ;;;
  send (InputDispatchKeyEvent keyUp key).

Definition scroll (direction : string) (distance : Q) : M (Q * Q) :=
  let deltaX :=
    if decide (direction = "left") then (- distance)%Q
    else if decide (direction = "right") then distance else 0%Q in
  let deltaY :=
    if decide (direction = "up") then (- distance)%Q
    else if decide (direction = "down") then distance else 0%Q in
  send (InputDispatchMouseEvent mouseWheel 400 300 None None
          (Some deltaX) (Some deltaY)) ;;;
  evaluate ScrollPositionScript.

Definition scrollToElement (selector : string) : M unit :=
  evaluate (ScrollIntoViewScript selector).

Definition scrollTo (x y : Q) : M unit := evaluate (ScrollToScript x y).

Definition getPageInfo : M PageInfo := evaluate PageInfoScript.

Definition getViewportSize : M ViewportSize :=
  evaluate ViewportSizeScript.

Definition captureScreenshot (format : option string)
    (quality : option Q) (clip : option Viewport)
    (captureBeyondViewport : option bool) : M string :=
  send (PageCaptureScreenshot (opt_str_or format "png") quality clip
          (default true captureBeyondViewport)).

Definition selectOption (selector : string) (value text : option string)
    (index : option Z) : M SelectedOption :=
  evaluate (SelectOptionScript selector value text index).

Definition getConsoleLogs : M (list LogEntry) :=
  evaluate ConsoleLogsScript.

Definition goBack : M unit :=
  let! history := send PageGetNavigationHistory in
  if (0 <? currentIndex history)%Z then
    match entries history !! Z.to_nat (currentIndex history - 1) with
    | Some entryId => send (PageNavigateToHistoryEntry entryId)
    | None => throw "Cannot read properties of undefined (reading 'id')"
    end
  else ret tt.

Definition goForward : M unit :=
  let! history := send PageGetNavigationHistory in
  if (currentIndex history <? Z.of_nat (length (entries history)) - 1)%Z
  then
    match (if (currentIndex history + 1 <? 0)%Z then None
           else entries history !! Z.to_nat (currentIndex history + 1))
    with
    | Some entryId => send (PageNavigateToHistoryEntry entryId)
    | None => throw "Cannot read properties of undefined (reading 'id')"
    end
  else ret tt.

Definition reload : M unit := send PageReload.

End WithHost.

End Cdp.

(** ** The action executor (extension/src/background/index.ts) *)
Module Background.
Import Cdp.

(** [OPERATION_STATUS] *)
Definition OPERATION_STATUS : list (string * string) :=
  [("navigate", "Navigating...");
   ("click", "Clicking element...");
   ("type", "Typing text...");
   ("scroll", "Scrolling page...");
   ("screenshot", "Taking screenshot...");
   ("extract", "Extracting content...");
   ("evaluate", "Executing script...");
   ("ai_chat", "AI thinking...");
   ("ai_generate", "AI generating...")].

Fixpoint assoc (key : string) (table : list (string * string))
    : option string :=
  match table with
  | [] => None
  | (k, v) :: rest => if decide (k = key) then Some v else assoc key rest
  end.

(** The actions of the text-generation add-on. *)
Definition aiActions : list string :=
  ["ai_config"; "ai_get_config"; "ai_clear_config"; "ai_chat";
   "ai_generate"].

Definition JInt (z : Z) : JSON := JNum (inject_Z z).

Section WithHost.

Variable host : Host.

(** [showOverlay(status)]: best effort, a failure is dropped. *)
Definition showOverlay (status : string) : M unit := λ w,
  match overlayReply host (hostLog w) with
  | Ok _ => (Ok tt, noteOverlay (Some status) w)
  | Throw _ => (Ok tt, w)
  end.

(** [hideOverlay()] *)
Definition hideOverlay : M unit := λ w,
  match overlayReply host (hostLog w) with
  | Ok _ => (Ok tt, noteOverlay None w)
  | Throw _ => (Ok tt, w)
  end.

(** [await page.waitForNavigation().catch(() => {})] *)
Definition waitForNavigationCaught : M unit :=
  swallow (waitForNavigation host).

Definition executeAction (action : string) (params : Params) : M JSON :=
  external (getActivePageReply host) ;;;
  if decide (action = "navigate") then
    match truthy (p_url params) with
    | None => throw "URL is required"
    | Some url =>
      navigateTo host url ;;;
      waitForNavigationCaught ;;;
      let! info := getPageInfo host in
      ret (JObj [("url", JStr (page_url info));
                 ("title", JStr (page_title info))])
    end
  else if decide (action = "click") then
    match truthy (p_selector params), p_x params, p_y params with
    | Some selector, _, _ =>
      let! result := clickElement host selector in
      ret (JObj [("clicked", JBool true);
                 ("element", JObj [("tagName", JStr (fst result));
                                   ("text", JStr (snd result))])])
    | None, Some x, Some y =>
      clickAt host x y (p_button params) (p_clickCount params) ;;;
      ret (JObj [("clicked", JBool true)])
    | None, _, _ => throw "selector or coordinates required"
    end
  else if decide (action = "type") then
    match truthy (p_text params) with
    | None => throw "text is required"
    | Some text =>
      match truthy (p_selector params) with
      | Some selector =>
          typeInElement host selector text (p_clearFirst params)
            (p_delay params)
      | None => type host text (p_delay params)
      end ;;;
      ret (JObj [("typed", JBool true);
                 ("length", JInt (Z.of_nat (Text.length text)))])
    end
  else if decide (action = "scroll") then
    match truthy (p_selector params), p_x params, p_y params with
    | Some selector, _, _ =>
      scrollToElement host selector ;;;
      ret (JObj [("scrolled", JBool true)])
    | None, Some x, Some y =>
      scrollTo host x y ;;; ret (JObj [("scrolled", JBool true)])
    | None, _, _ =>
      let direction := opt_str_or (p_direction params) "down" in
      let distance :=
        match p_distance params with
        | Some d => if Qeq_bool d 0 then 500%Q else d
        | None => 500%Q
        end in
      let! pos := scroll host direction distance in
      ret (JObj [("scrollX", JNum (fst pos)); ("scrollY", JNum (snd pos))])
    end
  else if decide (action = "screenshot") then
    let format := opt_str_or (p_format params) "png" in
    let! image :=
      captureScreenshot host (Some format) (p_quality params) None
        (p_fullPage params) in
    let! viewport := getViewportSize host in
    ret (JObj [("image", JStr image);
               ("width", JInt (viewport_width viewport));
               ("height", JInt (viewport_height viewport))])
  else if decide (action = "extract") then
    match truthy (p_selector params) with
    | None => throw "selector is required"
    | Some selector => evaluate host (ExtractScript selector)
    end
  else if decide (action = "evaluate") then
    match truthy (p_script params) with
    | None => throw "script is required"
    | Some script =>
      let! result := evaluate host (UserScript script) in
      ret (JObj match result with
                | Some v => [("result", v)]
                | None => []
                end)
    end
  else if decide (action = "get_page_info") then
    let! info := getPageInfo host in
    ret (JObj [("url", JStr (page_url info));
               ("title", JStr (page_title info))])
  else if decide (action = "get_tabs") then
    let! tabs := external (getAllTabsInfoReply host) in
    ret (JObj [("tabs", tabs)])
  else if decide (action = "switch_tab") then
    match p_tabId params with
    | Some tabId =>
      if decide (tabId = 0%Z) then throw "tabId is required"
      else
        external (λ calls, switchToTabReply host calls tabId) ;;;
        ret (JObj [("switched", JBool true)])
    | None => throw "tabId is required"
    end
  else if decide (action = "press_key") then
    match truthy (p_key params) with
    | None => throw "key is required"
    | Some key =>
      pressKey host key ;;;
      ret (JObj [("pressed", JBool true); ("key", JStr key)])
    end
  else if decide (action = "select_option") then
    match truthy (p_selector params) with
    | None => throw "selector is required"
    | Some selector =>
      let! result :=
        selectOption host selector (p_value params) (p_text params)
          (p_index params) in
      ret (JObj [("selected", JBool true);
                 ("value", JStr (selected_value result));
                 ("text", JStr (selected_text result))])
    end
  else if decide (action = "go_back") then
    goBack host ;;; ret (JObj [("navigated", JBool true)])
  else if decide (action = "go_forward") then
    goForward host ;;; ret (JObj [("navigated", JBool true)])
  else if decide (action = "reload") then
    reload host ;;; ret (JObj [("reloaded", JBool true)])
  else if bool_decide (action ∈ aiActions) then
    external (λ calls, aiReply host calls action params)
  else throw ("Unknown action: " +:+ action).

(** [handleMCPRequest(request)]: the reply it resolves with; it never
    rejects.  The status line is [OPERATION_STATUS[action]], looked up
    among the table's own keys.  For a name of [inheritedNames] the code
    finds an inherited value there and sends a show message as well, which
    this overlay log does not have; the reply, the host calls and the
    errors raised are the same. *)
Definition handleMCPRequest (action : string) (params : option Params)
    (w : World) : Bridge.Payload * World :=
  let status := assoc action OPERATION_STATUS in
  let attempt :=
    match status with
    | Some s => showOverlay s
    | None => ret tt
    end ;;;
    let! result := executeAction action (default noParams params) in
    match status with
    | Some _ => hideOverlay
    | None => ret tt
    end ;;;
    ret result in
  match attempt w with
  | (Ok result, w') =>
    ({| Bridge.success := true; Bridge.data := Some result;
        Bridge.error := None |}, w')
  | (Throw e, w') =>
    ({| Bridge.success := false; Bridge.data := None;
        Bridge.error := Some e |}, snd (hideOverlay w'))
  end.

End WithHost.

End Background.

(** ** The tool dispatcher (mcp-server/src/index.ts) *)
Module Dispatcher.

(** The table inside [getActionFromToolName]. *)
Definition mapping : list (string * string) :=
  [("browser_navigate", "navigate");
   ("browser_click", "click");
   ("browser_type", "type");
   ("browser_scroll", "scroll");
   ("browser_screenshot", "screenshot");
   ("browser_extract", "extract");
   ("browser_evaluate", "evaluate");
   ("browser_get_page_info", "get_page_info");
   ("browser_get_tabs", "get_tabs");
   ("browser_switch_tab", "switch_tab");
   ("browser_press_key", "press_key");
   ("browser_select_option", "select_option");
   ("browser_go_back", "go_back");
   ("browser_go_forward", "go_forward");
   ("browser_reload", "reload")].

(** [mapping[toolName] || toolName]: the table's entry, or the name itself.
    This is the code's result for every name outside [inheritedNames]; for
    those the code gets the inherited value, which is not a string. *)
Definition getActionFromToolName (toolName : string) : string :=
  opt_str_or (Background.assoc toolName mapping) toolName.

(** One part of a tool response's [content]. *)
Inductive Content :=
  | TextContent (text : string)
  | ImageContent (data : JSON) (mimeType : string).

(** A tool response; [isError] is [false] where the code leaves it out. *)
Record ToolResponse := {
  content : list Content;
  isError : bool
}.

(** The runtime's renderings that are taken as given:
    [JSON.stringify(result, null, 2)], and a number that is not an integer
    inside a template string. *)
Record Runtime := {
  stringify : option JSON → string;
  fractionToString : Q → string
}.

Section WithRuntime.

Variable rt : Runtime.

(** [`${n}`] for a number. *)
Definition numberToString (q : Q) : string :=
  let r := Qred q in
  if decide (Qden r = 1%positive) then pretty (Qnum r)
  else fractionToString rt q.

(** Is a value truthy? *)
Definition isTruthy (j : JSON) : bool :=
  match j with
  | JNull => false
  | JBool b => b
  | JNum q => negb (Qeq_bool q 0)
  | JStr s => negb (bool_decide (s = ""))
  | JArr _ | JObj _ => true
  end.

(** An array element inside [Array.prototype.join]. *)
Definition joinElement (render : JSON → string) (j : JSON) : string :=
  match j with
  | JNull => ""
  | _ => render j
  end.

(** [`${v}`] for a value. *)
Fixpoint toTemplate (j : JSON) : string :=
  match j with
  | JNull => "null"
  | JBool true => "true"
  | JBool false => "false"
  | JNum q => numberToString q
  | JStr s => s
  | JArr items => Cdp.join "," (map (joinElement toTemplate) items)
  | JObj _ => "[object Object]"
  end.

(** [`${v}`] where [v] may be [undefined]. *)
Definition template (v : option JSON) : string :=
  match v with
  | Some j => toTemplate j
  | None => "undefined"
  end.

(** The fields of a value that is an object, for [result.key]. *)
Definition property (key : string) (j : JSON) : option JSON :=
  match j with
  | JObj fields => field key fields
  | _ => None
  end.

(** [result && typeof result === 'object'] *)
Definition isObject (result : option JSON) : bool :=
  match result with
  | Some (JObj _) | Some (JArr _) => true
  | _ => false
  end.

(** The body of the [try] block after [await sendToExtension] has
    returned [result]. *)
Definition onResult (name : string) (result : option JSON) : ToolResponse :=
  let generic :=
    {| content := [TextContent (stringify rt result)];
       isError := false |} in
  if bool_decide (name = "browser_screenshot") && isObject result then
    match result ≫= property "image" with
    | Some image =>
      if isTruthy image then
        {| content :=
             [ImageContent image "image/png";
              TextContent
                ("Screenshot captured: "
                 +:+ template (result ≫= property "width") +:+ "x"
                 +:+ template (result ≫= property "height"))];
           isError := false |}
      else generic
    | None => generic
    end
  else generic.

(** The [catch] block, for a rejection with an [Error]. *)
Definition onError (errorMessage : string) : ToolResponse :=
  {| content := [TextContent ("Error: " +:+ errorMessage)];
     isError := true |}.

(** The request handler once the awaited promise has settled. *)
Definition respond (name : string) (s : Bridge.Settlement) : ToolResponse :=
  match s with
  | Bridge.Resolved result => onResult name result
  | Bridge.Rejected message => onError message
  end.

Section WithHost.

Variable host : Cdp.Host.

(** Modelled from the spec: the side panel, which is not among the
    sources.  It passes a Request envelope's action and params to the
    executor and sends the executor's reply back as
    [{type: "RESPONSE", id, payload}] with the request's id.

    One tool call from the handler's entry to its response, on the
    schedule in which the reply is the first thing to reach the bridge
    after the call (an action that ends well within the bridge's 30000
    ms): the bridge call, and, with a peer connected, the executor's run
    and the reply.  [None] while the promise is unsettled.  Every other
    schedule (the timer first, the peer gone, a reply that has lost its
    payload) is the matter of [BridgeFate.fate]. *)
Definition invoke (name : string) (args : option Params)
    (st : Bridge.State) (w : Cdp.World)
    : option ToolResponse * Bridge.State * Cdp.World :=
  let action := getActionFromToolName name in
  let '(st1, p) := Bridge.sendToExtension action args st in
  if Bridge.connected st then
    let id := Bridge.requestId (Bridge.requestIdCounter st) in
    let '(payload, w') := Background.handleMCPRequest host action args w in
    let st2 :=
      Bridge.onMessage (Bridge.Message "RESPONSE" id (Some payload)) st1 in
    (respond name <$> Bridge.promiseState p st2, st2, w')
  else (respond name <$> Bridge.promiseState p st1, st1, w).

End WithHost.

End WithRuntime.

End Dispatcher.

(** ** Sample hosts, pages and worlds *)
Module Samples.
Import Cdp.

(** A host that grants every request and a page that never changes by
    itself; evaluation failures are reported as "Uncaught". *)
Definition quietHost : Host :=
  {| attachReply := λ _ _, Ok tt;
     detachReply := λ _ _, Ok tt;
     commandError := λ _ _ _, None;
     navigateReply := λ _ _, {| frameId := "F1"; loaderId := "L1" |};
     historyReply := λ _, {| currentIndex := 0; entries := [0%Z] |};
     screenshotReply := λ _, "iVBORw0KGgo=";
     pageReacts := λ _ w, w;
     exceptionText := λ _ _, "Uncaught";
     otherScript := λ _ _ w, (SyntaxError, w);
     loadEventFires := λ _, true;
     getActivePageReply := λ _, Ok tt;
     getAllTabsInfoReply := λ _, Ok (JArr []);
     switchToTabReply := λ _ _, Ok tt;
     overlayReply := λ _, Ok tt;
     aiReply := λ _ _ _,
       Throw "AI service not configured. Use ai_config first." |}.

(** The same host, on a page whose load event never comes. *)
Definition stalledHost : Host :=
  {| attachReply := attachReply quietHost;
     detachReply := detachReply quietHost;
     commandError := commandError quietHost;
     navigateReply := navigateReply quietHost;
     historyReply := historyReply quietHost;
     screenshotReply := screenshotReply quietHost;
     pageReacts := pageReacts quietHost;
     exceptionText := exceptionText quietHost;
     otherScript := otherScript quietHost;
     loadEventFires := λ _, false;
     getActivePageReply := getActivePageReply quietHost;
     getAllTabsInfoReply := getAllTabsInfoReply quietHost;
     switchToTabReply := switchToTabReply quietHost;
     overlayReply := overlayReply quietHost;
     aiReply := aiReply quietHost |}.

(** The same host, reporting that the tab's debugger is already gone. *)
Definition goneHost : Host :=
  {| attachReply := attachReply quietHost;
     detachReply := λ _ _, Throw "Debugger is not attached to the tab.";
     commandError := commandError quietHost;
     navigateReply := navigateReply quietHost;
     historyReply := historyReply quietHost;
     screenshotReply := screenshotReply quietHost;
     pageReacts := pageReacts quietHost;
     exceptionText := exceptionText quietHost;
     otherScript := otherScript quietHost;
     loadEventFires := loadEventFires quietHost;
     getActivePageReply := getActivePageReply quietHost;
     getAllTabsInfoReply := getAllTabsInfoReply quietHost;
     switchToTabReply := switchToTabReply quietHost;
     overlayReply := overlayReply quietHost;
     aiReply := aiReply quietHost |}.

(** A 40 by 20 input at (100, 200). *)
Definition searchBox : Element :=
  {| tagName := "INPUT"; textContent := "";
     boundingClientRect :=
       {| rect_left := 100; rect_top := 200; rect_width := 40;
          rect_height := 20 |};
     options := []; selectedIndex := -1 |}.

(** A select whose second option carries the text "B". *)
Definition dropdown : Element :=
  {| tagName := "SELECT"; textContent := "AB";
     boundingClientRect :=
       {| rect_left := 10; rect_top := 10; rect_width := 80;
          rect_height := 20 |};
     options := [ {| opt_value := "a"; opt_text := "A" |};
                  {| opt_value := "b"; opt_text := "B" |} ];
     selectedIndex := 1 |}.

Definition samplePage : Window :=
  {| querySelector := λ selector,
       if bool_decide (selector ∈ ["#search"; "input[name='q']"])
       then Ok (Some 1%N)
       else if bool_decide (selector ∈ ["#country"; "select[name='c']"])
       then Ok (Some 2%N)
       else Ok None;
     elements := {[ 1%N := searchBox; 2%N := dropdown ]};
     dispatched := [];
     agentsCCConsoleLogs := None; agentsCCMaxLogs := 0; interceptors := 0;
     innerWidth := 1280; innerHeight := 720;
     location_href := "https://example.com/";
     document_title := "Example Domain" |}.

(** A page controller that has not attached yet. *)
Definition freshWorld : World :=
  {| tabId := 1; attached := false; listening := false; hostLog := [];
     window := samplePage; raised := []; overlay := [] |}.

(** The same after a successful [attach]. *)
Definition attachedWorld : World :=
  {| tabId := 1; attached := true; listening := true;
     hostLog := [HAttach 1 "1.3"]; window := samplePage; raised := [];
     overlay := [] |}.

(** [{url: "https://example.com"}] *)
Definition urlParams : Params :=
  {| p_url := Some "https://example.com"; p_selector := None; p_x := None;
     p_y := None; p_button := None; p_clickCount := None; p_text := None;
     p_clearFirst := None; p_delay := None; p_direction := None;
     p_distance := None; p_format := None; p_quality := None;
     p_fullPage := None; p_script := None; p_tabId := None; p_key := None;
     p_value := None; p_index := None |}.

(** [{selector: "#search"}] *)
Definition searchParams : Params :=
  {| p_url := None; p_selector := Some "#search"; p_x := None; p_y := None;
     p_button := None; p_clickCount := None; p_text := None;
     p_clearFirst := None; p_delay := None; p_direction := None;
     p_distance := None; p_format := None; p_quality := None;
     p_fullPage := None; p_script := None; p_tabId := None; p_key := None;
     p_value := None; p_index := None |}.

(** [{format: "jpeg"}] *)
Definition jpegParams : Params :=
  {| p_url := None; p_selector := None; p_x := None; p_y := None;
     p_button := None; p_clickCount := None; p_text := None;
     p_clearFirst := None; p_delay := None; p_direction := None;
     p_distance := None; p_format := Some "jpeg"; p_quality := None;
     p_fullPage := None; p_script := None; p_tabId := None; p_key := None;
     p_value := None; p_index := None |}.

(** A runtime that renders anything it is asked to as "?". *)
Definition plainRuntime : Dispatcher.Runtime :=
  {| Dispatcher.stringify := λ _, "?";
     Dispatcher.fractionToString := λ _, "?" |}.

End Samples.

(** ** Further notions about the bridge *)
Module BridgeMore.
Import Bridge.

(** Does this event act on the entry with id [id] and timer [h]: a
    response carrying the id, or the timer firing? *)
Definition settles (id : string) (h : N) (e : Event) : Prop :=
  match e with
  | EvMessage _ (Message type id' _) => type = "RESPONSE" ∧ id' = id
  | EvTimeout h' => h' = h
  | _ => False
  end.

(** The id of the [k]-th request written, counting from 0. *)
Definition nthId (k : nat) : string := requestId (N.of_nat k).

End BridgeMore.

(** ** The tool catalogue (mcp-server/src/index.ts) *)
Module Catalogue.

(** One entry of an input schema's [properties]. *)
Record Property := {
  prop_key : string;
  prop_type : string;
  prop_enum : list string;
  prop_description : string
}.

(** A tool definition; every [inputSchema] has type "object". *)
Record Tool := {
  tool_name : string;
  tool_description : string;
  tool_properties : list Property;
  tool_required : list string
}.

(** The double-quote character, for the one description that has it. *)
Definition dquote : string := String "034"%char EmptyString.

Definition TOOLS : list Tool :=
  [ {| tool_name := "browser_navigate";
       tool_description :=
         "Navigate to a URL in the browser";
       tool_properties :=
         [{| prop_key := "url"; prop_type := "string";
           prop_enum := [];
           prop_description :=
             "The URL to navigate to" |}];
       tool_required := ["url"] |};
    {| tool_name := "browser_click";
       tool_description :=
         "Click on an element or at specific coordinates";
       tool_properties :=
         [{| prop_key := "selector"; prop_type := "string";
           prop_enum := [];
           prop_description :=
             "CSS selector of the element to click" |};
          {| prop_key := "x"; prop_type := "number";
           prop_enum := [];
           prop_description :=
             "X coordinate to click at" |};
          {| prop_key := "y"; prop_type := "number";
           prop_enum := [];
           prop_description :=
             "Y coordinate to click at" |}];
       tool_required := [] |};
    {| tool_name := "browser_type";
       tool_description :=
         "Type text into an element or the currently focused element";
       tool_properties :=
         [{| prop_key := "text"; prop_type := "string";
           prop_enum := [];
           prop_description :=
             "The text to type" |};
          {| prop_key := "selector"; prop_type := "string";
           prop_enum := [];
           prop_description :=
             "CSS selector of the element to type into (optional)" |};
          {| prop_key := "clearFirst"; prop_type := "boolean";
           prop_enum := [];
           prop_description :=
             "Clear the element before typing" |}];
       tool_required := ["text"] |};
    {| tool_name := "browser_scroll";
       tool_description :=
         "Scroll the page in a direction or to an element";
       tool_properties :=
         [{| prop_key := "direction"; prop_type := "string";
           prop_enum := ["up"; "down"; "left"; "right"];
           prop_description :=
             "Direction to scroll" |};
          {| prop_key := "distance"; prop_type := "number";
           prop_enum := [];
           prop_description :=
             "Distance to scroll in pixels" |};
          {| prop_key := "selector"; prop_type := "string";
           prop_enum := [];
           prop_description :=
             "CSS selector of element to scroll to" |}];
       tool_required := [] |};
    {| tool_name := "browser_screenshot";
       tool_description :=
         "Take a screenshot of the current page";
       tool_properties :=
         [{| prop_key := "fullPage"; prop_type := "boolean";
           prop_enum := [];
           prop_description :=
             "Capture the full page or just the viewport" |};
          {| prop_key := "format"; prop_type := "string";
           prop_enum := ["png"; "jpeg"; "webp"];
           prop_description :=
             "Image format" |}];
       tool_required := [] |};
    {| tool_name := "browser_extract";
       tool_description :=
         "Extract text and HTML content from an element";
       tool_properties :=
         [{| prop_key := "selector"; prop_type := "string";
           prop_enum := [];
           prop_description :=
             "CSS selector of the element to extract" |}];
       tool_required := ["selector"] |};
    {| tool_name := "browser_evaluate";
       tool_description :=
         "Execute JavaScript code in the page context";
       tool_properties :=
         [{| prop_key := "script"; prop_type := "string";
           prop_enum := [];
           prop_description :=
             "JavaScript code to execute" |}];
       tool_required := ["script"] |};
    {| tool_name := "browser_get_page_info";
       tool_description :=
         "Get information about the current page (URL, title)";
       tool_properties :=
         [];
       tool_required := [] |};
    {| tool_name := "browser_get_tabs";
       tool_description :=
         "Get list of all open browser tabs";
       tool_properties :=
         [];
       tool_required := [] |};
    {| tool_name := "browser_switch_tab";
       tool_description :=
         "Switch to a specific browser tab";
       tool_properties :=
         [{| prop_key := "tabId"; prop_type := "number";
           prop_enum := [];
           prop_description :=
             "The ID of the tab to switch to" |}];
       tool_required := ["tabId"] |};
    {| tool_name := "browser_press_key";
       tool_description :=
         "Press a keyboard key";
       tool_properties :=
         [{| prop_key := "key"; prop_type := "string";
           prop_enum := [];
           prop_description :=
             ("Key to press (e.g., " +:+ dquote +:+ "Enter" +:+ dquote +:+ ", " +:+ dquote +:+ "Escape" +:+ dquote +:+ ", " +:+ dquote +:+ "Tab" +:+ dquote +:+ ")") |}];
       tool_required := ["key"] |};
    {| tool_name := "browser_select_option";
       tool_description :=
         "Select an option from a dropdown/select element";
       tool_properties :=
         [{| prop_key := "selector"; prop_type := "string";
           prop_enum := [];
           prop_description :=
             "CSS selector of the select element" |};
          {| prop_key := "value"; prop_type := "string";
           prop_enum := [];
           prop_description :=
             "Value of the option to select" |};
          {| prop_key := "text"; prop_type := "string";
           prop_enum := [];
           prop_description :=
             "Text content of the option to select" |};
          {| prop_key := "index"; prop_type := "number";
           prop_enum := [];
           prop_description :=
             "Index of the option to select" |}];
       tool_required := ["selector"] |};
    {| tool_name := "browser_go_back";
       tool_description :=
         "Navigate back in browser history";
       tool_properties :=
         [];
       tool_required := [] |};
    {| tool_name := "browser_go_forward";
       tool_description :=
         "Navigate forward in browser history";
       tool_properties :=
         [];
       tool_required := [] |};
    {| tool_name := "browser_reload";
       tool_description :=
         "Reload the current page";
       tool_properties :=
         [];
       tool_required := [] |} ].

(** What the executor takes as supplied, for the keys that some schema
    requires: a non-empty string, a non-zero tab id.  (Other keys are never
    counted as missing.) *)
Definition supplied (key : string) (p : Params) : bool :=
  if decide (key = "url") then bool_decide (is_Some (truthy (p_url p)))
  else if decide (key = "selector")
  then bool_decide (is_Some (truthy (p_selector p)))
  else if decide (key = "text") then bool_decide (is_Some (truthy (p_text p)))
  else if decide (key = "script")
  then bool_decide (is_Some (truthy (p_script p)))
  else if decide (key = "key") then bool_decide (is_Some (truthy (p_key p)))
  else if decide (key = "tabId")
  then match p_tabId p with
       | Some z => negb (z =? 0)%Z
       | None => false
       end
  else true.

End Catalogue.

(** ** Frame conditions on computations *)
Module Frames.
Import Cdp.

(** A function of the world that the three bookkeeping updates leave
    alone. *)
Definition framed {X} (f : World → X) : Prop :=
  (∀ e w, f (noteRaised e w) = f w)
  ∧ (∀ c w, f (noteCall c w) = f w)
  ∧ (∀ win w, f (setWindow win w) = f w).

(** [m] leaves [f] of the world as it found it. *)
Definition keeps {A X} (f : World → X) (m : M A) : Prop :=
  ∀ w, f (m w).2 = f w.

End Frames.

(** ** Further notions about the page controller *)
Module PageMore.
Import Cdp.

(** The entry one installed interceptor records for a page event. *)
Definition entryOf (e : PageEvent) : LogEntry :=
  match e with
  | ConsoleCall m args now =>
      {| log_type := methodName m; log_text := join " " args;
         log_timestamp := now; log_url := None; log_lineNumber := None |}
  | ErrorEvent message filename lineno now =>
      {| log_type := "error"; log_text := message; log_timestamp := now;
         log_url := Some filename; log_lineNumber := Some lineno |}
  | UnhandledRejection reason now =>
      {| log_type := "error";
         log_text := "Unhandled Promise Rejection: " +:+ reason;
         log_timestamp := now; log_url := None; log_lineNumber := None |}
  end.

(** The pieces of text put end to end. *)
Definition glue (pieces : list string) : string :=
  foldr String.append "" pieces.

(** The last [n] of a list. *)
Definition latest {A} (n : nat) (l : list A) : list A :=
  drop (length l - n) l.

Definition isConsoleCall (e : PageEvent) : bool :=
  match e with
  | ConsoleCall _ _ _ => true
  | _ => false
  end.

(** The error the host gives a command, if it refuses it, on the calls made
    before. *)
Definition refused (host : Host) (log : list HostCall) (call : HostCall)
    : option string :=
  match call with
  | HSendCommand _ c => commandError host log _ c
  | _ => None
  end.

(** Making calls one after the other until the host refuses one: the calls
    made, the refused one included, and the error of the refusal. *)
Fixpoint sendUntilRefused (host : Host) (log : list HostCall)
    (calls : list HostCall) : list HostCall * option string :=
  match calls with
  | [] => ([], None)
  | call :: rest =>
    match refused host log call with
    | Some e => ([call], Some e)
    | None =>
      let '(made, r) := sendUntilRefused host (log ++ [call]) rest in
      (call :: made, r)
    end
  end.

(** The [Input.insertText] calls for the given pieces, in order. *)
Definition insertions (tab : N) (pieces : list string) : list HostCall :=
  (λ piece, HSendCommand tab (InputInsertText piece)) <$> pieces.

End PageMore.

(** A host on which no tab can be made the active page. *)
Module MoreSamples.
Import Cdp.

Definition lostHost : Host :=
  {| attachReply := attachReply Samples.quietHost;
     detachReply := detachReply Samples.quietHost;
     commandError := commandError Samples.quietHost;
     navigateReply := navigateReply Samples.quietHost;
     historyReply := historyReply Samples.quietHost;
     screenshotReply := screenshotReply Samples.quietHost;
     pageReacts := pageReacts Samples.quietHost;
     exceptionText := exceptionText Samples.quietHost;
     otherScript := otherScript Samples.quietHost;
     loadEventFires := loadEventFires Samples.quietHost;
     getActivePageReply := λ _, Throw "No active tab found";
     getAllTabsInfoReply := getAllTabsInfoReply Samples.quietHost;
     switchToTabReply := switchToTabReply Samples.quietHost;
     overlayReply := overlayReply Samples.quietHost;
     aiReply := aiReply Samples.quietHost |}.

(** A select whose two options share the value "a". *)
Definition twins : list OptionElement :=
  [ {| opt_value := "a"; opt_text := "First" |};
    {| opt_value := "a"; opt_text := "Second" |} ].

(** A page whose element "#twins" is a select with these options, none
    of them selected. *)
Definition twinsPage : Window :=
  {| querySelector := λ selector,
       if bool_decide (selector = "#twins") then Ok (Some 7%N) else Ok None;
     elements :=
       {[ 7%N := {| tagName := "SELECT"; textContent := "FirstSecond";
                   boundingClientRect :=
                     {| rect_left := 0; rect_top := 0; rect_width := 80;
                        rect_height := 20 |};
                   options := twins; selectedIndex := -1 |} ]};
     dispatched := [];
     agentsCCConsoleLogs := None; agentsCCMaxLogs := 0; interceptors := 0;
     innerWidth := 1280; innerHeight := 720;
     location_href := "https://example.com/twins";
     document_title := "Twins" |}.

(** A host that grants every request and whose page runs every script
    of the executor to its end. *)
Definition obligingHost : Host :=
  {| attachReply := attachReply Samples.quietHost;
     detachReply := detachReply Samples.quietHost;
     commandError := commandError Samples.quietHost;
     navigateReply := navigateReply Samples.quietHost;
     historyReply := historyReply Samples.quietHost;
     screenshotReply := screenshotReply Samples.quietHost;
     pageReacts := pageReacts Samples.quietHost;
     exceptionText := exceptionText Samples.quietHost;
     otherScript := λ T (s : Script T) w,
       match s in Script T return Outcome T * Window with
       | ClearElementScript _ => (Returns tt, w)
       | ScrollPositionScript => (Returns (0%Q, 0%Q), w)
       | ScrollIntoViewScript _ => (Returns tt, w)
       | ScrollToScript _ _ => (Returns tt, w)
       | ExtractScript _ =>
           (Returns (JObj [("text", JStr ""); ("html", JStr "")]), w)
       | UserScript _ => (Returns None, w)
       | _ => (SyntaxError, w)
       end;
     loadEventFires := loadEventFires Samples.quietHost;
     getActivePageReply := getActivePageReply Samples.quietHost;
     getAllTabsInfoReply := getAllTabsInfoReply Samples.quietHost;
     switchToTabReply := switchToTabReply Samples.quietHost;
     overlayReply := overlayReply Samples.quietHost;
     aiReply := aiReply Samples.quietHost |}.

(** [{url, selector: "#search", text, script, tabId, key}] *)
Definition plenty : Params :=
  {| p_url := Some "https://example.com"; p_selector := Some "#search";
     p_x := None; p_y := None; p_button := None; p_clickCount := None;
     p_text := Some "hi"; p_clearFirst := None; p_delay := None;
     p_direction := None; p_distance := None; p_format := None;
     p_quality := None; p_fullPage := None; p_script := Some "1";
     p_tabId := Some 1%Z; p_key := Some "Enter"; p_value := None;
     p_index := None |}.

(** [{selector: "#country", value: "b"}] *)
Definition choice : Params :=
  {| p_url := None; p_selector := Some "#country"; p_x := None; p_y := None;
     p_button := None; p_clickCount := None; p_text := None;
     p_clearFirst := None; p_delay := None; p_direction := None;
     p_distance := None; p_format := None; p_quality := None;
     p_fullPage := None; p_script := None; p_tabId := None; p_key := None;
     p_value := Some "b"; p_index := None |}.

(** Arguments with which a tool can do its work on the sample page. *)
Definition argumentsFor (toolName : string) : Params :=
  if decide (toolName = "browser_select_option") then choice else plenty.

Definition twinsWorld : World :=
  {| tabId := 1; attached := true; listening := true;
     hostLog := [HAttach 1 "1.3"]; window := twinsPage; raised := [];
     overlay := [] |}.

End MoreSamples.

(** The labels of the executor's [switch]. *)
Module Cases.

Definition pageCases : list string :=
  ["navigate"; "click"; "type"; "scroll"; "screenshot"; "extract";
   "evaluate"; "get_page_info"; "get_tabs"; "switch_tab"; "press_key";
   "select_option"; "go_back"; "go_forward"; "reload"].

Definition cases : list string := pageCases ++ Background.aiActions.

End Cases.

(** ** AI configuration and service (extension/src/ai) *)
Module Ai.

(** [AIConfig]; the provider is whatever string was stored. *)
Record AIConfig := {
  provider : string;
  apiKey : string;
  model : option string;
  baseURL : option string
}.

(** [Partial<AIConfig>], each key present with a value or absent. *)
Record Updates := {
  u_provider : option string;
  u_apiKey : option string;
  u_model : option string;
  u_baseURL : option string
}.

(** [DEFAULT_MODELS] *)
Definition DEFAULT_MODELS : list (string * string) :=
  [("openai", "gpt-4o");
   ("anthropic", "claude-sonnet-4-20250514");
   ("google", "gemini-1.5-pro")].

Record ChatMessage := {
  role : string;
  content : string
}.

(** One call of the SDK's [generateText]: the client it was made with
    (provider, key, base URL), the model id and the request. *)
Record ModelCall := {
  call_provider : string;
  call_apiKey : string;
  call_baseURL : option string;
  call_modelId : string;
  call_messages : list ChatMessage;
  call_temperature : option Q;
  call_maxOutputTokens : option Q
}.

Record SdkUsage := {
  inputTokens : option Z;
  outputTokens : option Z;
  totalTokens : option Z
}.

Record SdkResult := {
  sdk_text : string;
  sdk_usage : option SdkUsage;
  sdk_finishReason : option string
}.

Record Usage := {
  promptTokens : Z;
  completionTokens : Z;
  usage_totalTokens : Z
}.

Record AIResponse := {
  response_content : string;
  response_model : string;
  response_usage : option Usage;
  response_finishReason : option string
}.

Record AIRequestOptions := {
  messages : list ChatMessage;
  temperature : option Q;
  maxTokens : option Q
}.

(** The extension's AI state: the value under the key "ai_config" of
    [chrome.storage.local] (whose calls are taken to succeed), the config
    held by the [aiService] singleton, and every SDK call made so far. *)
Record State := {
  stored : option AIConfig;
  service : option AIConfig;
  calls : list ModelCall
}.

Definition setStored (c : option AIConfig) (st : State) : State :=
  {| stored := c; service := service st; calls := calls st |}.

Definition setService (c : option AIConfig) (st : State) : State :=
  {| stored := stored st; service := c; calls := calls st |}.

Definition noteModelCall (c : ModelCall) (st : State) : State :=
  {| stored := stored st; service := service st; calls := calls st ++ [c] |}.

(** *** config.ts *)

Definition getAIConfig (st : State) : option AIConfig := stored st.

Definition saveAIConfig (config : AIConfig) (st : State) : State :=
  setStored (Some config) st.

(** [{ ...current, ...updates }] *)
Definition merge (current : AIConfig) (updates : Updates) : AIConfig :=
  {| provider := default (provider current) (u_provider updates);
     apiKey := default (apiKey current) (u_apiKey updates);
     model := match u_model updates with
              | Some m => Some m
              | None => model current
              end;
     baseURL := match u_baseURL updates with
                | Some b => Some b
                | None => baseURL current
                end |}.

Definition updateAIConfig (updates : Updates) (st : State)
    : option AIConfig * State :=
  match getAIConfig st with
  | None => (None, st)
  | Some current =>
    let updated := merge current updates in
    (Some updated, saveAIConfig updated st)
  end.

Definition clearAIConfig (st : State) : State := setStored None st.

Definition isConfigValid (config : option AIConfig) : bool :=
  match config with
  | None => false
  | Some c =>
    negb (bool_decide (provider c = "")) && negb (bool_decide (apiKey c = ""))
  end.

Definition getSupportedProviders : list string :=
  ["openai"; "anthropic"; "google"].

(** *** service.ts *)

Section WithSdk.

(** The SDK's [generateText], given the calls made before. *)
Variable sdk : list ModelCall → ModelCall → Res SdkResult.

(** The switch of [createProviderClient]. *)
Definition createProviderClient (config : AIConfig) : Res unit :=
  if bool_decide (provider config ∈ getSupportedProviders) then Ok tt
  else Throw ("Unsupported provider: " +:+ provider config).

(** [config.model || DEFAULT_MODELS[config.provider]], for a provider of
    the table. *)
Definition modelId (config : AIConfig) : string :=
  match truthy (model config) with
  | Some m => m
  | None => opt_str_or (Background.assoc (provider config) DEFAULT_MODELS) ""
  end.

Definition initialize (st : State) : bool * State :=
  let st' := setService (getAIConfig st) st in
  (isConfigValid (service st'), st').

Definition setConfig (config : AIConfig) (st : State) : State :=
  setService (Some config) st.

Definition isReady (st : State) : bool := isConfigValid (service st).

Definition convertUsage (u : SdkUsage) : Usage :=
  {| promptTokens := default 0%Z (inputTokens u);
     completionTokens := default 0%Z (outputTokens u);
     usage_totalTokens := default 0%Z (totalTokens u) |}.

Definition generateText (options : AIRequestOptions) (st : State)
    : Res AIResponse * State :=
  match service st with
  | Some config =>
    if isConfigValid (Some config) then
      match createProviderClient config with
      | Throw e => (Throw e, st)
      | Ok _ =>
        let call :=
          {| call_provider := provider config;
             call_apiKey := apiKey config;
             call_baseURL := baseURL config;
             call_modelId := modelId config;
             call_messages := messages options;
             call_temperature := temperature options;
             call_maxOutputTokens := maxTokens options |} in
        match sdk (calls st) call with
        | Throw e => (Throw e, noteModelCall call st)
        | Ok result =>
          (Ok {| response_content := sdk_text result;
                 response_model := modelId config;
                 response_usage := convertUsage <$> sdk_usage result;
                 response_finishReason := sdk_finishReason result |},
           noteModelCall call st)
        end
      end
    else (Throw "AI service not configured. Please set API key first.", st)
  | None => (Throw "AI service not configured. Please set API key first.", st)
  end.

Definition chat (prompt : string) (systemPrompt : option string) (st : State)
    : Res string * State :=
  let system :=
    match truthy systemPrompt with
    | Some s => [{| role := "system"; content := s |}]
    | None => []
    end in
  let messages := system ++ [{| role := "user"; content := prompt |}] in
  match generateText {| messages := messages; temperature := None;
                        maxTokens := None |} st with
  | (Ok response, st') => (Ok (response_content response), st')
  | (Throw e, st') => (Throw e, st')
  end.

(** *** The executor's AI cases (background/index.ts) *)

(** The parameters the AI cases read. *)
Record AiParams := {
  a_provider : option string;
  a_apiKey : option string;
  a_model : option string;
  a_baseURL : option string;
  a_prompt : option string;
  a_systemPrompt : option string;
  a_messages : option (list ChatMessage);
  a_temperature : option Q;
  a_maxTokens : option Q
}.

Definition optField (key : string) (v : option JSON)
    : list (string * JSON) :=
  match v with
  | Some j => [(key, j)]
  | None => []
  end.

(** [if (!aiService.isReady()) await aiService.initialize();] *)
Definition ensureInitialized (st : State) : State :=
  if isReady st then st else (initialize st).2.

Definition usageJSON (u : Usage) : JSON :=
  JObj [("promptTokens", Background.JInt (promptTokens u));
        ("completionTokens", Background.JInt (completionTokens u));
        ("totalTokens", Background.JInt (usage_totalTokens u))].

(** The cases "ai_config" to "ai_generate" of [executeAction], entered
    once the active page has been obtained. *)
Definition aiCase (action : string) (params : AiParams) (st : State)
    : Res JSON * State :=
  if decide (action = "ai_config") then
    match truthy (a_provider params), truthy (a_apiKey params) with
    | Some p, Some k =>
      let fullConfig :=
        {| provider := p; apiKey := k; model := a_model params;
           baseURL := a_baseURL params |} in
      (Ok (JObj [("configured", JBool true); ("provider", JStr p)]),
       setConfig fullConfig (saveAIConfig fullConfig st))
    | _, _ => (Throw "provider and apiKey are required", st)
    end
  else if decide (action = "ai_get_config") then
    match getAIConfig st with
    | None => (Ok (JObj [("configured", JBool false)]), st)
    | Some config =>
      (Ok (JObj ([("configured", JBool true);
                  ("provider", JStr (provider config))]
                 ++ optField "model" (JStr <$> model config)
                 ++ [("hasApiKey",
                      JBool (negb (bool_decide (apiKey config = ""))))])),
       st)
    end
  else if decide (action = "ai_clear_config") then
    (Ok (JObj [("cleared", JBool true)]), clearAIConfig st)
  else if decide (action = "ai_chat") then
    match truthy (a_prompt params) with
    | None => (Throw "prompt is required", st)
    | Some prompt =>
      let st1 := ensureInitialized st in
      if isReady st1 then
        match chat prompt (a_systemPrompt params) st1 with
        | (Ok response, st2) => (Ok (JObj [("response", JStr response)]), st2)
        | (Throw e, st2) => (Throw e, st2)
        end
      else (Throw "AI service not configured. Use ai_config first.", st1)
    end
  else if decide (action = "ai_generate") then
    match a_messages params with
    | None => (Throw "messages array is required", st)
    | Some messages =>
      let st1 := ensureInitialized st in
      if isReady st1 then
        match generateText {| messages := messages;
                              temperature := a_temperature params;
                              maxTokens := a_maxTokens params |} st1 with
        | (Ok result, st2) =>
          (Ok (JObj ([("content", JStr (response_content result));
                      ("model", JStr (response_model result))]
                     ++ optField "usage" (usageJSON <$> response_usage result)
                     ++ optField "finishReason"
                          (JStr <$> response_finishReason result))),
           st2)
        | (Throw e, st2) => (Throw e, st2)
        end
      else (Throw "AI service not configured. Use ai_config first.", st1)
    end
  else (Throw ("Unknown action: " +:+ action), st).

End WithSdk.

(** Nothing stored, nothing configured, nothing called. *)
Definition fresh : State :=
  {| stored := None; service := None; calls := [] |}.

Definition noAiParams : AiParams :=
  {| a_provider := None; a_apiKey := None; a_model := None;
     a_baseURL := None; a_prompt := None; a_systemPrompt := None;
     a_messages := None; a_temperature := None; a_maxTokens := None |}.

(** An SDK that answers every call with "hello". *)
Definition echoSdk (_ : list ModelCall) (_ : ModelCall) : Res SdkResult :=
  Ok {| sdk_text := "hello"; sdk_usage := None; sdk_finishReason := None |}.

Definition configParams : AiParams :=
  {| a_provider := Some "openai"; a_apiKey := Some "sk-test";
     a_model := None; a_baseURL := None; a_prompt := Some "hi";
     a_systemPrompt := None; a_messages := None; a_temperature := None;
     a_maxTokens := None |}.

End Ai.

(** ** The control overlay of the content script
    (extension/src/content/index.ts) *)
Module Overlay.

(** The element with id "agents-cc-overlay": whether it carries the class
    "agents-cc-hidden", the text of its status line and whether that line
    carries the class "agents-cc-shimmer". *)
Record Node := {
  hidden : bool;
  statusText : string;
  shimmer : bool
}.

(** One instance of the content script in its document.  [element] is
    [overlayState.element], the overlay this instance created and
    appended; [foreign] is an overlay that was in the document before the
    instance ran.  The document is taken to have a head and a body and to
    change only through this code. *)
Record State := {
  enabled : bool;
  status : string;
  element : option Node;
  foreign : option Node;
  (** a style element with id "agents-cc-overlay-styles" is in the head *)
  styles : bool;
  (** how often [keyBlocker] was registered on the document *)
  keyBlockers : nat
}.

(** [createOverlayElement()]: the markup as written. *)
Definition createOverlayElement : Node :=
  {| hidden := true; statusText := "Agent is controlling this page";
     shimmer := false |}.

(** [document.getElementById], which finds the first element of the
    document with the id. *)
Definition getOverlay (st : State) : option Node :=
  match foreign st with
  | Some n => Some n
  | None => element st
  end.

Definition initOverlay (st : State) : State :=
  match getOverlay st with
  | Some _ => st
  | None =>
    {| enabled := enabled st; status := status st;
       element := Some createOverlayElement; foreign := foreign st;
       styles := true; keyBlockers := S (keyBlockers st) |}
  end.

(** [ContentResponse<boolean>] of the overlay functions, which catch
    nothing in a document with head and body. *)
Inductive Response :=
  | Done
  | StateIs (enabled : bool) (status : string).

Definition setText (text : string) (shimmer : bool) (n : Node) : Node :=
  {| hidden := hidden n; statusText := text; shimmer := shimmer |}.

Definition setHidden (h : bool) (n : Node) : Node :=
  {| hidden := h; statusText := statusText n; shimmer := shimmer n |}.

(** [updateOverlayStatus(status, shimmer = false)] *)
Definition updateOverlayStatus (text : string) (shimmer : option bool)
    (st : State) : State :=
  let st := initOverlay st in
  let sh := default false shimmer in
  match foreign st, element st with
  | Some n, _ =>
    {| enabled := enabled st; status := text; element := element st;
       foreign := Some (setText text sh n); styles := styles st;
       keyBlockers := keyBlockers st |}
  | None, Some n =>
    {| enabled := enabled st; status := text;
       element := Some (setText text sh n); foreign := None;
       styles := styles st; keyBlockers := keyBlockers st |}
  | None, None => st
  end.

(** [showOverlay(status?)] *)
Definition showOverlay (text : option string) (st : State) : State :=
  let st := initOverlay st in
  match element st with
  | Some n =>
    let st1 :=
      {| enabled := true; status := status st;
         element := Some (setHidden false n); foreign := foreign st;
         styles := styles st; keyBlockers := keyBlockers st |} in
    match truthy text with
    | Some t => updateOverlayStatus t None st1
    | None => st1
    end
  | None => st
  end.

(** [hideOverlay()] *)
Definition hideOverlay (st : State) : State :=
  match element st with
  | Some n =>
    {| enabled := false; status := status st;
       element := Some (setHidden true n); foreign := foreign st;
       styles := styles st; keyBlockers := keyBlockers st |}
  | None => st
  end.

(** The overlay messages of [ContentMessage]. *)
Inductive Message :=
  | SHOW_OVERLAY (text : option string)
  | HIDE_OVERLAY
  | UPDATE_OVERLAY_STATUS (text : string) (shimmer : option bool)
  | GET_OVERLAY_STATE.

(** The message listener on the four overlay messages: the new state and
    the response sent. *)
Definition onMessage (st : State) (m : Message) : State * Response :=
  match m with
  | SHOW_OVERLAY text => (showOverlay text st, Done)
  | HIDE_OVERLAY => (hideOverlay st, Done)
  | UPDATE_OVERLAY_STATUS text sh => (updateOverlayStatus text sh st, Done)
  | GET_OVERLAY_STATE => (st, StateIs (enabled st) (status st))
  end.

Definition handle (st : State) (m : Message) : State := (onMessage st m).1.

Definition run (st : State) (ms : list Message) : State := foldl handle st ms.

(** A keyboard event on the document. *)
Record KeyEvent := {
  key : string;
  ctrlKey : bool;
  shiftKey : bool
}.

(** Does a registered [keyBlocker] call [preventDefault] on the event? *)
Definition keyBlocker (st : State) (e : KeyEvent) : bool :=
  if enabled st then
    if bool_decide (key e = "F12")
       || (ctrlKey e && shiftKey e && bool_decide (key e = "I"))
    then false else true
  else false.

(** Is the event kept from the page?  Only a registered blocker can. *)
Definition blocked (st : State) (e : KeyEvent) : bool :=
  bool_decide (0 < keyBlockers st)%nat && keyBlocker st e.

(** Is this instance's overlay there and shown? *)
Definition visible (st : State) : bool :=
  match element st with
  | Some n => negb (hidden n)
  | None => false
  end.

(** [F12] and [Ctrl+Shift+I], which open the developer tools. *)
Definition devtools (e : KeyEvent) : bool :=
  bool_decide (key e = "F12")
  || (ctrlKey e && shiftKey e && bool_decide (key e = "I")).

(** What holds of the script in a document that had no overlay, whatever
    messages it has handled. *)
Record Shown (st : State) : Prop := {
  shown_foreign : foreign st = None;
  shown_enabled : enabled st = visible st;
  shown_blockers :
    keyBlockers st = match element st with Some _ => 1 | None => 0 end%nat;
  shown_styles : styles st = bool_decide (is_Some (element st));
  shown_unset : element st = None → status st = "";
  shown_status :
    ∀ n, element st = Some n →
      statusText n = status st
      ∨ (status st = "" ∧ statusText n = "Agent is controlling this page")
}.

(** What holds of the script in a document that had a hidden overlay
    already. *)
Record Bystander (st : State) : Prop := {
  by_element : element st = None;
  by_enabled : enabled st = false;
  by_blockers : keyBlockers st = 0%nat;
  by_foreign : ∃ n, foreign st = Some n ∧ hidden n = true
}.

(** The script as loaded into a document without an overlay. *)
Definition loaded : State :=
  {| enabled := false; status := ""; element := None; foreign := None;
     styles := false; keyBlockers := 0 |}.

(** The script as loaded into a document that has a hidden overlay
    already. *)
Definition reloaded : State :=
  {| enabled := false; status := ""; element := None;
     foreign := Some createOverlayElement; styles := true;
     keyBlockers := 0 |}.

End Overlay.

(** ** The life of a Page (extension/src/cdp/transport.ts, class Page) *)
Module PageLife.
Import Cdp.

(** A [Page]: its transport, with all that goes with it, and its
    [initialized] flag. *)
Record Page := {
  transport : World;
  initialized : bool
}.

Definition reason {A} (r : Res A) : list string :=
  match r with
  | Ok _ => []
  | Throw e => [e]
  end.

Section WithHost.

Variable host : Host.

(** Of the rejections among the promises handed to [Promise.all], the one
    that settles first. *)
Variable firstRejected : list string → string.

(** [await Promise.all([send('Page.enable'), send('DOM.enable'),
    send('Runtime.enable')])]: the three calls are made one after the
    other before any reply is awaited. *)
Definition enableAll : M unit := λ w,
  let '(r1, w1) := send host PageEnable w in
  let '(r2, w2) := send host DOMEnable w1 in
  let '(r3, w3) := send host RuntimeEnable w2 in
  match reason r1 ++ reason r2 ++ reason r3 with
  | [] => (Ok tt, w3)
  | rejections => (Throw (firstRejected rejections), w3)
  end.

Definition initialize (p : Page) : Res unit * Page :=
  if initialized p then (Ok tt, p)
  else
    match (attach host ;;; enableAll) (transport p) with
    | (Ok _, w) => (Ok tt, {| transport := w; initialized := true |})
    | (Throw e, w) => (Throw e, {| transport := w; initialized := false |})
    end.

Definition close (p : Page) : Res unit * Page :=
  if negb (initialized p) then (Ok tt, p)
  else
    match detach host (transport p) with
    | (Ok _, w) => (Ok tt, {| transport := w; initialized := false |})
    | (Throw e, w) =>
      (Throw e, {| transport := w; initialized := initialized p |})
    end.

End WithHost.

(** The host detaches the debugger from a tab. *)
Definition detached (source : N) (p : Page) : Page :=
  {| transport := onDetach source (transport p);
     initialized := initialized p |}.

(** The calls of a successful [initialize] on tab [tab]. *)
Definition startup (tab : N) : list HostCall :=
  [HAttach tab "1.3"; HSendCommand tab PageEnable;
   HSendCommand tab DOMEnable; HSendCommand tab RuntimeEnable].

(** A host that grants everything but "Runtime.enable". *)
Definition strictHost : Host :=
  {| attachReply := attachReply Samples.quietHost;
     detachReply := detachReply Samples.quietHost;
     commandError := λ _ T c,
       if decide (method c = "Runtime.enable") then Some "Not allowed"
       else None;
     navigateReply := navigateReply Samples.quietHost;
     historyReply := historyReply Samples.quietHost;
     screenshotReply := screenshotReply Samples.quietHost;
     pageReacts := pageReacts Samples.quietHost;
     exceptionText := exceptionText Samples.quietHost;
     otherScript := otherScript Samples.quietHost;
     loadEventFires := loadEventFires Samples.quietHost;
     getActivePageReply := getActivePageReply Samples.quietHost;
     getAllTabsInfoReply := getAllTabsInfoReply Samples.quietHost;
     switchToTabReply := switchToTabReply Samples.quietHost;
     overlayReply := overlayReply Samples.quietHost;
     aiReply := aiReply Samples.quietHost |}.

(** A page that was never initialized. *)
Definition newPage : Page :=
  {| transport := Samples.freshWorld; initialized := false |}.

(** A page after a successful [initialize]. *)
Definition livePage : Page :=
  {| transport := Samples.attachedWorld; initialized := true |}.

End PageLife.

(** ** Waiting for a navigation (transport.ts: on, off, handleEvent,
    waitForNavigation) *)
Module Waits.

(** A transport with the waits of its page.  Every call of
    [waitForNavigation] makes a promise, a handler and a timer of its own,
    all three named by the call's number.  [listening] says whether
    [handleEvent] is registered with the host. *)
Record State := {
  tabId : N;
  listening : bool;
  (** [eventListeners], in insertion order *)
  eventListeners : list nat;
  (** the armed timers with their delays *)
  timers : list (nat * N);
  (** ghost: how each promise was settled, in order *)
  settled : list (nat * Res unit);
  nextWait : nat
}.

Definition init (tab : N) (listening : bool) : State :=
  {| tabId := tab; listening := listening; eventListeners := [];
     timers := []; settled := []; nextWait := 0 |}.

(** [resolve()] or [reject(...)]: a settled promise stays as it is. *)
Definition settle (id : nat) (r : Res unit) (st : State) : State :=
  if bool_decide (id ∈ (settled st).*1) then st
  else
    {| tabId := tabId st; listening := listening st;
       eventListeners := eventListeners st; timers := timers st;
       settled := settled st ++ [(id, r)]; nextWait := nextWait st |}.

(** [this.transport.off(handler)] *)
Definition off (id : nat) (st : State) : State :=
  {| tabId := tabId st; listening := listening st;
     eventListeners := filter (λ h, h ≠ id) (eventListeners st);
     timers := timers st; settled := settled st; nextWait := nextWait st |}.

(** [this.transport.on(handler)], for a handler that is not yet a
    member. *)
Definition on (id : nat) (st : State) : State :=
  {| tabId := tabId st; listening := listening st;
     eventListeners := eventListeners st ++ [id];
     timers := timers st; settled := settled st; nextWait := nextWait st |}.

Definition clearTimeout (id : nat) (st : State) : State :=
  {| tabId := tabId st; listening := listening st;
     eventListeners := eventListeners st;
     timers := filter (λ t, t.1 ≠ id) (timers st);
     settled := settled st; nextWait := nextWait st |}.

Definition setTimeout (id : nat) (delay : N) (st : State) : State :=
  {| tabId := tabId st; listening := listening st;
     eventListeners := eventListeners st;
     timers := timers st ++ [(id, delay)];
     settled := settled st; nextWait := nextWait st |}.

(** [waitForNavigation(timeout = 30000)]: the number of the promise it
    returns, and the state with the timer armed and the handler added. *)
Definition waitForNavigation (timeout : option N) (st : State)
    : nat * State :=
  let id := nextWait st in
  let st1 := on id (setTimeout id (default 30000%N timeout) st) in
  (id,
   {| tabId := tabId st1; listening := listening st1;
      eventListeners := eventListeners st1; timers := timers st1;
      settled := settled st1; nextWait := S id |}).

(** The handler of wait [id]. *)
Definition handler (id : nat) (method : string) (st : State) : State :=
  if decide (method = "Page.loadEventFired")
  then settle id (Ok tt) (off id (clearTimeout id st))
  else st.

(** [handleEvent(source, method, params)]: every member runs once. *)
Definition handleEvent (source : N) (method : string) (st : State) : State :=
  if decide (source = tabId st)
  then foldl (λ s id, handler id method s) st (eventListeners st)
  else st.

(** The timer of wait [id] runs out, if it is still armed. *)
Definition onTimer (id : nat) (st : State) : State :=
  if bool_decide (id ∈ (timers st).*1)
  then settle id (Throw "Navigation timeout") (off id (clearTimeout id st))
  else st.

Inductive Event :=
  | EvWait (timeout : option N)
  | EvHost (source : N) (method : string)
  | EvTimer (id : nat).

Definition step (st : State) (e : Event) : State :=
  match e with
  | EvWait timeout => (waitForNavigation timeout st).2
  | EvHost source method =>
    if listening st then handleEvent source method st else st
  | EvTimer id => onTimer id st
  end.

Definition run (st : State) (evs : list Event) : State := foldl step st evs.

(** How promise [id] stands. *)
Definition promiseState (id : nat) (st : State) : option (Res unit) :=
  snd <$> head (filter (λ s, s.1 = id) (settled st)).

(** Does the event end wait [id] of tab [tab]? *)
Definition ends (tab : N) (id : nat) (e : Event) : Prop :=
  e = EvHost tab "Page.loadEventFired" ∨ e = EvTimer id.

(** What holds after any events. *)
Record Inv (st : State) : Prop := {
  inv_timers : (timers st).*1 = eventListeners st;
  inv_nodup : NoDup (eventListeners st);
  inv_settled : NoDup (settled st).*1;
  inv_pending :
    ∀ id, id ∈ eventListeners st →
      (id < nextWait st)%nat ∧ (id ∉ (settled st).*1);
  inv_issued :
    ∀ id, (id < nextWait st)%nat →
      id ∈ eventListeners st ∨ id ∈ (settled st).*1;
  inv_bound : ∀ id, id ∈ (settled st).*1 → (id < nextWait st)%nat
}.

End Waits.

(** ** The executor's overlay messages as the content script gets them *)
Module OverlayLink.

(** [{ type: 'SHOW_OVERLAY', payload: { status } }] and
    [{ type: 'HIDE_OVERLAY' }] *)
Definition toMessage (m : option string) : Overlay.Message :=
  match m with
  | Some status => Overlay.SHOW_OVERLAY (Some status)
  | None => Overlay.HIDE_OVERLAY
  end.

End OverlayLink.

(** ** Inputs of the worked instances *)
Module Instances.

(** The first entry of [TOOLS]. *)
Definition navigateTool : Catalogue.Tool :=
  {| Catalogue.tool_name := "browser_navigate";
     Catalogue.tool_description := "Navigate to a URL in the browser";
     Catalogue.tool_properties :=
       [{| Catalogue.prop_key := "url"; Catalogue.prop_type := "string";
           Catalogue.prop_enum := [];
           Catalogue.prop_description := "The URL to navigate to" |}];
     Catalogue.tool_required := ["url"] |}.

(** The first rejection in the order of the calls. *)
Definition firstOf (rejections : list string) : string :=
  default "" (head rejections).

(** A console call before the first read. *)
Definition early : list Cdp.PageEvent :=
  [Cdp.ConsoleCall Cdp.c_log ["early"] 1].

(** A warning and an uncaught error. *)
Definition noise : list Cdp.PageEvent :=
  [Cdp.ConsoleCall Cdp.c_warn ["a"; "b"] 2;
   Cdp.ErrorEvent "boom" "app.js" 3 4].

(** Two console calls. *)
Definition chatter : list Cdp.PageEvent :=
  [Cdp.ConsoleCall Cdp.c_log ["x"] 0; Cdp.ConsoleCall Cdp.c_warn ["y"] 1].

(** A load event that comes too early. *)
Definition tooEarly : list Waits.Event :=
  [Waits.EvHost 1 "Page.loadEventFired"].

(** Events that do not concern wait 0 of tab 1. *)
Definition unrelated : list Waits.Event :=
  [Waits.EvHost 2 "Page.loadEventFired";
   Waits.EvHost 1 "Page.frameNavigated";
   Waits.EvWait None;
   Waits.EvTimer 1].

(** A stored config with an empty key. *)
Definition keyless : Ai.AIConfig :=
  {| Ai.provider := "openai"; Ai.apiKey := ""; Ai.model := None;
     Ai.baseURL := None |}.

End Instances.

(** ** What becomes of a call *)
Module BridgeFate.
Import Bridge.

(** Where a call can stand: nothing has acted on it; its caller was
    settled; or a response without a payload took its entry and its timer
    and settled nobody. *)
Inductive Fate :=
  | Pending
  | Settled (s : Settlement)
  | Stranded.

(** The fate of the call with id [id], timer [h] and action [action] after
    the events [evs], read off the events alone: the first response with
    the id or the timer, whichever comes first, decides, and nothing after
    it counts.  The theorems compare it with what the handlers do. *)
Fixpoint fate (id : string) (h : N) (action : string) (evs : list Event)
    : Fate :=
  match evs with
  | [] => Pending
  | EvMessage _ (Message type id' payload) :: rest =>
    if bool_decide (type = "RESPONSE" ∧ id' = id) then
      match payload with
      | Some pl =>
        Settled (if success pl then Resolved (data pl)
                 else Rejected (opt_str_or (error pl) "Unknown error"))
      | None => Stranded
      end
    else fate id h action rest
  | EvTimeout h' :: rest =>
    if bool_decide (h' = h) then Settled (Rejected (timeoutMessage action))
    else fate id h action rest
  | _ :: rest => fate id h action rest
  end.

(** A Response envelope as the spec has it carries its payload. *)
Definition complete (e : Event) : Prop :=
  match e with
  | EvMessage _ (Message type _ None) => type ≠ "RESPONSE"
  | _ => True
  end.

(** The call is in flight: its entry is in the map and its timer armed. *)
Definition live (p h : N) (id action : string) (st : State) : Prop :=
  pendingRequests st !! id = Some {| caller := p; timeout := h |}
  ∧ timers st !! h =
      Some {| t_id := id; t_action := action; t_caller := p;
              t_delay := 30000 |}.

(** The call is over: no entry, no timer, and an id and a handle that
    will not be issued again. *)
Definition over (h : N) (id : string) (st : State) : Prop :=
  pendingRequests st !! id = None
  ∧ timers st !! h = None
  ∧ (h < nextTimer st)%N
  ∧ ∃ n, (n < requestIdCounter st)%N ∧ id = requestId n.

(** Nothing can settle promise [p] any more. *)
Definition orphan (p : N) (st : State) : Prop :=
  (p < nextPromise st)%N
  ∧ (p ∉ (settled st).*1)
  ∧ ∀ id e, pendingRequests st !! id = Some e → caller e ≠ p.

(** A failure reply with an error text. *)
Definition failed (message : string) : Payload :=
  {| success := false; data := None; error := Some message |}.

End BridgeFate.

(** * Properties *)

(** ** The RPC bridge *)
Section BridgeFacts.
Import Bridge.

Lemma requestId_inj n m : requestId n = requestId m → n = m.
Proof.
  unfold requestId. intros H.
  by apply N.succ_inj, (inj pretty), (inj (String.append "req_")).
Qed.

Lemma elem_of_snoc {A} (l : list A) (x y : A) :
  x ∈ l ++ [y] ↔ x ∈ l ∨ x = y.
Proof. by rewrite elem_of_app, list_elem_of_singleton. Qed.

Lemma NoDup_snoc {A} (l : list A) (x : A) :
  NoDup l → x ∉ l → NoDup (l ++ [x]).
Proof.
  intros Hl Hx. apply NoDup_app. split; [done|].
  split; [|apply NoDup_singleton].
  intros y Hy ->%list_elem_of_singleton. done.
Qed.

Lemma Inv_init : Inv init.
Proof.
  split; simpl; try apply NoDup_nil_2; try done.
  all: try (intros ? ?%elem_of_nil; done).
  - intros id. split; [by intros ?%elem_of_nil|]. intros (n & Hn & _). lia.
  - intros n Hn. lia.
Qed.

Lemma Inv_fresh st n :
  Inv st → (requestIdCounter st ≤ n)%N →
  pendingRequests st !! requestId n = None.
Proof.
  intros HI Hn. destruct (pendingRequests st !! requestId n) eqn:E; [|done].
  destruct (inv_key _ HI _ _ E) as (m & Hm & Heq).
  apply requestId_inj in Heq. lia.
Qed.

Lemma Inv_setClient c st : Inv st → Inv (setClient c st).
Proof. intros []. by split. Qed.

Lemma Inv_setReadyState ws rs st : Inv st → Inv (setReadyState ws rs st).
Proof. intros []. by split. Qed.

Lemma Inv_onConnection st : Inv st → Inv (onConnection st).
Proof. intros []. by split. Qed.

Lemma Inv_newPromise st : Inv st → Inv (newPromise st).
Proof.
  intros []. split; simpl; try done.
  - intros id e H. specialize (inv_caller_lt0 _ _ H). lia.
  - intros p H. specialize (inv_settled_lt0 _ H). lia.
Qed.

Lemma Inv_settle p s st :
  Inv st → p ∉ (settled st).*1 → (p < nextPromise st)%N →
  (∀ id e, pendingRequests st !! id = Some e → caller e ≠ p) →
  Inv (settle p s st).
Proof.
  intros [] Hp Hlt Hfree. split; simpl; try done.
  - intros id e H. rewrite fmap_app. simpl. rewrite elem_of_snoc.
    intros [?|?]; [by eapply inv_caller_unsettled0|by eapply Hfree].
  - intros q. rewrite fmap_app. simpl. rewrite elem_of_snoc.
    intros [? | ->]; [by apply inv_settled_lt0|done].
  - rewrite fmap_app. simpl. by apply NoDup_snoc.
Qed.

(** Deleting a live entry together with its timer. *)
Lemma Inv_remove id e by_ st :
  Inv st → pendingRequests st !! id = Some e →
  Inv (deletePending id by_ (clearTimeout (timeout e) st)).
Proof.
  intros HI He. pose proof HI as [].
  destruct (inv_key0 _ _ He) as (n0 & Hn0 & ->).
  destruct (inv_timer_of0 _ _ He) as (a0 & Ht0).
  split; simpl; rewrite ?He; try done.
  - intros id' e' [_ H]%lookup_delete_Some. eauto.
  - intros id' e' [Hne H]%lookup_delete_Some.
    destruct (inv_timer_of0 _ _ H) as (a & Ht). exists a.
    rewrite lookup_delete_ne; [done|]. intros Heq. rewrite Heq in Ht0.
    by simplify_eq.
  - intros h t [Hne H]%lookup_delete_Some.
    pose proof (inv_entry_of0 _ _ H) as Hp.
    rewrite lookup_delete_ne; [done|]. intros Heq. rewrite <- Heq in Hp.
    by simplify_eq.
  - intros h t [_ H]%lookup_delete_Some. eauto.
  - intros h t [_ H]%lookup_delete_Some. eauto.
  - intros id' e' [_ H]%lookup_delete_Some. eauto.
  - intros id' e' [_ H]%lookup_delete_Some. eauto.
  - intros id1 id2 e1 e2 [_ H1]%lookup_delete_Some [_ H2]%lookup_delete_Some.
    eauto.
  - rewrite fmap_app. simpl. apply NoDup_snoc; [done|].
    destruct (inv_live_or_removed0 n0 Hn0) as [[_ ?]|[H _]]; [done|].
    by rewrite He in H.
  - intros n Hn. rewrite fmap_app. simpl.
    destruct (decide (n = n0)) as [->|Hne].
    + right. rewrite lookup_delete_eq, elem_of_snoc. auto.
    + assert (requestId n0 ≠ requestId n) by (by intros ?%requestId_inj).
      rewrite lookup_delete_ne by done. rewrite elem_of_snoc.
      destruct (inv_live_or_removed0 n Hn) as [[? ?]|[? ?]]; [left|right];
        split; auto. intros [?|?]; done.
  - intros id'. rewrite fmap_app. simpl. rewrite elem_of_snoc.
    intros [? | ->]; eauto.
Qed.

(** After the deletion nothing refers to the deleted entry's promise. *)
Lemma remove_caller_free id e by_ st :
  Inv st → pendingRequests st !! id = Some e →
  ∀ st1, st1 = deletePending id by_ (clearTimeout (timeout e) st) →
  (caller e ∉ (settled st1).*1) ∧ (caller e < nextPromise st1)%N ∧
  (∀ id' e', pendingRequests st1 !! id' = Some e' → caller e' ≠ caller e).
Proof.
  intros [] He st1 ->. simpl. split_and!; eauto.
  intros id' e' [Hne H]%lookup_delete_Some Heq. apply Hne. eauto.
Qed.

(** The promise executor of a connected call. *)
Lemma Inv_register ws p action params st :
  Inv st → p ∉ (settled st).*1 → (p < nextPromise st)%N →
  (∀ id e, pendingRequests st !! id = Some e → caller e ≠ p) →
  Inv (register ws p action params st).
Proof.
  intros HI Hp Hlt Hfree. pose proof HI as [].
  assert (Hfresh : pendingRequests st !! requestId (requestIdCounter st) = None)
    by (apply Inv_fresh; [done|lia]).
  assert (Hnotimer : timers st !! nextTimer st = None).
  { destruct (timers st !! nextTimer st) eqn:E; [|done].
    apply inv_timer_lt0 in E. lia. }
  split; simpl.
  - intros id e [[<- <-]|[_ H]]%lookup_insert_Some.
    + exists (requestIdCounter st). split; [lia|done].
    + destruct (inv_key0 _ _ H) as (n & ? & ?). exists n. split; [lia|done].
  - intros id e [[<- <-]|[Hne H]]%lookup_insert_Some; simpl.
    + exists action. by rewrite lookup_insert_eq.
    + destruct (inv_timer_of0 _ _ H) as (a & Ht). exists a.
      rewrite lookup_insert_ne; [done|]. intros Heq.
      rewrite <- Heq in Ht. congruence.
  - intros h t [[<- <-]|[Hne H]]%lookup_insert_Some; simpl.
    + by rewrite lookup_insert_eq.
    + pose proof (inv_entry_of0 _ _ H) as Hp'.
      rewrite lookup_insert_ne; [done|]. intros Heq.
      rewrite <- Heq in Hp'. congruence.
  - intros h t [[<- <-]|[_ H]]%lookup_insert_Some; [lia|].
    apply inv_timer_lt0 in H. lia.
  - intros h t [[<- <-]|[_ H]]%lookup_insert_Some; simpl.
    + exists ws, params. rewrite elem_of_snoc. by right.
    + destruct (inv_timer_sent0 _ _ H) as (ws' & params' & ?).
      exists ws', params'. rewrite elem_of_snoc. by left.
  - intros id e [[<- <-]|[_ H]]%lookup_insert_Some; simpl; eauto.
  - intros id e [[<- <-]|[_ H]]%lookup_insert_Some; simpl; eauto.
  - intros id1 id2 e1 e2 [[<- <-]|[? H1]]%lookup_insert_Some
      [[<- <-]|[? H2]]%lookup_insert_Some; simpl; intros Heq; try done.
    + by apply Hfree in H2.
    + symmetry in Heq. by apply Hfree in H1.
    + eauto.
  - done.
  - done.
  - intros id. unfold issued. simpl. rewrite fmap_app. simpl.
    rewrite elem_of_snoc. fold (issued st). rewrite inv_issued0. split.
    + intros [(n & ? & ?)| ->].
      * exists n. split; [lia|done].
      * exists (requestIdCounter st). split; [lia|done].
    + intros (n & Hn & ->).
      destruct (decide (n = requestIdCounter st)) as [->|]; [by right|].
      left. exists n. split; [lia|done].
  - unfold issued. simpl. rewrite fmap_app. simpl. apply NoDup_snoc; [done|].
    fold (issued st). rewrite inv_issued0.
    intros (n & Hn & ?%requestId_inj). lia.
  - done.
  - intros n Hn.
    destruct (decide (n = requestIdCounter st)) as [->|Hne].
    + left. rewrite lookup_insert_eq. split; [done|].
      intros (m & Hm & ?%requestId_inj)%inv_removed_issued0. lia.
    + assert (requestId (requestIdCounter st) ≠ requestId n)
        by (by intros ?%requestId_inj).
      rewrite lookup_insert_ne by done. apply inv_live_or_removed0. lia.
  - intros id (n & ? & ?)%inv_removed_issued0. exists n. split; [lia|done].
Qed.

Lemma Inv_reject_new st s :
  Inv st → Inv (settle (nextPromise st) s (newPromise st)).
Proof.
  intros HI. apply Inv_settle; [by apply Inv_newPromise|..]; simpl.
  - intros H%(inv_settled_lt _ HI). lia.
  - lia.
  - intros id e H%(inv_caller_lt _ HI). lia.
Qed.

Lemma Inv_sendToExtension action params st :
  Inv st → Inv (fst (sendToExtension action params st)).
Proof.
  intros HI. unfold sendToExtension.
  destruct (extensionClient st) as [ws|]; [|by apply Inv_reject_new].
  case_bool_decide as Hopen; [|by apply Inv_reject_new]. simpl.
  apply Inv_register; [by apply Inv_newPromise|..]; simpl.
  - intros Hs%(inv_settled_lt _ HI). lia.
  - lia.
  - intros id e Hc%(inv_caller_lt _ HI). lia.
Qed.

Lemma Inv_onMessage m st : Inv st → Inv (onMessage m st).
Proof.
  intros HI. destruct m as [|type id payload]; [done|]. simpl.
  case_decide; [|done].
  destruct (pendingRequests st !! id) as [e|] eqn:He; [|done].
  pose proof (Inv_remove id e ByResponse st HI He) as HI'.
  destruct (remove_caller_free id e ByResponse st HI He _ eq_refl)
    as (? & ? & ?).
  destruct payload as [pl|]; [|done].
  destruct (success pl); by apply Inv_settle.
Qed.

Lemma Inv_onTimeout h st : Inv st → Inv (onTimeout h st).
Proof.
  intros HI. unfold onTimeout.
  destruct (timers st !! h) as [t|] eqn:Ht; [|done].
  pose proof (inv_entry_of _ HI _ _ Ht) as He.
  pose proof (Inv_remove _ _ ByTimeout st HI He) as HI'.
  destruct (remove_caller_free _ _ ByTimeout st HI He _ eq_refl)
    as (? & ? & ?).
  by apply Inv_settle.
Qed.

Lemma Inv_step st e : Inv st → Inv (step st e).
Proof.
  intros HI. destruct e; simpl.
  - by apply Inv_onConnection.
  - by apply Inv_onMessage.
  - by apply Inv_setReadyState.
  - unfold onClose. case_decide.
    + by apply Inv_setClient, Inv_setReadyState.
    + by apply Inv_setReadyState.
  - by apply Inv_onTimeout.
  - by apply Inv_sendToExtension.
Qed.

Lemma Inv_run st evs : Inv st → Inv (run st evs).
Proof.
  revert st. induction evs as [|e evs IH]; intros st HI; [done|].
  simpl. by apply IH, Inv_step.
Qed.

Lemma Inv_reachable evs : Inv (run init evs).
Proof. apply Inv_run, Inv_init. Qed.

(** A response whose id has no entry changes nothing. *)
Lemma onMessage_no_entry type id payload st :
  pendingRequests st !! id = None →
  onMessage (Message type id payload) st = st.
Proof. intros H. simpl. rewrite H. by case_decide. Qed.

(** C1.  In every state the bridge can reach: the ids issued so far are
    pairwise distinct and the next id to be issued has no entry, so an
    insertion never lands on a live entry and the map holds at most one
    entry per id; no id was deleted twice, be it by a response or by its
    timer; an issued id either still has its entry and was never deleted,
    or has no entry and was deleted (once); a live entry is deleted by a
    response with its id and by its timer, whichever comes first; and a
    response for a deleted id leaves the state as it is. *)
Theorem pending_entry_unique_removed_once (evs : list Event) :
  let st := run init evs in
  NoDup (issued st)
  ∧ pendingRequests st !! requestId (requestIdCounter st) = None
  ∧ NoDup (removed st).*1
  ∧ (∀ id, id ∈ issued st →
       (is_Some (pendingRequests st !! id) ∧ id ∉ (removed st).*1)
       ∨ (pendingRequests st !! id = None ∧ id ∈ (removed st).*1))
  ∧ (∀ id e, pendingRequests st !! id = Some e →
       (∀ ws payload,
          removed (step st (EvMessage ws (Message "RESPONSE" id payload)))
          = removed st ++ [(id, ByResponse)])
       ∧ removed (step st (EvTimeout (timeout e)))
         = removed st ++ [(id, ByTimeout)])
  ∧ (∀ id, id ∈ (removed st).*1 →
       id ∈ issued st ∧
       ∀ ws type payload,
         step st (EvMessage ws (Message type id payload)) = st).
Proof.
  intros st. pose proof (Inv_reachable evs) as HI. fold st in HI.
  split_and!.
  - apply (inv_issued_nodup _ HI).
  - apply Inv_fresh; [done|lia].
  - apply (inv_removed_nodup _ HI).
  - intros id (n & Hn & ->)%(inv_issued _ HI).
    by apply (inv_live_or_removed _ HI).
  - intros id e He. destruct (inv_timer_of _ HI _ _ He) as (a & Ht). split.
    + intros ws payload. simpl. rewrite He.
      destruct payload as [pl|]; [destruct (success pl)|]; simpl;
        by rewrite He.
    + simpl. unfold onTimeout. rewrite Ht. simpl. by rewrite He.
  - intros id Hid. destruct (inv_removed_issued _ HI _ Hid) as (n & Hn & ->).
    split; [apply (inv_issued _ HI); eauto|].
    intros ws type payload. simpl. apply onMessage_no_entry.
    destruct (inv_live_or_removed _ HI n Hn) as [[_ ?]|[? _]]; done.
Qed.

(** *** The settlement log only grows *)

Lemma settled_step st e : ∃ l, settled (step st e) = settled st ++ l.
Proof.
  destruct e as [|ws m|ws|ws|h|action params]; simpl.
  - by exists []; rewrite app_nil_r.
  - destruct m as [|type id payload]; simpl;
      [by exists []; rewrite app_nil_r|].
    case_decide; [|by exists []; rewrite app_nil_r].
    destruct (pendingRequests st !! id); [|by exists []; rewrite app_nil_r].
    destruct payload as [pl|]; [|by exists []; rewrite app_nil_r].
    destruct (success pl); by eexists.
  - by exists []; rewrite app_nil_r.
  - unfold onClose. case_decide; by exists []; rewrite app_nil_r.
  - unfold onTimeout. destruct (timers st !! h);
      [by eexists|by exists []; rewrite app_nil_r].
  - unfold sendToExtension. destruct (extensionClient st); [|by eexists].
    case_bool_decide; [by exists []; rewrite app_nil_r|by eexists].
Qed.

Lemma settled_run st evs : ∃ l, settled (run st evs) = settled st ++ l.
Proof.
  revert st. induction evs as [|e evs IH]; intros st; simpl.
  - by exists []; rewrite app_nil_r.
  - destruct (IH (step st e)) as (l2 & ->).
    destruct (settled_step st e) as (l1 & ->).
    exists (l1 ++ l2). by rewrite app_assoc.
Qed.

Lemma filter_fst_absent (p : N) (l : list (N * Settlement)) :
  p ∉ l.*1 → filter (λ x, fst x = p) l = [].
Proof.
  induction l as [|[q s] l IH]; [done|]. simpl. intros Hp.
  rewrite not_elem_of_cons in Hp. destruct Hp as [Hne Hp].
  rewrite filter_cons_False by (simpl; congruence). auto.
Qed.

Lemma promiseState_first p s st st1 l :
  p ∉ (settled st).*1 → settled st1 = settled st ++ (p, s) :: l →
  promiseState p st1 = Some s.
Proof.
  intros Hp Hst1. unfold promiseState. rewrite Hst1, filter_app.
  rewrite filter_fst_absent by done. simpl.
  by rewrite filter_cons_True.
Qed.

Lemma NoDup_fst_functional {A B} (l : list (A * B)) a b1 b2 :
  NoDup l.*1 → (a, b1) ∈ l → (a, b2) ∈ l → b1 = b2.
Proof.
  induction l as [|[a' b'] l IH]; simpl.
  - by intros _ ?%elem_of_nil.
  - intros [Hnotin Hnd]%NoDup_cons H1 H2.
    apply elem_of_cons in H1 as [H1|H1];
      apply elem_of_cons in H2 as [H2|H2].
    + congruence.
    + injection H1 as <- <-. destruct Hnotin.
      apply list_elem_of_fmap. by exists (a, b2).
    + injection H2 as <- <-. destruct Hnotin.
      apply list_elem_of_fmap. by exists (a, b1).
    + eauto.
Qed.

(** A call made while the slot is empty or the socket is not open. *)
Lemma sendToExtension_disconnected action params st :
  connected st = false →
  sendToExtension action params st =
  (settle (nextPromise st) (Rejected notConnectedMessage) (newPromise st),
   nextPromise st).
Proof.
  unfold connected, sendToExtension.
  destruct (extensionClient st); [|done]. by intros ->.
Qed.

(** C2.  When the bridge has no open peer (none ever connected, the peer
    closed, or its socket has left the open state), a call rejects its
    caller at once with the not-connected error, and creates no pending
    entry, arms no timer and writes nothing; whatever happens afterwards,
    a peer connecting included, the only settlement the caller ever gets
    is that rejection and no entry or timer ever refers to it. *)
Theorem call_without_peer_rejects (evs0 : list Event) (action : string)
    (params : option Params) :
  connected (run init evs0) = false →
  let st := run init evs0 in
  let st1 := (sendToExtension action params st).1 in
  let p := (sendToExtension action params st).2 in
  (promiseState p st1 = Some (Rejected notConnectedMessage))
  ∧ pendingRequests st1 = pendingRequests st
  ∧ timers st1 = timers st
  ∧ sent st1 = sent st
  ∧ (∀ evs,
      let st2 := run st1 evs in
      (promiseState p st2 = Some (Rejected notConnectedMessage))
      ∧ (∀ s, (p, s) ∈ settled st2 → s = Rejected notConnectedMessage)
      ∧ (∀ id e, pendingRequests st2 !! id = Some e → caller e ≠ p)
      ∧ (∀ h t, timers st2 !! h = Some t → t_caller t ≠ p)).
Proof.
  intros Hconn st st1 p. unfold st1, p.
  rewrite sendToExtension_disconnected by done. simpl.
  clear st1 p. set (p := nextPromise st).
  pose proof (Inv_reachable evs0) as HI. fold st in HI.
  assert (Hp : p ∉ (settled st).*1).
  { intros H%(inv_settled_lt _ HI). unfold p in H. lia. }
  split_and!; try done.
  - by eapply (promiseState_first p _ (newPromise st) _ []).
  - intros evs.
    set (st1 := settle p (Rejected notConnectedMessage) (newPromise st)).
    pose proof (Inv_run st1 evs (Inv_reject_new st _ HI)) as HI2.
    destruct (settled_run st1 evs) as (l & Hl). simpl in Hl.
    rewrite <- app_assoc in Hl. simpl in Hl.
    assert (Hin : (p, Rejected notConnectedMessage) ∈ settled (run st1 evs)).
    { rewrite Hl, elem_of_app, elem_of_cons. auto. }
    assert (Hin1 : p ∈ (settled (run st1 evs)).*1).
    { apply list_elem_of_fmap. by eexists (_, _). }
    split_and!.
    + by eapply (promiseState_first p _ (newPromise st) _ l).
    + intros s Hs.
      by eapply (NoDup_fst_functional _ p), Hin;
        [apply (inv_settled_nodup _ HI2)|].
    + intros id e He Heq. apply (inv_caller_unsettled _ HI2 _ _ He).
      by rewrite Heq.
    + intros h t Ht Heq. pose proof (inv_entry_of _ HI2 _ _ Ht) as He.
      apply (inv_caller_unsettled _ HI2 _ _ He). simpl. by rewrite Heq.
Qed.

(** The peer connected and closed again; then a call is made. *)
Lemma call_without_peer_rejects_witness :
  connected (run init [EvConnection; EvClose 0]) = false
  ∧ promiseState 0
      (sendToExtension "navigate" None
         (run init [EvConnection; EvClose 0])).1
    = Some (Rejected notConnectedMessage).
Proof.
  split; [reflexivity|].
  exact (proj1 (call_without_peer_rejects [EvConnection; EvClose 0]
                  "navigate" None eq_refl)).
Defined.


(** What a response and the timer each do to a pending entry, one step
    on: the entry and the timer go and the caller gets one settlement. *)
Lemma pending_entry_one_step (evs : list Event) (id : string)
    (e : PendingEntry) :
  pendingRequests (run init evs) !! id = Some e →
  let st := run init evs in
  (NoDup (settled st).*1)
  ∧ ∃ action ws params,
      ((ws, {| rq_type := "REQUEST"; rq_id := id; rq_action := action;
               rq_params := params |}) ∈ sent st)
      ∧ timers st !! timeout e =
          Some {| t_id := id; t_action := action; t_caller := caller e;
                  t_delay := 30000 |}
      ∧ (caller e ∉ (settled st).*1)
      ∧ (∀ ws1 pl,
          let st1 := step st (EvMessage ws1 (Message "RESPONSE" id (Some pl))) in
          (settled st1 = settled st ++
            [(caller e,
              if success pl then Resolved (data pl)
              else Rejected (opt_str_or (error pl) "Unknown error"))])
          ∧ pendingRequests st1 !! id = None
          ∧ timers st1 !! timeout e = None
          ∧ NoDup (settled st1).*1)
      ∧ (let st1 := step st (EvTimeout (timeout e)) in
         (settled st1 = settled st ++
           [(caller e, Rejected ("Request timeout: " +:+ action))])
         ∧ pendingRequests st1 !! id = None
         ∧ timers st1 !! timeout e = None
         ∧ NoDup (settled st1).*1).
Proof.
  intros He st. pose proof (Inv_reachable evs) as HI. fold st in HI, He.
  split; [apply (inv_settled_nodup _ HI)|].
  destruct (inv_timer_of _ HI _ _ He) as (action & Ht).
  destruct (inv_timer_sent _ HI _ _ Ht) as (ws & params & Hsent).
  simpl in Hsent. exists action, ws, params. split_and!; try done.
  - apply (inv_caller_unsettled _ HI _ _ He).
  - intros ws1 pl st1.
    assert (Hnd : NoDup (settled st1).*1)
      by apply (inv_settled_nodup _ (Inv_step _ _ HI)).
    revert Hnd. unfold st1. simpl. rewrite He.
    destruct (success pl); simpl; by rewrite !lookup_delete_eq.
  - intros st1.
    assert (Hnd : NoDup (settled st1).*1)
      by apply (inv_settled_nodup _ (Inv_step _ _ HI)).
    revert Hnd. unfold st1. simpl. unfold onTimeout. rewrite Ht.
    simpl. by rewrite !lookup_delete_eq.
Qed.

(** C3 as stated fails: a failure reply whose [error] is the empty string
    rejects the caller with "Unknown error", not with [payload.error]. *)
Lemma rejection_message_differs_from_payload_error :
  let st := run init [EvConnection; EvCall "click" None] in
  let pl := {| success := false; data := None; error := Some "" |} in
  pendingRequests st !! "req_1" = Some {| caller := 0; timeout := 0 |}
  ∧ promiseState 0
      (step st (EvMessage 0 (Message "RESPONSE" "req_1" (Some pl))))
    = Some (Rejected "Unknown error")
  ∧ Some "Unknown error" ≠ error pl.
Proof. split_and!; [reflexivity|reflexivity|discriminate]. Qed.

(** The spec's scenario 4: the seventh request is answered with
    [{success: false, error: "boom"}]. *)
Example scenario_boom :
  let st := run init (EvConnection :: replicate 7 (EvCall "click" None)) in
  let pl := {| success := false; data := None; error := Some "boom" |} in
  pendingRequests st !! "req_7" = Some {| caller := 6; timeout := 6 |}
  ∧ promiseState 6
      (step st (EvMessage 0 (Message "RESPONSE" "req_7" (Some pl))))
    = Some (Rejected "boom").
Proof. split; reflexivity. Qed.

End BridgeFacts.

(** ** The session transport *)
Section TransportFacts.
Import Cdp.

Variable host : Host.

(** [attach] on an attached session does nothing. *)
Lemma attach_attached w : attached w = true → attach host w = (Ok tt, w).
Proof. intros H. unfold attach. by rewrite H. Qed.

(** [detach] on a detached session does nothing. *)
Lemma detach_detached w : attached w = false → detach host w = (Ok tt, w).
Proof. intros H. unfold detach. by rewrite H. Qed.

(** [detach] returns normally and leaves the session detached, whatever
    the host answers. *)
Lemma detach_never_throws w :
  (detach host w).1 = Ok tt ∧ attached (detach host w).2 = false.
Proof.
  unfold detach. destruct (attached w) eqn:E; simpl; [|done].
  unfold bind, swallow, setListening, setAttached. simpl. done.
Qed.

(** A first [attach] the host grants. *)
Lemma attach_detached_granted w :
  attached w = false →
  attachReply host (hostLog w) (tabId w) = Ok tt →
  attach host w =
  (Ok tt, {| tabId := tabId w; attached := true; listening := true;
             hostLog := hostLog w ++ [HAttach (tabId w) "1.3"];
             window := window w; raised := raised w;
             overlay := overlay w |}).
Proof.
  intros H Hg. unfold attach. rewrite H.
  unfold bind, debuggerAttach, hostCall. by rewrite Hg.
Qed.

Lemma attach_detached_ok w :
  attached w = false → (attach host w).1 = Ok tt →
  attachReply host (hostLog w) (tabId w) = Ok tt.
Proof.
  intros H. unfold attach. rewrite H.
  unfold bind, debuggerAttach, hostCall.
  by destruct (attachReply host (hostLog w) (tabId w)) as [[]|].
Qed.

(** C8.  Once [attach] has succeeded, a second [attach] neither changes
    the session nor calls the host: the session is attached and the host
    has seen one attach call, the first one's (none if the session was
    attached to begin with).  [detach] on a detached session changes
    nothing and returns normally; and [detach] returns normally, leaving
    the session detached, even when the host's detach fails. *)
Theorem attach_detach_idempotent (w : World) :
  (attach host w).1 = Ok tt →
  let w1 := (attach host w).2 in
  let w2 := (attach host w1).2 in
  attach host w1 = (Ok tt, w1)
  ∧ attached w2 = true
  ∧ hostLog w2 =
      hostLog w ++ (if attached w then [] else [HAttach (tabId w) "1.3"])
  ∧ (∀ w0, attached w0 = false → detach host w0 = (Ok tt, w0))
  ∧ (∀ w0, (detach host w0).1 = Ok tt ∧ attached (detach host w0).2 = false).
Proof.
  intros Hok w1 w2.
  assert (H1 : attached w1 = true ∧
               hostLog w1 = hostLog w ++
                 (if attached w then [] else [HAttach (tabId w) "1.3"])).
  { unfold w1. destruct (attached w) eqn:E.
    - rewrite attach_attached by done. simpl. by rewrite E, app_nil_r.
    - rewrite attach_detached_granted;
        [done|done|by apply attach_detached_ok]. }
  destruct H1 as [Ha Hl].
  assert (H2 : attach host w1 = (Ok tt, w1)) by by apply attach_attached.
  unfold w2. rewrite H2. simpl. split_and!; try done.
  - apply detach_detached.
  - apply detach_never_throws.
Qed.

(** *** The detach listener *)

Lemma wired_attach w : wired w → wired (attach host w).2.
Proof.
  unfold wired, attach. destruct (attached w) eqn:E; [simpl; auto|].
  unfold bind, debuggerAttach, hostCall, setAttached, setListening.
  destruct (attachReply host (hostLog w) (tabId w)); simpl; [done|].
  by rewrite E.
Qed.

Lemma wired_detach w : wired (detach host w).2.
Proof. intros H. by rewrite (proj2 (detach_never_throws w)) in H. Qed.

Lemma wired_onDetach source w : wired w → wired (onDetach source w).
Proof.
  unfold wired, onDetach, handleDetach.
  destruct (listening w) eqn:E; [|by intros H Ha; specialize (H Ha)].
  intros _. case_decide; simpl; [done|]. by rewrite E.
Qed.

Lemma wired_send {T} (c : Command T) w : wired w → wired (send host c w).2.
Proof.
  unfold wired, send. destruct (attached w) eqn:E; simpl; [|by rewrite E].
  unfold debuggerSendCommand. intros Hw.
  destruct (commandError host (hostLog w) T c); simpl; [by rewrite E|].
  destruct (hostResult host (hostLog w) c (window w)). simpl.
  by rewrite E.
Qed.

(** C9.  A session that is not attached rejects [send] with "Debugger not
    attached" and calls the host for nothing; so does a session whose
    debugger the host has just detached; an attached session hands the
    command to the host and returns the host's result, or throws the
    host's error. *)
Theorem send_requires_attached {T} (c : Command T) (w : World) :
  wired w →
  (attached w = false →
     send host c w =
       (Throw "Debugger not attached", noteRaised "Debugger not attached" w)
     ∧ hostLog (send host c w).2 = hostLog w)
  ∧ (let w1 := onDetach (tabId w) w in
     attached w1 = false
     ∧ send host c w1 =
         (Throw "Debugger not attached",
          noteRaised "Debugger not attached" w1)
     ∧ hostLog (send host c w1).2 = hostLog w)
  ∧ (attached w = true →
     hostLog (send host c w).2 = hostLog w ++ [HSendCommand (tabId w) c]
     ∧ match commandError host (hostLog w) T c with
       | Some e => (send host c w).1 = Throw e
       | None =>
         (send host c w).1 = Ok (hostResult host (hostLog w) c (window w)).1
         ∧ window (send host c w).2 =
             (hostResult host (hostLog w) c (window w)).2
       end).
Proof.
  intros Hw.
  assert (Hoff : ∀ w0, attached w0 = false →
            send host c w0 =
              (Throw "Debugger not attached",
               noteRaised "Debugger not attached" w0)).
  { intros w0 H. unfold send. by rewrite H. }
  split_and!.
  - intros H. by rewrite Hoff.
  - assert (Hd : attached (onDetach (tabId w) w) = false
                 ∧ hostLog (onDetach (tabId w) w) = hostLog w).
    { unfold onDetach, handleDetach. rewrite decide_True by done.
      destruct (listening w) eqn:El; [done|].
      destruct (attached w) eqn:Ea; [|done]. by rewrite Hw in El. }
    destruct Hd as [Hd Hl]. simpl. rewrite (Hoff _ Hd). by rewrite <- Hl.
  - intros H. unfold send. rewrite H. simpl. unfold debuggerSendCommand.
    destruct (commandError host (hostLog w) T c); simpl; [done|].
    by destruct (hostResult host (hostLog w) c (window w)).
Qed.

End TransportFacts.

(** ** The page controller *)
Section PageFacts.
Import Cdp.

Variable host : Host.

(** [send] on an attached session of an accepting host. *)
Lemma send_accepted {T} (c : Command T) w :
  accepts host → attached w = true →
  send host c w =
  (Ok (hostResult host (hostLog w) c (window w)).1,
   setWindow (hostResult host (hostLog w) c (window w)).2
     (noteCall (HSendCommand (tabId w) c) w)).
Proof.
  intros Ha H. unfold send, debuggerSendCommand. rewrite H, Ha. simpl.
  by destruct (hostResult host (hostLog w) c (window w)).
Qed.

(** [evaluate] on an attached session of an accepting host: the script
    runs once in the page; its value comes back, or the host's text for
    its failure is thrown. *)
Lemma evaluate_accepted {T} (s : Script T) w :
  accepts host → attached w = true →
  evaluate host s w =
  let w1 := setWindow (runScript host s (window w)).2
              (noteCall (HSendCommand (tabId w) (RuntimeEvaluate s)) w) in
  match (runScript host s (window w)).1 with
  | Returns v => (Ok v, w1)
  | o => (Throw (exceptionText host T o),
          noteRaised (exceptionText host T o) w1)
  end.
Proof.
  intros Ha H. unfold evaluate, bind. rewrite send_accepted by done.
  simpl. by destruct (runScript host s (window w)) as [[v|m|] win].
Qed.

(** *** The console-log buffer *)

(** One wrapper call on a buffer within its cap: the entry goes to the
    end, and when that makes the buffer longer than the cap the oldest
    entry is dropped. *)
Lemma consoleWrapper_capped m args now w logs :
  agentsCCConsoleLogs w = Some logs →
  (N.of_nat (length logs) ≤ agentsCCMaxLogs w)%N →
  ∃ logs',
    agentsCCConsoleLogs (consoleWrapper m args now w) = Some logs'
    ∧ (N.of_nat (length logs') ≤ agentsCCMaxLogs w)%N
    ∧ agentsCCMaxLogs (consoleWrapper m args now w) = agentsCCMaxLogs w
    ∧ logs' =
        let entry := {| log_type := methodName m; log_text := join " " args;
                        log_timestamp := now; log_url := None;
                        log_lineNumber := None |} in
        if decide (N.of_nat (length logs) = agentsCCMaxLogs w)
        then tail (logs ++ [entry]) else logs ++ [entry].
Proof.
  intros Hl Hle. unfold consoleWrapper, push, limit. rewrite Hl. simpl.
  rewrite length_app. simpl.
  destruct (N.ltb_spec (agentsCCMaxLogs w) (N.of_nat (length logs + 1)))
    as [Hlt|Hge]; simpl; eexists; split_and!; try done.
  - destruct logs; simpl in *; [lia|]. rewrite length_app. simpl. lia.
  - rewrite decide_True by lia. done.
  - rewrite length_app. simpl. lia.
  - rewrite decide_False by lia. done.
Qed.

(** The 1001st entry: a full buffer loses its oldest entry to a console
    call. *)
Lemma consoleWrapper_evicts_oldest m args now w oldest rest :
  agentsCCConsoleLogs w = Some (oldest :: rest) →
  N.of_nat (length (oldest :: rest)) = agentsCCMaxLogs w →
  agentsCCConsoleLogs (consoleWrapper m args now w) =
  Some (rest ++ [{| log_type := methodName m; log_text := join " " args;
                    log_timestamp := now; log_url := None;
                    log_lineNumber := None |}]).
Proof.
  intros Hl Hfull.
  destruct (consoleWrapper_capped m args now w _ Hl) as (l & -> & _ & _ & ->);
    [lia|].
  by rewrite decide_True.
Qed.

(** Reading hands over the whole buffer and leaves an empty one. *)
Lemma drainLogs_installed w logs :
  agentsCCConsoleLogs w = Some logs →
  drainLogs w = (Returns logs, setLogs (Some []) w).
Proof. intros H. unfold drainLogs. rewrite H. simpl. by rewrite H. Qed.

(** A read never installs the interceptors a second time. *)
Lemma drainLogs_installs_once w :
  interceptors (drainLogs (drainLogs w).2).2 = interceptors (drainLogs w).2.
Proof. unfold drainLogs. by destruct (agentsCCConsoleLogs w). Qed.

Lemma getConsoleLogs_drains w logs :
  accepts host → attached w = true → agentsCCConsoleLogs (window w) = Some logs →
  (getConsoleLogs host w).1 = Ok logs
  ∧ agentsCCConsoleLogs (window (getConsoleLogs host w).2) = Some [].
Proof.
  intros Ha H Hl. unfold getConsoleLogs. rewrite evaluate_accepted by done.
  change (runScript host ConsoleLogsScript) with drainLogs. cbv zeta.
  by rewrite drainLogs_installed with (logs := logs).
Qed.

(** An error listener appends and never trims. *)
Lemma errorListener_grows message filename lineno now w logs :
  agentsCCConsoleLogs w = Some logs →
  ∃ entry,
    agentsCCConsoleLogs (errorListener message filename lineno now w)
    = Some (logs ++ [entry]).
Proof. intros H. unfold errorListener, push. rewrite H. by eexists. Qed.

(** *** Clicking *)

(** [clickAt] on an attached session of an accepting host sends move,
    press, release, in this order and at the coordinates given. *)
Lemma clickAt_accepted x y button clickCount w :
  accepts host → attached w = true →
  (clickAt host x y button clickCount w).1 = Ok tt
  ∧ hostLog (clickAt host x y button clickCount w).2 =
      hostLog w ++ pointerEvents (tabId w) x y (opt_str_or button "left")
                     (clickCountOr1 clickCount)
  ∧ attached (clickAt host x y button clickCount w).2 = true
  ∧ raised (clickAt host x y button clickCount w).2 = raised w.
Proof.
  intros Ha H. unfold clickAt, bind.
  rewrite send_accepted by done. simpl.
  rewrite send_accepted by done. simpl.
  rewrite send_accepted by done. simpl.
  by rewrite <- !app_assoc.
Qed.

Lemma runScript_center_intact selector w :
  scanSingleQuoted selector = Intact →
  runScript host (ElementCenterScript selector) w = elementCenter selector w.
Proof. intros H. simpl. unfold spliced. by rewrite H. Qed.

Lemma runScript_center_broken selector rest w :
  scanSingleQuoted selector = ClosedEarly rest → startsOperand rest = true →
  runScript host (ElementCenterScript selector) w = (SyntaxError, w).
Proof. intros H1 H2. simpl. unfold spliced. by rewrite H1, H2. Qed.

(** [clickElement] with a selector that leaves the script's message
    literal alone and matches an element: one evaluation, then the three
    pointer events at the centre of the element's box. *)
Lemma clickElement_found selector w n el :
  accepts host → attached w = true →
  scanSingleQuoted selector = Intact →
  lookupElement (window w) selector = Ok (Some (n, el)) →
  let r := boundingClientRect el in
  let x := (rect_left r + rect_width r / 2)%Q in
  let y := (rect_top r + rect_height r / 2)%Q in
  (clickElement host selector w).1 = Ok (tagName el, slice100 (textContent el))
  ∧ hostLog (clickElement host selector w).2 =
      hostLog w
      ++ [HSendCommand (tabId w)
            (RuntimeEvaluate (ElementCenterScript selector))]
      ++ pointerEvents (tabId w) x y "left" 1.
Proof.
  intros Ha H Hs Hl r x y. unfold clickElement, bind.
  rewrite evaluate_accepted by done. cbv zeta.
  rewrite runScript_center_intact by done.
  unfold elementCenter. rewrite Hl. simpl.
  match goal with
  | |- context [clickAt host ?a ?b ?c ?d ?w0] =>
    destruct (clickAt_accepted a b c d w0 Ha H) as (Hr & Hlog & _ & _);
    destruct (clickAt host a b c d w0) as [res w1]
  end.
  simpl in *. subst res. simpl. split; [done|].
  rewrite Hlog. by rewrite <- app_assoc.
Qed.

(** ... and with a selector that matches nothing: one evaluation, the
    host's text for the script's "Element not found" error is thrown, no
    pointer event is sent. *)
Lemma clickElement_not_found selector w :
  accepts host → attached w = true →
  scanSingleQuoted selector = Intact →
  lookupElement (window w) selector = Ok None →
  (clickElement host selector w).1 =
    Throw (exceptionText host _
             (Raises (T := ElementInfo) ("Element not found: " +:+ selector)))
  ∧ hostLog (clickElement host selector w).2 =
      hostLog w
      ++ [HSendCommand (tabId w)
            (RuntimeEvaluate (ElementCenterScript selector))].
Proof.
  intros Ha H Hs Hl. unfold clickElement, bind.
  rewrite evaluate_accepted by done. cbv zeta.
  rewrite runScript_center_intact by done.
  unfold elementCenter. rewrite Hl. done.
Qed.

(** C7, where the code departs from it.  The selector [input[name='q']]
    is spliced unescaped into ['Element not found: ...']: the literal ends
    at the selector's first quote and the script is not a program.  On any
    accepting host, with the session attached and the selector matching an
    element, [clickElement] throws the host's text for a script that does
    not parse, after one evaluation and without any pointer event. *)
Theorem clickElement_quoted_selector_fails (w : World) (n : N)
    (el : Element) :
  accepts host → attached w = true →
  lookupElement (window w) "input[name='q']" = Ok (Some (n, el)) →
  (clickElement host "input[name='q']" w).1 =
    Throw (exceptionText host ElementInfo SyntaxError)
  ∧ hostLog (clickElement host "input[name='q']" w).2 =
      hostLog w
      ++ [HSendCommand (tabId w)
            (RuntimeEvaluate (ElementCenterScript "input[name='q']"))].
Proof.
  intros Ha H Hl. unfold clickElement, bind.
  rewrite evaluate_accepted by done. cbv zeta.
  by rewrite (runScript_center_broken _ "q']").
Qed.

(** *** Selecting an option *)

Lemma resolveOption_firstMatch value text index opts :
  resolveOption value text index opts =
  firstMatch
    [ value ≫= (λ v, findOption (λ o, bool_decide (opt_value o = v)) opts);
      text ≫= (λ t, findOption (λ o, bool_decide (opt_text o = t)) opts);
      index ≫= (λ i, optionAt i opts) ].
Proof.
  unfold resolveOption.
  destruct value as [v|]; simpl;
    [destruct (findOption _ opts) as [o|] eqn:Ev; simpl|];
    destruct text as [t|]; simpl; try done;
    try (destruct (findOption (λ o, bool_decide (opt_text o = t)) opts)
           as [o'|] eqn:Et; simpl);
    destruct index as [i|]; simpl; try done;
    by destruct (optionAt i opts).
Qed.

(** A supplied value that some option carries decides, whatever text and
    index say. *)
Lemma resolveOption_value_wins v text index opts o :
  findOption (λ o, bool_decide (opt_value o = v)) opts = Some o →
  resolveOption (Some v) text index opts = Some o ∧ opt_value o = v.
Proof.
  intros H. rewrite resolveOption_firstMatch. simpl. rewrite H. simpl.
  split; [done|]. unfold findOption in H.
  apply head_Some_elem_of, list_elem_of_filter in H as [H _].
  by apply bool_decide_eq_true in H.
Qed.

Lemma runScript_select_intact selector value text index w :
  scanSingleQuoted selector = Intact →
  runScript host (SelectOptionScript selector value text index) w =
  selectInPage selector value text index w.
Proof. intros H. simpl. unfold spliced. by rewrite H. Qed.

Lemma runScript_select_broken selector rest value text index w :
  scanSingleQuoted selector = ClosedEarly rest → startsOperand rest = true →
  runScript host (SelectOptionScript selector value text index) w =
  (SyntaxError, w).
Proof. intros H1 H2. simpl. unfold spliced. by rewrite H1, H2. Qed.

(** [selectOption] with a selector that leaves the script's message
    literal alone, on a select element: the resolved option is returned,
    the select's value is set to that option's value, and a change event
    and then an input event are dispatched on the select; with nothing
    resolved the host's text for "Option not found" is thrown and the page
    is left alone. *)
Lemma selectOption_on_select selector value text index w n select :
  accepts host → attached w = true →
  scanSingleQuoted selector = Intact →
  lookupElement (window w) selector = Ok (Some (n, select)) →
  tagName select = "SELECT" →
  match resolveOption value text index (options select) with
  | Some o =>
    (selectOption host selector value text index w).1 =
      Ok {| selected_value := opt_value o; selected_text := opt_text o |}
    ∧ dispatched (window (selectOption host selector value text index w).2)
      = dispatched (window w) ++ [(n, "change"); (n, "input")]
    ∧ selectedIndex <$>
        (elements (window (selectOption host selector value text index w).2)
           !! n)
      = Some (indexOfValue (opt_value o) (options select))
  | None =>
    (selectOption host selector value text index w).1 =
      Throw (exceptionText host _
               (Raises (T := SelectedOption) "Option not found"))
    ∧ window (selectOption host selector value text index w).2 = window w
  end.
Proof.
  intros Ha H Hs Hl Htag. unfold selectOption.
  rewrite evaluate_accepted by done. cbv zeta.
  rewrite runScript_select_intact by done.
  unfold selectInPage. rewrite Hl. rewrite decide_True by done.
  destruct (resolveOption value text index (options select)) as [o|];
    simpl; [|done].
  split_and!; [done..|]. by rewrite lookup_insert_eq.
Qed.

(** ... and on anything that is not a select element. *)
Lemma selectOption_not_select selector value text index w :
  accepts host → attached w = true →
  scanSingleQuoted selector = Intact →
  (lookupElement (window w) selector = Ok None
   ∨ ∃ n el, lookupElement (window w) selector = Ok (Some (n, el))
             ∧ tagName el ≠ "SELECT") →
  (selectOption host selector value text index w).1 =
    Throw (exceptionText host _
             (Raises (T := SelectedOption)
                ("Element is not a SELECT: " +:+ selector)))
  ∧ window (selectOption host selector value text index w).2 = window w.
Proof.
  intros Ha H Hs Hl. unfold selectOption.
  rewrite evaluate_accepted by done. cbv zeta.
  rewrite runScript_select_intact by done. unfold selectInPage.
  destruct Hl as [->|(n & el & -> & Hne)]; [done|].
  by rewrite decide_False.
Qed.

(** C6, where the code departs from it.  The selector [select[name='c']]
    is spliced unescaped into ['Element is not a SELECT: ...']: the script
    is not a program.  On any accepting host, with the session attached,
    the selector naming a select element and the criteria resolving to one
    of its options, [selectOption] throws the host's text for a script
    that does not parse and the page is left as it was: nothing is
    selected and no event is dispatched. *)
Theorem selectOption_quoted_selector_fails (w : World) (n : N)
    (select : Element) (value text : option string) (index : option Z)
    (o : OptionElement) :
  accepts host → attached w = true →
  lookupElement (window w) "select[name='c']" = Ok (Some (n, select)) →
  tagName select = "SELECT" →
  resolveOption value text index (options select) = Some o →
  (selectOption host "select[name='c']" value text index w).1 =
    Throw (exceptionText host SelectedOption SyntaxError)
  ∧ window (selectOption host "select[name='c']" value text index w).2
    = window w.
Proof.
  intros Ha H Hl Htag Ho. unfold selectOption.
  rewrite evaluate_accepted by done. cbv zeta.
  by rewrite (runScript_select_broken _ "c']").
Qed.

End PageFacts.

(** ** The action executor *)
Section ExecutorFacts.
Import Cdp Background.

Variable host : Host.

Lemma carries_ret {A} P (a : A) : carries P (ret a).
Proof. intros w. exists []. simpl. by rewrite app_nil_r. Qed.

Lemma carries_throw {A} P e : carries P (throw (A := A) e).
Proof. intros w. exists []. simpl. done. Qed.

Lemma carries_bind {A B} P (m : M A) (k : A → M B) :
  carries P m → (∀ a, carries P (k a)) → carries P (bind m k).
Proof.
  intros Hm Hk w. unfold bind. destruct (Hm w) as (l1 & HP1 & H1).
  destruct (m w) as [[a|e] w1]; simpl in *.
  - destruct (Hk a w1) as (l2 & HP2 & H2). exists (l1 ++ l2).
    split; [by apply Forall_app|].
    rewrite H2, H1. by rewrite app_nil_r, <- !app_assoc.
  - by exists l1.
Qed.

Lemma carries_mono {A} (P Q : string → Prop) (m : M A) :
  (∀ e, P e → Q e) → carries P m → carries Q m.
Proof.
  intros HPQ Hm w. destruct (Hm w) as (l & HP & H). exists l.
  split; [|done]. eapply Forall_impl; eauto.
Qed.

Lemma carries_external {A} P (reply : list HostCall → Res A) :
  carries P (external reply).
Proof.
  intros w. exists []. unfold external.
  destruct (reply (hostLog w)); simpl; [by rewrite app_nil_r|done].
Qed.

Lemma carries_send {T} P (c : Command T) : carries P (send host c).
Proof.
  intros w. exists []. unfold send.
  destruct (attached w); simpl; [|done]. unfold debuggerSendCommand.
  destruct (commandError host (hostLog w) T c); simpl; [done|].
  destruct (hostResult host (hostLog w) c (window w)). simpl.
  by rewrite app_nil_r.
Qed.

Create HintDb carries discriminated.
#[local] Hint Resolve carries_ret carries_throw carries_external
  carries_send : carries.

(** Applies the rules above along the structure of a computation. *)
Ltac carry :=
  repeat first
    [ solve [auto with carries]
    | apply carries_bind; [|intros ?]
    | match goal with
      | |- carries _ (match ?x with _ => _ end) => destruct x
      end ].

Lemma carries_evaluate {T} P (s : Script T) : carries P (evaluate host s).
Proof. unfold evaluate. carry. Qed.
#[local] Hint Resolve carries_evaluate : carries.

Lemma carries_clickAt P x y button clickCount :
  carries P (clickAt host x y button clickCount).
Proof. unfold clickAt. carry. Qed.
#[local] Hint Resolve carries_clickAt : carries.

Lemma carries_clickElement P selector :
  carries P (clickElement host selector).
Proof. unfold clickElement. carry. Qed.
#[local] Hint Resolve carries_clickElement : carries.

Lemma carries_insertEach P cs : carries P (insertEach host cs).
Proof. induction cs as [|c cs IH]; simpl; carry. Qed.
#[local] Hint Resolve carries_insertEach : carries.

Lemma carries_type P text delay : carries P (type host text delay).
Proof. unfold type. carry. Qed.
#[local] Hint Resolve carries_type : carries.

Lemma carries_typeInElement P selector text clearFirst delay :
  carries P (typeInElement host selector text clearFirst delay).
Proof. unfold typeInElement. carry. Qed.

Lemma carries_pressKey P key : carries P (pressKey host key).
Proof. unfold pressKey. carry. Qed.

Lemma carries_scroll P direction distance :
  carries P (scroll host direction distance).
Proof. unfold scroll. carry. Qed.

Lemma carries_goBack P : carries P (goBack host).
Proof. unfold goBack. carry. Qed.

Lemma carries_goForward P : carries P (goForward host).
Proof. unfold goForward. carry. Qed.
#[local] Hint Resolve carries_typeInElement carries_pressKey carries_scroll
  carries_goBack carries_goForward : carries.

(** The one place where the executor drops an error of the page
    controller: the wait after a navigation. *)
Lemma carries_waitForNavigationCaught :
  carries (λ e, e = "Navigation timeout") (waitForNavigationCaught host).
Proof.
  intros w. unfold waitForNavigationCaught, swallow, waitForNavigation.
  destruct (loadEventFires host (hostLog w)); simpl.
  - exists []. by rewrite app_nil_r.
  - exists ["Navigation timeout"]. split; [by repeat constructor|].
    by rewrite app_nil_r.
Qed.

Lemma carries_showOverlay P status : carries P (showOverlay host status).
Proof.
  intros w. exists []. unfold showOverlay.
  destruct (overlayReply host (hostLog w)); simpl; by rewrite app_nil_r.
Qed.

Lemma carries_hideOverlay P : carries P (hideOverlay host).
Proof.
  intros w. exists []. unfold hideOverlay.
  destruct (overlayReply host (hostLog w)); simpl; by rewrite app_nil_r.
Qed.

Lemma hideOverlay_raised w : raised (hideOverlay host w).2 = raised w.
Proof.
  unfold hideOverlay. by destruct (overlayReply host (hostLog w)).
Qed.

(** Every action accounts for the errors raised below it; only [navigate]
    may drop one, the timeout of its wait for the load event. *)
Lemma executeAction_carries action params :
  carries (λ e, action = "navigate" ∧ e = "Navigation timeout")
    (executeAction host action params).
Proof.
  unfold executeAction. apply carries_bind; [apply carries_external|].
  intros _. repeat case_decide; subst;
    unfold navigateTo, scrollToElement, scrollTo, getPageInfo,
      getViewportSize, captureScreenshot, selectOption, reload;
    try (carry; fail).
  destruct (truthy (p_url params)); carry.
  eapply carries_mono; [|apply carries_waitForNavigationCaught].
  by intros e ->.
Qed.

(** The executor's reply tells of every error raised while it ran, save a
    dropped navigation timeout: a success reply means none other was
    raised, a failure reply carries the last one. *)
Lemma handleMCPRequest_accounts action params w :
  ∃ dropped,
    Forall (λ e, action = "navigate" ∧ e = "Navigation timeout") dropped
    ∧ raised (handleMCPRequest host action params w).2 =
        raised w ++ dropped ++
        (if Bridge.success (handleMCPRequest host action params w).1
         then []
         else option_list (Bridge.error (handleMCPRequest host action params w).1))
    ∧ (Bridge.success (handleMCPRequest host action params w).1 = false →
       is_Some (Bridge.error (handleMCPRequest host action params w).1)).
Proof.
  unfold handleMCPRequest.
  match goal with
  | |- context [match ?m w with _ => _ end] =>
    assert (Hc : carries
              (λ e, action = "navigate" ∧ e = "Navigation timeout") m)
  end.
  { pose proof (executeAction_carries action (default noParams params)).
    destruct (assoc action OPERATION_STATUS); carry;
      apply carries_showOverlay || apply carries_hideOverlay. }
  destruct (Hc w) as (dropped & HP & Hr). exists dropped.
  split; [done|].
  match goal with
  | |- context [match ?m w with _ => _ end] => destruct (m w) as [[r|e] w1]
  end; simpl in *.
  - by rewrite Hr.
  - rewrite hideOverlay_raised, Hr. eauto.
Qed.

(** The screenshot action: one capture in the requested format, one read
    of [window.innerWidth] and [window.innerHeight]; the reply pairs the
    captured data with the viewport's size. *)
Lemma executeAction_screenshot params w :
  accepts host → attached w = true →
  getActivePageReply host (hostLog w) = Ok tt →
  (executeAction host "screenshot" params w).1 =
    Ok (JObj [("image", JStr (screenshotReply host (hostLog w)));
              ("width", JInt (innerWidth (window w)));
              ("height", JInt (innerHeight (window w)))])
  ∧ hostLog (executeAction host "screenshot" params w).2 =
      hostLog w ++
      [HSendCommand (tabId w)
         (PageCaptureScreenshot
            (opt_str_or (Some (opt_str_or (p_format params) "png")) "png")
            (p_quality params) None (default true (p_fullPage params)));
       HSendCommand (tabId w) (RuntimeEvaluate ViewportSizeScript)]
  ∧ overlay (executeAction host "screenshot" params w).2 = overlay w.
Proof.
  intros Ha H Hp. unfold executeAction, bind, external. rewrite Hp.
  simpl. unfold captureScreenshot, getViewportSize, bind.
  rewrite send_accepted by done. simpl.
  rewrite evaluate_accepted by done. simpl.
  by rewrite <- app_assoc.
Qed.

Lemma handleMCPRequest_screenshot params w :
  accepts host → attached w = true →
  getActivePageReply host (hostLog w) = Ok tt →
  (handleMCPRequest host "screenshot" params w).1 =
  {| Bridge.success := true;
     Bridge.data :=
       Some (JObj [("image", JStr (screenshotReply host (hostLog w)));
                   ("width", JInt (innerWidth (window w)));
                   ("height", JInt (innerHeight (window w)))]);
     Bridge.error := None |}.
Proof.
  intros Ha H Hp. unfold handleMCPRequest.
  change (assoc "screenshot" OPERATION_STATUS)
    with (Some "Taking screenshot...").
  set (ps := default noParams params).
  assert (Hstep : ∀ w0, attached w0 = true → hostLog w0 = hostLog w →
            window w0 = window w →
            (executeAction host "screenshot" ps w0).1 =
            Ok (JObj [("image", JStr (screenshotReply host (hostLog w)));
                      ("width", JInt (innerWidth (window w)));
                      ("height", JInt (innerHeight (window w)))])).
  { intros w0 H0 Hl Hw.
    destruct (executeAction_screenshot ps w0 Ha H0) as (-> & _);
      [by rewrite Hl|]. by rewrite Hl, Hw. }
  unfold bind at 1. unfold showOverlay.
  destruct (overlayReply host (hostLog w)); unfold bind;
    match goal with
    | |- context [executeAction host "screenshot" ps ?w0] =>
      specialize (Hstep w0 H eq_refl eq_refl);
      destruct (executeAction host "screenshot" ps w0) as [r w2]
    end; simpl in Hstep; subst r; unfold hideOverlay;
    by destruct (overlayReply host (hostLog w2)).
Qed.

End ExecutorFacts.

(** ** The tool dispatcher, end to end *)
Section DispatcherFacts.
Import Bridge Dispatcher.

Variable rt : Runtime.
Variable host : Cdp.Host.

(** One tool call on a reachable bridge always ends in a response: with a
    peer connected, the executor's success reply goes through [onResult]
    and its failure reply becomes the error response for its message;
    with none, the error response for the not-connected message. *)
Lemma invoke_response evs name args w :
  (invoke rt host name args (run init evs) w).1.1 =
  Some (if connected (run init evs) then
          let reply :=
            (Background.handleMCPRequest host (getActionFromToolName name)
               args w).1 in
          if success reply then onResult rt name (data reply)
          else onError (opt_str_or (error reply) "Unknown error")
        else onError notConnectedMessage).
Proof.
  set (st := run init evs). pose proof (Inv_reachable evs) as HI.
  fold st in HI. unfold invoke.
  assert (Hp : nextPromise st ∉ (settled st).*1).
  { intros H%(inv_settled_lt _ HI). lia. }
  assert (Hps : ∀ s st1,
            settled st1 = settled st ++ [(nextPromise st, s)] →
            promiseState (nextPromise st) st1 = Some s)
    by (intros; by eapply promiseState_first).
  destruct (connected st) eqn:Hc.
  - unfold connected in Hc. unfold sendToExtension.
    destruct (extensionClient st) as [ws|]; [|done]. rewrite Hc.
    destruct (Background.handleMCPRequest host _ args w) as [reply w1].
    simpl. rewrite lookup_insert_eq. simpl.
    destruct (success reply); simpl.
    + by rewrite (Hps (Resolved (data reply))) by reflexivity.
    + by rewrite (Hps (Rejected (opt_str_or (error reply) "Unknown error")))
        by reflexivity.
  - rewrite sendToExtension_disconnected by done. simpl.
    by rewrite (Hps (Rejected notConnectedMessage)) by reflexivity.
Qed.

Lemma numberToString_int z : numberToString rt (inject_Z z) = pretty z.
Proof. unfold numberToString. by rewrite inject_Z_Qred. Qed.

(** A result object with a non-empty image string, under the screenshot
    tool's name: an image part declared as PNG and a caption made of the
    result's width and height. *)
Lemma onResult_screenshot image width height :
  image ≠ "" →
  onResult rt "browser_screenshot"
    (Some (JObj [("image", JStr image); ("width", Background.JInt width);
                 ("height", Background.JInt height)])) =
  {| content :=
       [ImageContent (JStr image) "image/png";
        TextContent ("Screenshot captured: " +:+ pretty width +:+ "x"
                     +:+ pretty height)];
     isError := false |}.
Proof.
  intros Hi. unfold onResult. simpl.
  rewrite bool_decide_eq_false_2 by done. simpl.
  unfold Background.JInt. by rewrite !numberToString_int.
Qed.

(** C10.  A screenshot call that reaches an attached page through a
    connected bridge and captures a non-empty image is answered with two
    parts: the image, declared as "image/png" whatever format the
    arguments ask for, and the caption "Screenshot captured: WxH" where W
    and H are the page's [window.innerWidth] and [window.innerHeight]. *)
Theorem screenshot_response_png_viewport (evs : list Event)
    (args : option Params) (w : Cdp.World) :
  connected (run init evs) = true → Cdp.accepts host →
  Cdp.attached w = true →
  Cdp.getActivePageReply host (Cdp.hostLog w) = Ok tt →
  Cdp.screenshotReply host (Cdp.hostLog w) ≠ "" →
  (invoke rt host "browser_screenshot" args (run init evs) w).1.1 =
  Some {| content :=
            [ImageContent (JStr (Cdp.screenshotReply host (Cdp.hostLog w)))
               "image/png";
             TextContent
               ("Screenshot captured: "
                +:+ pretty (Cdp.innerWidth (Cdp.window w)) +:+ "x"
                +:+ pretty (Cdp.innerHeight (Cdp.window w)))];
          isError := false |}.
Proof.
  intros Hc Ha H Hp Hi. rewrite invoke_response, Hc.
  change (getActionFromToolName "browser_screenshot") with "screenshot".
  rewrite handleMCPRequest_screenshot by done. cbv zeta. simpl success.
  cbv iota. simpl data. by rewrite onResult_screenshot.
Qed.

End DispatcherFacts.


(** C4, where the code departs from it.  On a page whose collector has just
    been installed by a first read, 1001 [error] events leave 1001 entries
    in the buffer, above its cap of 1000: the error listener appends without
    the length check of the console wrappers. *)
Theorem console_buffer_exceeds_cap_on_errors :
  let installed := (Cdp.drainLogs Samples.samplePage).2 in
  let after :=
    Cdp.pageRun installed
      (replicate 1001 (Cdp.ErrorEvent "boom" "app.js" 1 0)) in
  Cdp.agentsCCMaxLogs after = 1000%N
  ∧ length <$> Cdp.agentsCCConsoleLogs after = Some 1001%nat.
Proof. vm_compute. done. Qed.

(** The same page under 1001 console calls stays at the cap. *)
Example console_buffer_capped_on_console_calls :
  let installed := (Cdp.drainLogs Samples.samplePage).2 in
  let after :=
    Cdp.pageRun installed
      (replicate 1001 (Cdp.ConsoleCall Cdp.c_log ["x"] 0)) in
  length <$> Cdp.agentsCCConsoleLogs after = Some 1000%nat.
Proof. vm_compute. done. Qed.

(** The first [attach] of a fresh session on a host that grants it. *)
Lemma attach_detach_idempotent_witness :
  (Cdp.attach Samples.quietHost Samples.freshWorld).1 = Ok tt
  ∧ Cdp.hostLog
      (Cdp.attach Samples.quietHost
         (Cdp.attach Samples.quietHost Samples.freshWorld).2).2
    = [Cdp.HAttach 1 "1.3"].
Proof.
  split; [reflexivity|].
  exact (proj1 (proj2 (proj2
    (attach_detach_idempotent Samples.quietHost Samples.freshWorld eq_refl)))).
Defined.

(** [detach] on a host that answers "not attached": no error, and the
    session ends up detached. *)
Example detach_on_gone_tab :
  Cdp.detach Samples.goneHost Samples.attachedWorld
  = (Ok tt,
     {| Cdp.tabId := 1; Cdp.attached := false; Cdp.listening := false;
        Cdp.hostLog := [Cdp.HAttach 1 "1.3"; Cdp.HDetach 1];
        Cdp.window := Samples.samplePage;
        Cdp.raised := ["Debugger is not attached to the tab."];
        Cdp.overlay := [] |}).
Proof. reflexivity. Qed.

(** An attached, listening session whose debugger the host takes away. *)
Lemma send_requires_attached_witness :
  Cdp.wired Samples.attachedWorld
  ∧ Cdp.attached (Cdp.onDetach 1 Samples.attachedWorld) = false.
Proof.
  assert (H : Cdp.wired Samples.attachedWorld)
    by (intros _; reflexivity).
  split; [exact H|].
  exact (proj1 (proj1 (proj2
    (send_requires_attached Samples.quietHost Cdp.PageReload
       Samples.attachedWorld H)))).
Defined.

Lemma quietHost_accepts : Cdp.accepts Samples.quietHost.
Proof. by intros calls T c. Qed.

(** The spec's scenario 2: a click on [#search], a 40 by 20 element at
    (100, 200), evaluates once and then moves, presses and releases at the
    same point, which is (120, 210). *)
Example scenario_click_search :
  ∃ x y,
    Cdp.hostLog (Cdp.clickElement Samples.quietHost "#search"
                   Samples.attachedWorld).2
    = [Cdp.HAttach 1 "1.3";
       Cdp.HSendCommand 1
         (Cdp.RuntimeEvaluate (Cdp.ElementCenterScript "#search"))]
      ++ Cdp.pointerEvents 1 x y "left" 1
    ∧ (x == 120)%Q ∧ (y == 210)%Q.
Proof.
  eexists _, _. split; [|split].
  - destruct (clickElement_found Samples.quietHost "#search"
                Samples.attachedWorld 1 Samples.searchBox quietHost_accepts
                eq_refl eq_refl eq_refl) as [_ ->].
    reflexivity.
  - reflexivity.
  - reflexivity.
Qed.

(** The spec's example for [selectOption]: with value "a" and text "B"
    both given, the option with value "a" is the one selected, although
    another option has the text "B". *)
Example scenario_select_value_over_text :
  let r := Cdp.selectOption Samples.quietHost "#country" (Some "a")
             (Some "B") None Samples.attachedWorld in
  r.1 = Ok {| Cdp.selected_value := "a"; Cdp.selected_text := "A" |}
  ∧ Cdp.selectedIndex <$> (Cdp.elements (Cdp.window r.2) !! 2%N) = Some 0%Z
  ∧ Cdp.dispatched (Cdp.window r.2) = [(2%N, "change"); (2%N, "input")].
Proof. vm_compute. done. Qed.

(** The selector [input[name='q']] matches the search box of the sample
    page, and the click fails all the same. *)
Lemma clickElement_quoted_selector_fails_witness :
  Cdp.accepts Samples.quietHost
  ∧ Cdp.lookupElement Samples.samplePage "input[name='q']"
    = Ok (Some (1%N, Samples.searchBox))
  ∧ (Cdp.clickElement Samples.quietHost "input[name='q']"
       Samples.attachedWorld).1 = Throw "Uncaught".
Proof.
  split; [exact quietHost_accepts|]. split; [reflexivity|].
  exact (proj1 (clickElement_quoted_selector_fails Samples.quietHost
                  Samples.attachedWorld 1 Samples.searchBox quietHost_accepts
                  eq_refl eq_refl)).
Defined.

(** The selector [select[name='c']] names the dropdown of the sample page
    and the value "b" is one of its options; nothing gets selected. *)
Lemma selectOption_quoted_selector_fails_witness :
  Cdp.lookupElement Samples.samplePage "select[name='c']"
  = Ok (Some (2%N, Samples.dropdown))
  ∧ (Cdp.selectOption Samples.quietHost "select[name='c']" (Some "a") None
       None Samples.attachedWorld).1 = Throw "Uncaught".
Proof.
  split; [reflexivity|].
  exact (proj1 (selectOption_quoted_selector_fails Samples.quietHost
                  Samples.attachedWorld 2 Samples.dropdown (Some "a") None
                  None {| Cdp.opt_value := "a"; Cdp.opt_text := "A" |}
                  quietHost_accepts eq_refl eq_refl eq_refl eq_refl)).
Defined.


(** A JPEG screenshot of the sample page, 1280 by 720. *)
Lemma screenshot_response_png_viewport_witness :
  Bridge.connected (Bridge.run Bridge.init [Bridge.EvConnection]) = true
  ∧ (Dispatcher.invoke Samples.plainRuntime Samples.quietHost
       "browser_screenshot" (Some Samples.jpegParams)
       (Bridge.run Bridge.init [Bridge.EvConnection])
       Samples.attachedWorld).1.1
    = Some {| Dispatcher.content :=
                [Dispatcher.ImageContent (JStr "iVBORw0KGgo=") "image/png";
                 Dispatcher.TextContent "Screenshot captured: 1280x720"];
              Dispatcher.isError := false |}.
Proof.
  split; [reflexivity|].
  exact (screenshot_response_png_viewport Samples.plainRuntime
           Samples.quietHost [Bridge.EvConnection] (Some Samples.jpegParams)
           Samples.attachedWorld eq_refl quietHost_accepts eq_refl eq_refl
           ltac:(discriminate)).
Defined.

(** The bridge after a connection, two calls, the first one's timeout and
    the second one's reply. *)
Lemma pending_entry_unique_removed_once_witness :
  NoDup (Bridge.issued
           (Bridge.run Bridge.init
              [Bridge.EvConnection; Bridge.EvCall "click" None;
               Bridge.EvCall "reload" None; Bridge.EvTimeout 0;
               Bridge.EvMessage 0
                 (Bridge.Message "RESPONSE" "req_2"
                    (Some {| Bridge.success := true; Bridge.data := None;
                             Bridge.error := None |}))])).
Proof.
  exact (proj1 (pending_entry_unique_removed_once
    [Bridge.EvConnection; Bridge.EvCall "click" None;
     Bridge.EvCall "reload" None; Bridge.EvTimeout 0;
     Bridge.EvMessage 0
       (Bridge.Message "RESPONSE" "req_2"
          (Some {| Bridge.success := true; Bridge.data := None;
                   Bridge.error := None |}))])).
Defined.

(** * Further properties *)

(** ** The RPC bridge *)
Section BridgeMoreFacts.
Import Bridge BridgeMore.

Lemma pending_step_other st e id entry :
  Inv st → pendingRequests st !! id = Some entry →
  ¬ settles id (timeout entry) e →
  pendingRequests (step st e) !! id = Some entry.
Proof.
  intros HI He Hns. destruct e as [|ws m|ws|ws|h|action params]; simpl.
  - done.
  - destruct m as [|type id' payload]; [done|]. simpl in *.
    case_decide as Ht; [|done].
    destruct (pendingRequests st !! id') as [e'|] eqn:He'; [|done].
    assert (id' ≠ id) by (intros ->; by apply Hns).
    destruct payload as [pl|]; [destruct (success pl)|]; simpl;
      by rewrite lookup_delete_ne.
  - done.
  - unfold onClose. by case_decide.
  - unfold onTimeout. destruct (timers st !! h) as [t|] eqn:Ht; [|done].
    simpl. rewrite lookup_delete_ne; [done|]. intros Heq.
    pose proof (inv_entry_of _ HI _ _ Ht) as He'. rewrite Heq, He in He'.
    apply Hns. simpl. by simplify_eq.
  - unfold sendToExtension. destruct (extensionClient st); [|done].
    case_bool_decide; [|done]. simpl. rewrite lookup_insert_ne; [done|].
    intros <-. rewrite Inv_fresh in He; [done|done|lia].
Qed.

(** Only a response with its id or its own timer takes a call out of the
    pending map: through connections, replaced or closed sockets, further
    calls, other calls' responses and timers, unparseable frames and
    messages of other types, the entry stays as it is, its timer stays
    armed and its caller stays unsettled.  In particular a disconnect does
    not reject the calls in flight. *)
Theorem pending_until_response_or_timeout (evs0 evs : list Event)
    (id : string) (entry : PendingEntry) :
  pendingRequests (run init evs0) !! id = Some entry →
  Forall (λ e, ¬ settles id (timeout entry) e) evs →
  let st := run (run init evs0) evs in
  pendingRequests st !! id = Some entry
  ∧ (∃ action, timers st !! timeout entry =
       Some {| t_id := id; t_action := action; t_caller := caller entry;
               t_delay := 30000 |})
  ∧ promiseState (caller entry) st = None.
Proof.
  intros He Hevs st.
  assert (HI : Inv st) by apply Inv_run, Inv_reachable.
  assert (Hp : pendingRequests st !! id = Some entry).
  { unfold st. clear st HI. pose proof (Inv_reachable evs0) as HI0.
    revert He HI0. generalize (run init evs0). clear evs0.
    induction Hevs as [|e evs Hne _ IH]; intros st0 He HI0; [done|].
    simpl. apply IH; [by apply pending_step_other|by apply Inv_step]. }
  split_and!; [done|apply (inv_timer_of _ HI _ _ Hp)|].
  unfold promiseState. rewrite filter_fst_absent; [done|].
  apply (inv_caller_unsettled _ HI _ _ Hp).
Qed.

(** A call survives the peer going away and another one connecting. *)
Lemma pending_until_response_or_timeout_witness :
  pendingRequests (run init [EvConnection; EvCall "click" None]) !! "req_1"
    = Some {| caller := 0; timeout := 0 |}
  ∧ pendingRequests
      (run (run init [EvConnection; EvCall "click" None])
         [EvClosing 0; EvClose 0; EvConnection; EvCall "reload" None;
          EvMessage 1 Unparseable]) !! "req_1"
    = Some {| caller := 0; timeout := 0 |}.
Proof.
  split; [reflexivity|].
  refine (proj1 (pending_until_response_or_timeout
                   [EvConnection; EvCall "click" None]
                   [EvClosing 0; EvClose 0; EvConnection;
                    EvCall "reload" None; EvMessage 1 Unparseable]
                   "req_1" {| caller := 0; timeout := 0 |} eq_refl _)).
  repeat constructor; simpl; tauto.
Defined.

Lemma consecutive_step st e :
  requestIdCounter st = N.of_nat (length (sent st)) →
  issued st = nthId <$> seq 0 (length (sent st)) →
  requestIdCounter (step st e) = N.of_nat (length (sent (step st e)))
  ∧ issued (step st e) = nthId <$> seq 0 (length (sent (step st e))).
Proof.
  intros Hc Hi. destruct e as [|ws m|ws|ws|h|action params]; simpl; try done.
  - destruct m as [|type id payload]; [done|]. simpl.
    case_decide; [|done]. destruct (pendingRequests st !! id); [|done].
    by destruct payload as [pl|]; [destruct (success pl)|].
  - unfold onClose. by case_decide.
  - unfold onTimeout. by destruct (timers st !! h).
  - unfold sendToExtension. destruct (extensionClient st); [|done].
    case_bool_decide; [|done]. unfold issued in *. simpl.
    rewrite length_app, fmap_app. simpl.
    replace (length (sent st) + 1) with (S (length (sent st))) by lia.
    rewrite seq_S, fmap_app, <- Hi. simpl. split; [lia|].
    unfold nthId. by rewrite <- Hc.
Qed.

(** The ids of the requests written are consecutive in the order of
    writing: the [k]-th request (from 0) carries ["req_" k+1].  The counter
    equals the number of requests written, so a call rejected for want of a
    peer uses up no id. *)
Theorem issued_ids_consecutive (evs : list Event) :
  let st := run init evs in
  requestIdCounter st = N.of_nat (length (sent st))
  ∧ issued st = nthId <$> seq 0 (length (sent st))
  ∧ ∀ k, (k < length (sent st))%nat →
      issued st !! k = Some ("req_" +:+ pretty (N.of_nat (S k))).
Proof.
  intros st.
  assert (H : requestIdCounter st = N.of_nat (length (sent st))
              ∧ issued st = nthId <$> seq 0 (length (sent st))).
  { unfold st. clear st.
    assert (Hc0 : requestIdCounter init = N.of_nat (length (sent init)))
      by done.
    assert (Hi0 : issued init = nthId <$> seq 0 (length (sent init)))
      by done.
    revert Hi0 Hc0. generalize init.
    induction evs as [|e evs IH]; intros st0 Hi Hc; [done|].
    simpl. destruct (consecutive_step st0 e Hc Hi). by apply IH. }
  destruct H as [Hc Hi]. split_and!; [done..|].
  intros k Hk. rewrite Hi, list_lookup_fmap, lookup_seq_lt by done. simpl.
  unfold nthId, requestId. by rewrite <- Nat2N.inj_succ.
Qed.

Lemma timers_size_step st e :
  Inv st → size (timers st) = size (pendingRequests st) →
  size (timers (step st e)) = size (pendingRequests (step st e)).
Proof.
  intros HI Hs. destruct e as [|ws m|ws|ws|h|action params]; simpl; try done.
  - destruct m as [|type id payload]; [done|]. simpl.
    case_decide; [|done].
    destruct (pendingRequests st !! id) as [e|] eqn:He; [|done].
    destruct (inv_timer_of _ HI _ _ He) as (a & Ht).
    assert (size (delete (timeout e) (timers st))
            = size (delete id (pendingRequests st)))
      by (rewrite !map_size_delete_Some by eauto; lia).
    by destruct payload as [pl|]; [destruct (success pl)|].
  - unfold onClose. by case_decide.
  - unfold onTimeout. destruct (timers st !! h) as [t|] eqn:Ht; [|done].
    pose proof (inv_entry_of _ HI _ _ Ht). simpl.
    rewrite !map_size_delete_Some by eauto. lia.
  - unfold sendToExtension. destruct (extensionClient st); [|done].
    case_bool_decide; [|done]. simpl.
    rewrite !map_size_insert_None; [lia|apply Inv_fresh; [done|lia]|].
    destruct (timers st !! nextTimer st) eqn:E; [|done].
    apply (inv_timer_lt _ HI) in E. lia.
Qed.

(** No timer outlives its call and no call loses its timer: in every
    reachable state there are as many armed timers as pending entries, and
    every armed timer is the one recorded in a live entry for its id. *)
Theorem timers_match_pending (evs : list Event) :
  let st := run init evs in
  size (timers st) = size (pendingRequests st)
  ∧ (∀ h t, timers st !! h = Some t →
       pendingRequests st !! t_id t =
       Some {| caller := t_caller t; timeout := h |})
  ∧ (∀ id e, pendingRequests st !! id = Some e →
       is_Some (timers st !! timeout e)).
Proof.
  intros st. pose proof (Inv_reachable evs) as HI. fold st in HI.
  split_and!.
  - unfold st. pose proof Inv_init as HI0.
    assert (Hs : size (timers init) = size (pendingRequests init)) by done.
    revert HI0 Hs. generalize init. clear st HI.
    induction evs as [|e evs IH]; intros st0 HI0 Hs; [done|].
    simpl. apply IH; [by apply Inv_step|by apply timers_size_step].
  - apply (inv_entry_of _ HI).
  - intros id e He. destruct (inv_timer_of _ HI _ _ He) as (a & ->). eauto.
Qed.

End BridgeMoreFacts.

(** ** The action executor and the tool catalogue *)
Section ExecutorMoreFacts.
Import Cdp Background Catalogue Frames.

Variable host : Host.

Lemma keeps_ret {A X} (f : World → X) (a : A) : keeps f (ret a).
Proof. by intros w. Qed.

Lemma keeps_throw {A X} (f : World → X) e :
  framed f → keeps f (throw (A := A) e).
Proof. intros (Hr & _ & _) w. simpl. apply Hr. Qed.

Lemma keeps_bind {A B X} (f : World → X) (m : M A) (k : A → M B) :
  keeps f m → (∀ a, keeps f (k a)) → keeps f (bind m k).
Proof.
  intros Hm Hk w. unfold bind. specialize (Hm w).
  destruct (m w) as [[a|e] w1]; simpl in *; [|done].
  by rewrite Hk.
Qed.

Lemma keeps_swallow {A X} (f : World → X) (m : M A) :
  keeps f m → keeps f (swallow m).
Proof. intros Hm w. apply Hm. Qed.

Lemma keeps_external {A X} (f : World → X) (reply : list HostCall → Res A) :
  framed f → keeps f (external reply).
Proof.
  intros (Hr & _ & _) w. unfold external.
  destruct (reply (hostLog w)); simpl; [done|apply Hr].
Qed.

Lemma keeps_send {T X} (f : World → X) (c : Command T) :
  framed f → keeps f (send host c).
Proof.
  intros (Hr & Hc & Hw) w. unfold send.
  destruct (attached w); simpl; [|apply Hr]. unfold debuggerSendCommand.
  destruct (commandError host (hostLog w) T c); simpl.
  - by rewrite Hr, Hc.
  - destruct (hostResult host (hostLog w) c (window w)). simpl.
    by rewrite Hw, Hc.
Qed.

Lemma keeps_waitForNavigationCaught {X} (f : World → X) :
  framed f → keeps f (waitForNavigationCaught host).
Proof.
  intros (Hr & _ & _). apply keeps_swallow. intros w.
  unfold waitForNavigation.
  destruct (loadEventFires host (hostLog w)); simpl; [done|apply Hr].
Qed.

(** Walks through a computation with the rules above. *)
Ltac keep :=
  repeat first
    [ apply keeps_ret | apply keeps_throw; assumption
    | apply keeps_external; assumption | apply keeps_send; assumption
    | apply keeps_waitForNavigationCaught; assumption
    | apply keeps_bind; [|intros ?]
    | match goal with
      | |- keeps _ (match ?x with _ => _ end) => destruct x
      end
    | assumption ].

Lemma keeps_insertEach {X} (f : World → X) cs :
  framed f → keeps f (insertEach host cs).
Proof.
  intros Hf. induction cs as [|c cs IH]; [apply keeps_ret|].
  change (insertEach host (c :: cs))
    with (bind (send host (InputInsertText c)) (λ _, insertEach host cs)).
  keep.
Qed.

(** No action touches what the bookkeeping leaves alone: not the overlay
    log, not the attachment flag, not the tab id. *)
Lemma keeps_executeAction {X} (f : World → X) action params :
  framed f → keeps f (executeAction host action params).
Proof.
  intros Hf. pose proof (keeps_insertEach f) as Hins.
  unfold executeAction. apply keeps_bind; [by apply keeps_external|].
  intros _. repeat case_decide; subst;
    unfold navigateTo, getPageInfo, clickElement,
      clickAt, typeInElement, type, scrollToElement, scrollTo, scroll,
      captureScreenshot, getViewportSize, pressKey, selectOption, goBack,
      goForward, reload, evaluate;
    keep; by apply Hins.
Qed.

Lemma framed_overlay : framed overlay.
Proof. by split_and!. Qed.

(** The overlay messages of one request. *)
Lemma overlay_log (action : string) (params : option Params) (w : World) :
  (∀ calls, overlayReply host calls = Ok tt) →
  overlay (handleMCPRequest host action params w).2 =
  overlay w ++
  match assoc action OPERATION_STATUS with
  | Some status => [Some status; None]
  | None =>
    if Bridge.success (handleMCPRequest host action params w).1 then []
    else [None]
  end.
Proof.
  intros Hov. unfold handleMCPRequest.
  pose proof (keeps_executeAction overlay action (default noParams params)
                framed_overlay) as Hk.
  destruct (assoc action OPERATION_STATUS) as [status|]; unfold bind;
    unfold showOverlay, hideOverlay, ret; rewrite ?Hov;
    match goal with
    | |- context [executeAction host action ?ps ?w0] =>
      specialize (Hk w0); destruct (executeAction host action ps w0)
        as [[r|e] w1]
    end; simpl in *; rewrite ?Hov; simpl; rewrite Hk;
    by rewrite <- ?app_assoc, ?app_nil_r.
Qed.


Lemma quietHost_overlay_ok :
  ∀ calls, overlayReply Samples.quietHost calls = Ok tt.
Proof. done. Qed.



End ExecutorMoreFacts.


(** ** The page controller *)
Section PageMoreFacts.
Import Cdp PageMore.

Variable host : Host.

Lemma append_empty_r (s : string) : s +:+ "" = s.
Proof.
  induction s as [|a s IH]; [done|].
  change (String a (s +:+ "") = String a s). by rewrite IH.
Qed.

Lemma glue_chars text : glue (chars text) = text.
Proof.
  unfold chars. induction text as [|c text IH]; [done|].
  cbn [Text.codePoints]. cbv zeta. destruct text as [|d rest]; [done|].
  destruct (Text.codePoints (String d rest)) as [|piece pieces] eqn:E.
  - simpl in *. by rewrite <- IH.
  - destruct (Text.isContinuation d); simpl in *; by rewrite <- IH.
Qed.

Lemma insertEach_accepted cs w :
  accepts host → attached w = true →
  (insertEach host cs w).1 = Ok tt
  ∧ hostLog (insertEach host cs w).2 = hostLog w ++ insertions (tabId w) cs
  ∧ attached (insertEach host cs w).2 = true.
Proof.
  intros Ha. revert w. induction cs as [|c cs IH]; intros w H; simpl.
  - by rewrite app_nil_r.
  - unfold bind. rewrite send_accepted by done. simpl.
    match goal with
    | |- context [insertEach host cs ?w0] =>
      destruct (IH w0) as (Hr & Hl & Hat); [done|]
    end.
    rewrite Hl. simpl. by rewrite <- app_assoc.
Qed.

(** A text of two code points, one of them outside the basic plane (six
    bytes, three UTF-16 code units), is typed in two insertions. *)
Example chars_by_code_point :
  chars "é😀" = ["é"; "😀"] ∧ Text.length "é😀" = 3%nat.
Proof. vm_compute. done. Qed.

(** [type] on an attached session of an accepting host: without a delay
    the whole text goes to the host in one insertion; with a delay there is
    one insertion per code point of the text (what [for (const char of
    text)] iterates), in the text's order.  Either way the insertions, put
    end to end, are the text, and nothing else is sent. *)
Theorem type_inserts_the_text (text : string) (delay : option Q) (w : World) :
  accepts host → attached w = true →
  let pieces := if Qeq_bool (default 0%Q delay) 0 then [text]
                else chars text in
  (type host text delay w).1 = Ok tt
  ∧ hostLog (type host text delay w).2 =
      hostLog w ++ insertions (tabId w) pieces
  ∧ glue pieces = text.
Proof.
  intros Ha H pieces. unfold type, pieces.
  destruct (Qeq_bool (default 0%Q delay) 0).
  - rewrite send_accepted by done. simpl. split_and!; [done..|].
    apply append_empty_r.
  - destruct (insertEach_accepted (chars text) w Ha H) as (Hr & Hl & _).
    split_and!; [done..|]. apply glue_chars.
Qed.

Lemma send_attached_log {T} (c : Command T) w :
  attached w = true →
  hostLog (send host c w).2 = hostLog w ++ [HSendCommand (tabId w) c]
  ∧ tabId (send host c w).2 = tabId w
  ∧ attached (send host c w).2 = true.
Proof.
  intros H. unfold send, debuggerSendCommand. rewrite H. simpl.
  destruct (commandError host (hostLog w) T c); [done|].
  by destruct (hostResult host (hostLog w) c (window w)).
Qed.

Lemma send_outcome {T} (c : Command T) w :
  attached w = true →
  hostLog (send host c w).2 = hostLog w ++ [HSendCommand (tabId w) c]
  ∧ tabId (send host c w).2 = tabId w
  ∧ attached (send host c w).2 = true
  ∧ match commandError host (hostLog w) T c with
    | Some e =>
      (send host c w).1 = Throw e ∧ raised (send host c w).2 = raised w ++ [e]
    | None =>
      (∃ r, (send host c w).1 = Ok r) ∧ raised (send host c w).2 = raised w
    end.
Proof.
  intros H. unfold send, debuggerSendCommand. rewrite H. simpl.
  destruct (commandError host (hostLog w) T c); [done|].
  destruct (hostResult host (hostLog w) c (window w)). simpl.
  split_and!; try done. by eexists.
Qed.

(** [clickAt] stops at the first command the host refuses.  Detached, it
    throws "Debugger not attached" and calls nothing.  Attached, it sends
    move, press and release in this order up to and including the first
    one that is refused, throws that refusal's error and raises nothing
    else; it returns normally exactly when none was refused. *)
Theorem clickAt_stops_at_first_failure (x y : Q) (button : option string)
    (clickCount : option Q) (w : World) :
  let events := pointerEvents (tabId w) x y (opt_str_or button "left")
                  (clickCountOr1 clickCount) in
  let made := (sendUntilRefused host (hostLog w) events).1 in
  let refusal := (sendUntilRefused host (hostLog w) events).2 in
  (attached w = false →
     clickAt host x y button clickCount w =
     (Throw "Debugger not attached", noteRaised "Debugger not attached" w))
  ∧ (attached w = true →
     hostLog (clickAt host x y button clickCount w).2 = hostLog w ++ made
     ∧ (clickAt host x y button clickCount w).1 =
         match refusal with
         | Some e => Throw e
         | None => Ok tt
         end
     ∧ raised (clickAt host x y button clickCount w).2 =
         raised w ++ option_list refusal).
Proof.
  intros events made refusal. subst made refusal events. split.
  { intros E. unfold clickAt, bind, send. by rewrite E. }
  intros E. unfold clickAt, bind, pointerEvents.
  cbn [sendUntilRefused refused].
  match goal with |- context [send host ?c w] =>
    destruct (send_outcome c w E) as (L1 & T1 & A1 & O1);
    destruct (send host c w) as [r1 w1] end.
  simpl in L1, T1, A1, O1.
  destruct (commandError host (hostLog w) _ _) as [e1|].
  { destruct O1 as [-> R1]. simpl. by rewrite L1, R1. }
  destruct O1 as [[[] ->] R1].
  match goal with |- context [send host ?c w1] =>
    destruct (send_outcome c w1 A1) as (L2 & T2 & A2 & O2);
    destruct (send host c w1) as [r2 w2] end.
  simpl in L2, T2, A2, O2. rewrite L1 in O2.
  destruct (commandError host (hostLog w ++ _) _ _) as [e2|].
  { destruct O2 as [-> R2]. simpl. rewrite L2, L1, T1, R2, R1.
    by rewrite <- app_assoc. }
  destruct O2 as [[[] ->] R2].
  match goal with |- context [send host ?c w2] =>
    destruct (send_outcome c w2 A2) as (L3 & T3 & A3 & O3);
    destruct (send host c w2) as [r3 w3] end.
  simpl in L3, T3, A3, O3. rewrite L2, L1, T1 in O3.
  destruct (commandError host ((hostLog w ++ _) ++ _) _ _) as [e3|].
  { destruct O3 as [-> R3]. simpl. rewrite L3, L2, L1, T2, T1, R3, R2, R1.
    by rewrite <- !app_assoc. }
  destruct O3 as [[[] ->] R3]. simpl.
  rewrite L3, L2, L1, T2, T1, R3, R2, R1, app_nil_r.
  by rewrite <- !app_assoc.
Qed.

End PageMoreFacts.

(** ** History, console capture and option selection *)
Section PageMoreFacts2.
Import Cdp PageMore.

Variable host : Host.

(** [goBack] and [goForward] first ask for the history and then move only
    inside it: at the first entry [goBack] sends nothing more, at the last
    entry [goForward] sends nothing more, and in between each asks for the
    neighbouring entry by its id. *)
Theorem history_navigation_stays_in_bounds (w : World) :
  accepts host → attached w = true →
  let h := historyReply host (hostLog w) in
  let ask := HSendCommand (tabId w) PageGetNavigationHistory in
  let go id := HSendCommand (tabId w) (PageNavigateToHistoryEntry id) in
  ((currentIndex h ≤ 0)%Z →
     goBack host w = (Ok tt, noteCall ask w))
  ∧ (∀ id, (0 < currentIndex h)%Z →
       entries h !! Z.to_nat (currentIndex h - 1) = Some id →
       (goBack host w).1 = Ok tt
       ∧ hostLog (goBack host w).2 = hostLog w ++ [ask; go id])
  ∧ ((Z.of_nat (length (entries h)) - 1 ≤ currentIndex h)%Z →
       goForward host w = (Ok tt, noteCall ask w))
  ∧ (∀ id, (0 ≤ currentIndex h)%Z →
       entries h !! Z.to_nat (currentIndex h + 1) = Some id →
       (goForward host w).1 = Ok tt
       ∧ hostLog (goForward host w).2 = hostLog w ++ [ask; go id]).
Proof.
  intros Ha H h ask go. unfold goBack, goForward, bind.
  rewrite !send_accepted by done. simpl. fold h.
  assert (Hw : setWindow (window w) (noteCall ask w) = noteCall ask w)
    by done.
  split_and!.
  - intros Hi. by rewrite (proj2 (Z.ltb_ge _ _) Hi).
  - intros id Hi Hid. rewrite (proj2 (Z.ltb_lt _ _) Hi), Hid.
    rewrite send_accepted by done. simpl. by rewrite <- app_assoc.
  - intros Hi. by rewrite (proj2 (Z.ltb_ge _ _) Hi).
  - intros id Hi Hid.
    assert (Hlt : (currentIndex h < Z.of_nat (length (entries h)) - 1)%Z).
    { apply lookup_lt_Some in Hid. lia. }
    rewrite (proj2 (Z.ltb_lt _ _) Hlt).
    rewrite (proj2 (Z.ltb_ge _ _)) by lia. rewrite Hid.
    rewrite send_accepted by done. simpl. by rewrite <- app_assoc.
Qed.

Lemma iter_fixed {A} (f : A → A) (a : A) n : f a = a → Nat.iter n f a = a.
Proof. intros H. induction n as [|n IH]; [done|]. simpl. by rewrite IH. Qed.

(** Before the collector is installed nothing the page does is kept. *)
Lemma pageRun_uninstalled (w : Window) evs :
  agentsCCConsoleLogs w = None → pageRun w evs = w.
Proof.
  intros H. induction evs as [|e evs IH]; [done|].
  unfold pageRun in *. simpl.
  assert (pageStep w e = w) as ->; [|done].
  destruct e; simpl; apply iter_fixed;
    unfold consoleWrapper, errorListener, rejectionListener, limit, push;
    by rewrite ?H.
Qed.

Lemma pageRun_collects evs : ∀ (v : Window) logs,
  agentsCCConsoleLogs v = Some logs → interceptors v = 1%nat →
  agentsCCMaxLogs v = 1000%N →
  (length logs + length evs ≤ 1000)%nat →
  agentsCCConsoleLogs (pageRun v evs) = Some (logs ++ (entryOf <$> evs)).
Proof.
  induction evs as [|e evs IH]; intros v logs Hl Hi Hm Hlen.
  { simpl. by rewrite app_nil_r. }
  unfold pageRun in *. simpl in *.
  assert (Hs : pageStep v e = setLogs (Some (logs ++ [entryOf e])) v).
  { destruct e; simpl; rewrite Hi; simpl;
      unfold consoleWrapper, errorListener, rejectionListener, limit, push;
      rewrite Hl; simpl; try done.
    rewrite Hm, length_app. simpl.
    by rewrite (proj2 (N.ltb_ge _ _)) by lia. }
  rewrite Hs.
  rewrite (IH _ (logs ++ [entryOf e])); try done.
  - by rewrite <- app_assoc.
  - rewrite length_app. simpl. lia.
Qed.

(** Console capture starts with the first read.  What a fresh page did
    before it is lost: the first read returns nothing.  From then on, up to
    a thousand console calls, uncaught errors and unhandled rejections
    between two reads are handed over by the next read, one entry each, in
    the order they happened, and a read right after that returns
    nothing. *)
Theorem console_capture_between_reads (w : Window)
    (before evs : list PageEvent) :
  agentsCCConsoleLogs w = None → interceptors w = 0%nat →
  (length evs ≤ 1000)%nat →
  let first := drainLogs (pageRun w before) in
  let second := drainLogs (pageRun first.2 evs) in
  first.1 = Returns []
  ∧ second.1 = Returns (entryOf <$> evs)
  ∧ (drainLogs second.2).1 = Returns [].
Proof.
  intros Hn Hi Hlen first second. subst first second.
  rewrite pageRun_uninstalled by done.
  set (v := setLogs (Some []) (installCollector w)).
  assert (drainLogs w = (Returns [], v)) as ->.
  { unfold drainLogs. by rewrite Hn. }
  cbn [fst snd].
  assert (Hc : agentsCCConsoleLogs (pageRun v evs) = Some (entryOf <$> evs)).
  { apply (pageRun_collects evs v []); try done. simpl. by rewrite Hi. }
  rewrite (drainLogs_installed _ _ Hc). cbn [fst snd].
  split_and!; [done..|].
  by rewrite (drainLogs_installed _ []).
Qed.

Lemma findOption_member pred opts o :
  findOption pred opts = Some o → o ∈ opts.
Proof.
  unfold findOption. intros H. apply head_Some_elem_of in H.
  by apply list_elem_of_filter in H as [_ ?].
Qed.

Lemma resolveOption_member value text index opts o :
  resolveOption value text index opts = Some o → o ∈ opts.
Proof.
  unfold resolveOption, optionAt.
  destruct value as [v|], text as [t|], index as [i|]; simpl;
    repeat match goal with
    | |- context [findOption ?p opts] =>
      let E := fresh in destruct (findOption p opts) eqn:E;
      [apply findOption_member in E|]
    | |- context [(?i <? 0)%Z] => destruct (i <? 0)%Z
    end; intros; simplify_eq; try done;
    by eapply list_elem_of_lookup_2.
Qed.

Lemma indexOfValue_first v opts :
  (∃ o, o ∈ opts ∧ opt_value o = v) →
  ∃ o', (0 ≤ indexOfValue v opts)%Z
    ∧ opts !! Z.to_nat (indexOfValue v opts) = Some o'
    ∧ opt_value o' = v
    ∧ ∀ j o'', (j < Z.to_nat (indexOfValue v opts))%nat →
        opts !! j = Some o'' → opt_value o'' ≠ v.
Proof.
  induction opts as [|o opts IH]; intros (x & Hx & Hv).
  { by apply elem_of_nil in Hx. }
  simpl. case_decide as Ho.
  { exists o. split_and!; try done. intros; lia. }
  apply elem_of_cons in Hx as [-> | Hx]; [done|].
  destruct IH as (o' & H0 & Hl & Hv' & Hmin); [by exists x|].
  rewrite (proj2 (Z.ltb_ge _ _)) by lia.
  exists o'. split_and!; [lia| |done|].
  - replace (Z.to_nat (1 + indexOfValue v opts))
      with (S (Z.to_nat (indexOfValue v opts))) by lia. done.
  - intros j o'' Hj Hlj. destruct j as [|j]; simpl in Hlj.
    + by simplify_eq.
    + apply (Hmin j); [lia|done].
Qed.

Lemma indexOfValue_resolved (value text : option string)
    (index : option Z) (opts : list OptionElement) (o : OptionElement) :
  resolveOption value text index opts = Some o →
  let i := indexOfValue (opt_value o) opts in
  ∃ o', (0 ≤ i)%Z
    ∧ opts !! Z.to_nat i = Some o'
    ∧ opt_value o' = opt_value o
    ∧ (∀ j o'', (j < Z.to_nat i)%nat → opts !! j = Some o'' →
         opt_value o'' ≠ opt_value o)
    ∧ (NoDup (opt_value <$> opts) → o' = o).
Proof.
  intros H i. apply resolveOption_member in H.
  destruct (indexOfValue_first (opt_value o) opts) as (o' & H0 & Hl & Hv & Hm).
  { by exists o. }
  exists o'. split_and!; try done.
  intros Hnd. apply list_elem_of_lookup_1 in H as [k Hk].
  assert (Z.to_nat i = k) as E.
  { apply (NoDup_lookup _ _ _ (opt_value o) Hnd);
      rewrite list_lookup_fmap.
    - subst i. rewrite Hl. simpl. by rewrite Hv.
    - by rewrite Hk. }
  subst i. rewrite E in Hl. congruence.
Qed.

(** What [selectOption] leaves selected in the page.  On a select element
    found by a selector that leaves the script's message literal alone,
    once an option is settled on (by value, text or index) the select is set
    through that option's value: after the call the select's selected index
    is the position of the first option carrying that value.  That option
    has the value reported, no option before it has, and it is the option
    settled on whenever the option values are all different. *)
Theorem selection_lands_on_first_with_value (selector : string)
    (value text : option string) (index : option Z) (w : World) (n : N)
    (select : Element) (o : OptionElement) :
  accepts host → attached w = true →
  scanSingleQuoted selector = Intact →
  lookupElement (window w) selector = Ok (Some (n, select)) →
  tagName select = "SELECT" →
  resolveOption value text index (options select) = Some o →
  let after := (selectOption host selector value text index w).2 in
  (selectOption host selector value text index w).1 =
    Ok {| selected_value := opt_value o; selected_text := opt_text o |}
  ∧ ∃ select' i o',
      elements (window after) !! n = Some select'
      ∧ selectedIndex select' = Z.of_nat i
      ∧ options select !! i = Some o'
      ∧ opt_value o' = opt_value o
      ∧ (∀ j o'', (j < i)%nat → options select !! j = Some o'' →
           opt_value o'' ≠ opt_value o)
      ∧ (NoDup (opt_value <$> options select) → o' = o).
Proof.
  intros Ha H Hs Hl Htag Hr after. subst after.
  pose proof (selectOption_on_select host selector value text index w n
                select Ha H Hs Hl Htag) as Hsel.
  rewrite Hr in Hsel. destruct Hsel as (Hres & _ & Hidx).
  split; [done|].
  apply fmap_Some in Hidx as (select' & Hel & Hsi).
  destruct (indexOfValue_resolved value text index (options select) o Hr)
    as (o' & H0 & Hlk & Hv & Hmin & Huniq).
  exists select', (Z.to_nat (indexOfValue (opt_value o) (options select))), o'.
  split_and!; try done. rewrite Hsi. lia.
Qed.

End PageMoreFacts2.

(** ** Tools and the executor's cases *)
Section CasesFacts.
Import Cdp Background Catalogue Cases.

Variable host : Host.

Lemma tools_in_page_cases (tool : Tool) :
  tool ∈ TOOLS →
  Dispatcher.getActionFromToolName (tool_name tool) ∈ pageCases
  ∧ Dispatcher.getActionFromToolName (tool_name tool) ∉ aiActions.
Proof.
  intros Ht. unfold TOOLS in Ht.
  repeat (apply elem_of_cons in Ht as [->|Ht]);
    try (by apply elem_of_nil in Ht);
    (split; [ apply (bool_decide_unpack _); vm_compute; exact I
            | apply (bool_decide_eq_false_1 _); vm_compute; reflexivity ]).
Qed.

(** Every advertised tool is implemented by the executor: the action it is
    forwarded as has a case that does the tool's work.  For each tool
    there are arguments with which, on a host that grants every request
    and an attached sample page, [executeAction] returns a result and
    raises no error, which the default branch never does. *)
Theorem every_tool_has_a_case (tool : Tool) :
  tool ∈ TOOLS →
  let run :=
    executeAction MoreSamples.obligingHost
      (Dispatcher.getActionFromToolName (tool_name tool))
      (MoreSamples.argumentsFor (tool_name tool)) Samples.attachedWorld in
  (∃ result, run.1 = Ok result) ∧ raised run.2 = [].
Proof.
  intros Ht. unfold TOOLS in Ht.
  repeat (apply elem_of_cons in Ht as [->|Ht]);
    try (by apply elem_of_nil in Ht);
    (split; [eexists; vm_compute; reflexivity | vm_compute; reflexivity]).
Qed.

(** An action outside the executor's cases is refused by name, once an
    active page is found, and nothing is sent to the host. *)
Lemma unknown_action_rejected (action : string) (params : Params)
    (w : World) :
  action ∉ cases → getActivePageReply host (hostLog w) = Ok tt →
  executeAction host action params w =
  (Throw ("Unknown action: " +:+ action),
   noteRaised ("Unknown action: " +:+ action) w).
Proof.
  intros Hn Hp. unfold executeAction, bind, external. rewrite Hp.
  unfold cases, pageCases in Hn. rewrite elem_of_app in Hn.
  apply Decidable.not_or in Hn as [Hpg Hai].
  rewrite !not_elem_of_cons in Hpg.
  destruct Hpg as (?&?&?&?&?&?&?&?&?&?&?&?&?&?&?&_).
  rewrite !decide_False by done.
  by rewrite bool_decide_eq_false_2.
Qed.

End CasesFacts.

(** ** AI configuration and service *)
Section AiFacts.
Import Ai.

Variable sdk : list ModelCall → ModelCall → Res SdkResult.

Lemma truthy_Some (o : option string) (s : string) :
  truthy o = Some s → o = Some s ∧ s ≠ "".
Proof.
  destruct o as [v|]; simpl; [|done]. case_decide; [done|].
  intros [= ->]. done.
Qed.

Lemma isConfigValid_Some (c : AIConfig) :
  isConfigValid (Some c) = true ↔ provider c ≠ "" ∧ apiKey c ≠ "".
Proof.
  simpl. rewrite andb_true_iff, !negb_true_iff, !bool_decide_eq_false.
  done.
Qed.

(** The config the service works with once [ensureInitialized] has run:
    its own if that is valid, else the stored one. *)
Lemma ensureInitialized_service st :
  service (ensureInitialized st) =
  (if isConfigValid (service st) then service st else stored st)
  ∧ calls (ensureInitialized st) = calls st
  ∧ stored (ensureInitialized st) = stored st.
Proof.
  unfold ensureInitialized, isReady.
  by destruct (isConfigValid (service st)).
Qed.

Lemma generateText_call options st :
  calls (generateText sdk options st).2 = calls st
  ∨ ∃ c, service st = Some c ∧ isConfigValid (Some c) = true
      ∧ provider c ∈ getSupportedProviders
      ∧ calls (generateText sdk options st).2 =
          calls st ++
          [{| call_provider := provider c; call_apiKey := apiKey c;
              call_baseURL := baseURL c; call_modelId := modelId c;
              call_messages := messages options;
              call_temperature := temperature options;
              call_maxOutputTokens := maxTokens options |}].
Proof.
  unfold generateText. destruct (service st) as [c|]; [|by left].
  destruct (isConfigValid (Some c)) eqn:Hv; [|by left].
  unfold createProviderClient. case_bool_decide as Hp; [|by left].
  right. exists c. split_and!; try done.
  by destruct (sdk (calls st) _).
Qed.

(** Whatever AI action runs, with whatever parameters, at most one model
    call is made, and it is made with a valid config of a supported
    provider: the service's own if that is valid, else the stored one.  Its
    provider, key, base URL and model id are that config's. *)
Theorem model_call_uses_configured_key (action : string) (params : AiParams)
    (st : State) :
  let st' := (aiCase sdk action params st).2 in
  calls st' = calls st
  ∨ ∃ c request,
      (if isConfigValid (service st) then service st else stored st) = Some c
      ∧ isConfigValid (Some c) = true
      ∧ provider c ∈ getSupportedProviders
      ∧ calls st' =
          calls st ++
          [{| call_provider := provider c; call_apiKey := apiKey c;
              call_baseURL := baseURL c; call_modelId := modelId c;
              call_messages := messages request;
              call_temperature := temperature request;
              call_maxOutputTokens := maxTokens request |}].
Proof.
  intros st'. subst st'. unfold aiCase.
  destruct (ensureInitialized_service st) as (Hs & Hc & _).
  repeat case_decide; subst.
  - by destruct (truthy (a_provider params)), (truthy (a_apiKey params));
      left.
  - destruct (getAIConfig st); by left.
  - by left.
  - destruct (truthy (a_prompt params)) as [prompt|]; [|by left].
    destruct (isReady (ensureInitialized st)); [|by left].
    unfold chat.
    match goal with |- context [generateText sdk ?o ?s] =>
      destruct (generateText_call o s) as [Hg|(c & Hg1 & Hg2 & Hg3 & Hg4)];
      destruct (generateText sdk o s) as [[r|e] s2] eqn:E;
      simpl in *; rewrite ?Hc in *; try (by left);
      right; exists c, o; rewrite <- Hs; split_and!; try done end.
  - destruct (a_messages params) as [msgs|]; [|by left].
    destruct (isReady (ensureInitialized st)); [|by left].
    match goal with |- context [generateText sdk ?o ?s] =>
      destruct (generateText_call o s) as [Hg|(c & Hg1 & Hg2 & Hg3 & Hg4)];
      destruct (generateText sdk o s) as [[r|e] s2] eqn:E;
      simpl in *; rewrite ?Hc in *; try (by left);
      right; exists c, o; rewrite <- Hs; split_and!; try done end.
  - by left.
Qed.

(** "ai_config" with a provider and a key stores exactly the config given
    and hands it to the service; "ai_get_config" then reports the provider
    and the model and that a key is there. *)
Theorem ai_config_round_trip (params query : AiParams) (st : State)
    (p k : string) :
  truthy (a_provider params) = Some p → truthy (a_apiKey params) = Some k →
  let c := {| provider := p; apiKey := k; model := a_model params;
              baseURL := a_baseURL params |} in
  let st1 := (aiCase sdk "ai_config" params st).2 in
  (aiCase sdk "ai_config" params st).1 =
    Ok (JObj [("configured", JBool true); ("provider", JStr p)])
  ∧ getAIConfig st1 = Some c
  ∧ service st1 = Some c
  ∧ isReady st1 = true
  ∧ calls st1 = calls st
  ∧ aiCase sdk "ai_get_config" query st1 =
      (Ok (JObj ([("configured", JBool true); ("provider", JStr p)]
                 ++ optField "model" (JStr <$> a_model params)
                 ++ [("hasApiKey", JBool true)])), st1).
Proof.
  intros Hp Hk c st1. subst st1. unfold aiCase. simpl. rewrite Hp, Hk.
  apply truthy_Some in Hp as [_ Hp], Hk as [_ Hk]. simpl.
  split_and!; try done.
  - unfold isReady. simpl. by rewrite !bool_decide_eq_false_2.
  - by rewrite bool_decide_eq_false_2.
Qed.

(** The reply of "ai_get_config" tells of the stored key only whether it
    is empty: two stored configs that differ in their non-empty keys give
    the same reply. *)
Theorem ai_get_config_hides_key (c : AIConfig) (k1 k2 : string)
    (params : AiParams) (st : State) :
  k1 ≠ "" → k2 ≠ "" →
  let withKey k := {| provider := provider c; apiKey := k;
                      model := model c; baseURL := baseURL c |} in
  (aiCase sdk "ai_get_config" params (setStored (Some (withKey k1)) st)).1 =
  (aiCase sdk "ai_get_config" params (setStored (Some (withKey k2)) st)).1.
Proof.
  intros H1 H2 withKey. unfold aiCase. simpl.
  by rewrite !bool_decide_eq_false_2.
Qed.

(** "ai_clear_config" empties the storage but not the service: after
    "ai_config" and "ai_clear_config", "ai_get_config" reports that nothing
    is configured, and yet "ai_chat" still reaches the provider with the
    cleared key. *)
Theorem cleared_key_still_used (params ask : AiParams) (st : State)
    (p k prompt : string) :
  truthy (a_provider params) = Some p → truthy (a_apiKey params) = Some k →
  p ∈ getSupportedProviders → truthy (a_prompt ask) = Some prompt →
  let st1 := (aiCase sdk "ai_config" params st).2 in
  let st2 := (aiCase sdk "ai_clear_config" ask st1).2 in
  getAIConfig st2 = None
  ∧ (aiCase sdk "ai_get_config" ask st2).1 =
      Ok (JObj [("configured", JBool false)])
  ∧ ∃ call,
      calls (aiCase sdk "ai_chat" ask st2).2 = calls st ++ [call]
      ∧ call_provider call = p ∧ call_apiKey call = k.
Proof.
  intros Hp Hk Hs Hq st1 st2. subst st1 st2. unfold aiCase. simpl.
  rewrite Hp, Hk, Hq. simpl.
  apply truthy_Some in Hp as [_ Hp], Hk as [_ Hk].
  split_and!; try done.
  unfold ensureInitialized, isReady. simpl.
  rewrite !bool_decide_eq_false_2 by done. simpl.
  unfold chat, generateText. simpl.
  rewrite !bool_decide_eq_false_2 by done. simpl.
  unfold createProviderClient. simpl. rewrite bool_decide_eq_true_2 by done.
  eexists. split; [by destruct (sdk _ _)|by split].
Qed.

End AiFacts.

(** ** The control overlay *)
Section OverlayFacts.
Import Overlay.

Lemma Shown_initOverlay st : Shown st → Shown (initOverlay st).
Proof.
  intros [Hf He Hb Hs Hu Ht]. unfold initOverlay, getOverlay. rewrite Hf.
  destruct (element st) as [n|] eqn:E; simpl.
  { split; by rewrite ?E. }
  unfold visible in He. rewrite E in He.
  split; simpl; rewrite ?Hb; try done.
  intros n [= <-]. right. split; [by apply Hu|done].
Qed.

Lemma initOverlay_element st :
  Shown st → is_Some (element (initOverlay st)).
Proof.
  intros [Hf _ _ _ _ _]. unfold initOverlay, getOverlay. rewrite Hf.
  by destruct (element st) eqn:E; simpl; rewrite ?E.
Qed.

Lemma updateOverlayStatus_shown st n text sh :
  foreign st = None → element st = Some n →
  updateOverlayStatus text sh st =
  {| enabled := enabled st; status := text;
     element := Some (setText text (default false sh) n); foreign := None;
     styles := styles st; keyBlockers := keyBlockers st |}.
Proof.
  intros Hf Hn. unfold updateOverlayStatus, initOverlay, getOverlay.
  rewrite Hf, Hn. simpl. by rewrite Hf, Hn.
Qed.

Lemma Shown_updateOverlayStatus text sh st :
  Shown st → Shown (updateOverlayStatus text sh st).
Proof.
  intros H. pose proof (initOverlay_element st H) as [n Hn].
  apply Shown_initOverlay in H as [Hf He Hb Hs Hu Ht].
  unfold updateOverlayStatus. rewrite Hf, Hn.
  split; simpl; try done.
  - unfold visible in *. by rewrite Hn in He.
  - by rewrite Hn in Hb.
  - by rewrite Hn in Hs.
  - intros ? [= <-]. by left.
Qed.

Lemma Shown_handle st m : Shown st → Shown (handle st m).
Proof.
  intros H. destruct m as [text| |text sh|]; unfold handle; simpl.
  - unfold showOverlay. pose proof (initOverlay_element st H) as [n Hn].
    apply Shown_initOverlay in H. rewrite Hn.
    match goal with |- Shown (match _ with Some t => _ | None => ?s1 end) =>
      assert (H1 : Shown s1) end.
    { destruct H as [Hf He Hb Hs Hu Ht]. split; simpl; try done.
      - by rewrite Hn in Hb.
      - by rewrite Hn in Hs.
      - intros ? [= <-]. simpl. by apply Ht. }
    destruct (truthy text); [by apply Shown_updateOverlayStatus|done].
  - unfold hideOverlay. destruct H as [Hf He Hb Hs Hu Ht].
    destruct (element st) as [n|] eqn:E; [|by split; rewrite ?E].
    split; simpl; try done. intros ? [= <-]. simpl. by apply Ht.
  - by apply Shown_updateOverlayStatus.
  - done.
Qed.

Lemma Shown_run ms : ∀ st, Shown st → Shown (run st ms).
Proof.
  induction ms as [|m ms IH]; intros st H; [done|].
  apply IH. by apply Shown_handle.
Qed.

Lemma Shown_loaded : Shown loaded.
Proof. by split. Qed.

Lemma run_snoc st ms m : run st (ms ++ [m]) = handle (run st ms) m.
Proof. unfold run. by rewrite foldl_app. Qed.

(** In a document that had no overlay, after any overlay messages: the
    state the script reports as enabled is what the page shows, a status
    it reports is the text on display, the key blocker is registered at
    most once, and a key event is kept from the page exactly while the
    overlay is shown, the keys that open the developer tools apart. *)
Theorem overlay_state_matches_page (ms : list Message) (e : KeyEvent) :
  let st := run loaded ms in
  (onMessage st GET_OVERLAY_STATE).2 = StateIs (visible st) (status st)
  ∧ (status st ≠ "" →
       ∃ n, element st = Some n ∧ statusText n = status st)
  ∧ (keyBlockers st ≤ 1)%nat
  ∧ blocked st e = visible st && negb (devtools e).
Proof.
  intros st. destruct (Shown_run ms loaded Shown_loaded) as
    [Hf He Hb Hs Hu Ht]. fold st in Hf, He, Hb, Hs, Hu, Ht.
  split_and!.
  - simpl. by rewrite He.
  - intros Hne. destruct (element st) as [n|] eqn:E.
    + exists n. split; [done|]. by destruct (Ht n eq_refl) as [?|[? _]].
    + by specialize (Hu eq_refl).
  - rewrite Hb. destruct (element st); lia.
  - unfold blocked, keyBlocker, devtools. rewrite Hb, He.
    unfold visible. destruct (element st) as [n|]; [|done].
    simpl. destruct (hidden n); simpl; [done|].
    by destruct (_ || _).
Qed.

(** In a document that had no overlay, whatever happened before: a show
    message leaves the overlay shown, with the given status on display if
    one is given; a hide message leaves it hidden and every key free. *)
Theorem show_and_hide_take_effect (ms : list Message) :
  (∀ text,
     let st := run loaded (ms ++ [SHOW_OVERLAY text]) in
     visible st = true ∧ enabled st = true
     ∧ ∀ t, truthy text = Some t →
         status st = t ∧ ∃ n, element st = Some n ∧ statusText n = t)
  ∧ (let st := run loaded (ms ++ [HIDE_OVERLAY]) in
     visible st = false ∧ enabled st = false ∧ ∀ e, blocked st e = false).
Proof.
  pose proof (Shown_run ms loaded Shown_loaded) as H.
  split.
  - intros text st. subst st. rewrite run_snoc. unfold handle. simpl.
    unfold showOverlay. pose proof (initOverlay_element _ H) as [n Hn].
    apply Shown_initOverlay in H as [Hf He Hb Hs Hu Ht]. rewrite Hn.
    destruct (truthy text) as [t|] eqn:E.
    + erewrite updateOverlayStatus_shown by (simpl; done).
      simpl. split_and!; try done.
      intros ? [= <-]. split; [done|]. by eexists.
    + simpl. done.
  - intros st. subst st. rewrite run_snoc. unfold handle. simpl.
    destruct H as [Hf He Hb Hs Hu Ht]. unfold hideOverlay, blocked, keyBlocker.
    destruct (element (run loaded ms)) as [n|] eqn:E; simpl.
    + split_and!; try done. intros e. by rewrite andb_false_r.
    + unfold visible in *. rewrite E in *. rewrite He.
      split_and!; try done. intros e. by rewrite andb_false_r.
Qed.

Lemma Bystander_handle st m : Bystander st → Bystander (handle st m).
Proof.
  intros [He Hn Hb (n & Hf & Hh)].
  destruct m as [text| |text sh|]; unfold handle; simpl.
  - unfold showOverlay, initOverlay, getOverlay. rewrite Hf, He.
    split; eauto.
  - unfold hideOverlay. rewrite He. split; eauto.
  - unfold updateOverlayStatus, initOverlay, getOverlay. rewrite Hf. simpl.
    rewrite Hf. split; simpl; eauto.
  - split; eauto.
Qed.

(** A script loaded into a document that already has a hidden overlay
    never shows it, never reports itself enabled and never blocks a key,
    whatever overlay messages it handles; every show message is still
    answered as done. *)
Theorem overlay_of_another_instance_stays_hidden (st0 : State)
    (ms : list Message) :
  Bystander st0 →
  let st := run st0 ms in
  visible st = false ∧ enabled st = false
  ∧ (∃ n, getOverlay st = Some n ∧ hidden n = true)
  ∧ (∀ e, blocked st e = false)
  ∧ ∀ text, (onMessage st (SHOW_OVERLAY text)).2 = Done.
Proof.
  intros H st. assert (Hst : Bystander st).
  { subst st. revert st0 H. induction ms as [|m ms IH]; intros st0 H;
      [done|]. apply IH. by apply Bystander_handle. }
  destruct Hst as [He Hn Hb (n & Hf & Hh)].
  split_and!; try done.
  - unfold visible. by rewrite He.
  - exists n. unfold getOverlay. by rewrite Hf.
  - intros e. unfold blocked. by rewrite Hb.
Qed.

End OverlayFacts.

(** ** The life of a Page *)
Section PageLifeFacts.
Import Cdp PageLife.

Variable host : Host.
Variable firstRejected : list string → string.

Lemma attach_granted w :
  attached w = false → attachReply host (hostLog w) (tabId w) = Ok tt →
  attach host w =
  (Ok tt,
   {| tabId := tabId w; attached := true; listening := true;
      hostLog := hostLog w ++ [HAttach (tabId w) "1.3"];
      window := window w; raised := raised w; overlay := overlay w |}).
Proof.
  intros Ha Hr. unfold attach, debuggerAttach, hostCall, bind.
  by rewrite Ha, Hr.
Qed.

Lemma enableAll_issues_all w :
  attached w = true →
  hostLog (enableAll host firstRejected w).2 =
    hostLog w ++ [HSendCommand (tabId w) PageEnable;
                  HSendCommand (tabId w) DOMEnable;
                  HSendCommand (tabId w) RuntimeEnable]
  ∧ attached (enableAll host firstRejected w).2 = true
  ∧ tabId (enableAll host firstRejected w).2 = tabId w
  ∧ listening (enableAll host firstRejected w).2 = listening w.
Proof.
  intros H. unfold enableAll.
  assert (Hsend : ∀ T (c : Command T) v, attached v = true →
            hostLog (send host c v).2 = hostLog v ++ [HSendCommand (tabId v) c]
            ∧ attached (send host c v).2 = true
            ∧ tabId (send host c v).2 = tabId v
            ∧ listening (send host c v).2 = listening v).
  { intros T c v Hv. unfold send, debuggerSendCommand. rewrite Hv. simpl.
    destruct (commandError host (hostLog v) T c); [done|].
    by destruct (hostResult host (hostLog v) c (window v)). }
  destruct (Hsend _ PageEnable w H) as (L1 & A1 & T1 & S1).
  destruct (send host PageEnable w) as [r1 w1]. simpl in *.
  destruct (Hsend _ DOMEnable w1 A1) as (L2 & A2 & T2 & S2).
  destruct (send host DOMEnable w1) as [r2 w2]. simpl in *.
  destruct (Hsend _ RuntimeEnable w2 A2) as (L3 & A3 & T3 & S3).
  destruct (send host RuntimeEnable w2) as [r3 w3]. simpl in *.
  assert ((hostLog w3 = hostLog w ++ [HSendCommand (tabId w) PageEnable;
                  HSendCommand (tabId w) DOMEnable;
                  HSendCommand (tabId w) RuntimeEnable])
          ∧ attached w3 = true ∧ tabId w3 = tabId w
          ∧ listening w3 = listening w) as Hw.
  { rewrite L3, L2, L1, T2, T1, <- !app_assoc.
    split_and!; reflexivity || congruence. }
  by destruct (reason r1 ++ reason r2 ++ reason r3).
Qed.

(** [initialize] on a new page, with a host that grants the attach and
    accepts the commands: the debugger is attached, the three domains are
    enabled in the order Page, DOM, Runtime, the page is initialized, and a
    second [initialize] does nothing. *)
Lemma initialize_attaches_and_enables (p : Page) :
  initialized p = false → attached (transport p) = false →
  attachReply host (hostLog (transport p)) (tabId (transport p)) = Ok tt →
  accepts host →
  let p1 := (initialize host firstRejected p).2 in
  (initialize host firstRejected p).1 = Ok tt
  ∧ initialized p1 = true
  ∧ attached (transport p1) = true
  ∧ hostLog (transport p1) =
      hostLog (transport p) ++ startup (tabId (transport p))
  ∧ initialize host firstRejected p1 = (Ok tt, p1).
Proof.
  intros Hi Ha Hr Hacc p1. subst p1. unfold initialize. rewrite Hi.
  unfold bind at 1 2 3 4 5. rewrite attach_granted by done.
  match goal with |- context [enableAll host firstRejected ?w] =>
    destruct (enableAll_issues_all w eq_refl) as (L & A & T & S);
    assert (E : (enableAll host firstRejected w).1 = Ok tt) end.
  { unfold enableAll. rewrite !send_accepted by done. done. }
  destruct (enableAll host firstRejected _) as [r w1]. simpl in *.
  subst r. simpl. rewrite L, <- app_assoc. done.
Qed.

(** When the attach is granted but [initialize] fails, the failure comes
    from enabling the domains: all three commands were still sent, the
    debugger stays attached, the page is not initialized, and [close]
    then does nothing, so the debugger is not detached. *)
Theorem failed_enable_leaves_debugger_attached (p : Page) (e : string) :
  initialized p = false → attached (transport p) = false →
  attachReply host (hostLog (transport p)) (tabId (transport p)) = Ok tt →
  (initialize host firstRejected p).1 = Throw e →
  let p1 := (initialize host firstRejected p).2 in
  initialized p1 = false
  ∧ attached (transport p1) = true
  ∧ hostLog (transport p1) =
      hostLog (transport p) ++ startup (tabId (transport p))
  ∧ close host p1 = (Ok tt, p1).
Proof.
  intros Hi Ha Hr. unfold initialize, close. rewrite Hi.
  unfold bind. rewrite attach_granted by done.
  match goal with |- context [enableAll host firstRejected ?w] =>
    destruct (enableAll_issues_all w eq_refl) as (L & A & T & S) end.
  destruct (enableAll host firstRejected _) as [[[]|e'] w1]; simpl in *;
    [done|].
  intros _. rewrite L, <- app_assoc. done.
Qed.

(** After the host detaches the debugger from an initialized page, the
    page still counts as initialized: [initialize] does nothing and every
    command fails with "Debugger not attached".  Only [close], which then
    calls nothing on the host, makes a later [initialize] attach again. *)
Theorem detached_page_recovers_through_close (p : Page) :
  initialized p = true → attached (transport p) = true →
  listening (transport p) = true →
  let tab := tabId (transport p) in
  let p1 := detached tab p in
  let p2 := (close host p1).2 in
  attached (transport p1) = false
  ∧ initialize host firstRejected p1 = (Ok tt, p1)
  ∧ (∀ T (c : Command T),
       send host c (transport p1) =
       (Throw "Debugger not attached",
        noteRaised "Debugger not attached" (transport p1)))
  ∧ (close host p1).1 = Ok tt
  ∧ initialized p2 = false
  ∧ hostLog (transport p2) = hostLog (transport p)
  ∧ (attachReply host (hostLog (transport p)) tab = Ok tt → accepts host →
     (initialize host firstRejected p2).1 = Ok tt
     ∧ attached (transport (initialize host firstRejected p2).2) = true
     ∧ hostLog (transport (initialize host firstRejected p2).2) =
         hostLog (transport p) ++ startup tab).
Proof.
  intros Hi Ha Hl tab p1 p2.
  assert (Hp1 : p1 = {| transport := (setAttached false (transport p)).2;
                        initialized := true |}).
  { subst p1. unfold detached, onDetach, handleDetach. rewrite Hl, Hi.
    by rewrite decide_True. }
  assert (Hp2 : p2 = {| transport := (setAttached false (transport p)).2;
                        initialized := false |}).
  { subst p2. rewrite Hp1. unfold close, detach. simpl. done. }
  rewrite Hp2. clearbody p2. rewrite Hp1. clearbody p1. subst.
  split_and!; try done.
  intros Hr Hacc.
  match goal with |- context [initialize host firstRejected ?q] =>
    destruct (initialize_attaches_and_enables q) as (R & I & A & L & _);
    try done end.
Qed.

End PageLifeFacts.

(** ** Waiting for a navigation *)
Section WaitsFacts.
Import Waits.

Lemma filter_fst_fmap (id : nat) (ts : list (nat * N)) :
  (filter (λ t, t.1 ≠ id) ts).*1 = filter (λ h, h ≠ id) ts.*1.
Proof.
  induction ts as [|[h d] ts IH]; [done|]. rewrite fmap_cons.
  destruct (decide (h = id)) as [->|Hne].
  - rewrite !filter_cons_False by (simpl; tauto). done.
  - rewrite !filter_cons_True by done. rewrite fmap_cons. by rewrite IH.
Qed.

(** Ending a pending wait: its timer and handler go, its promise is
    settled, and the rest stays. *)
Lemma finish_pending st id r :
  Inv st → id ∈ eventListeners st →
  let st' := settle id r (off id (clearTimeout id st)) in
  Inv st'
  ∧ eventListeners st' = filter (λ h, h ≠ id) (eventListeners st)
  ∧ timers st' = filter (λ t, t.1 ≠ id) (timers st)
  ∧ settled st' = settled st ++ [(id, r)]
  ∧ nextWait st' = nextWait st ∧ tabId st' = tabId st
  ∧ listening st' = listening st.
Proof.
  intros [Ht Hn Hs Hp Hi Hb] Hin st'. subst st'.
  destruct (Hp id Hin) as [Hlt Hns].
  unfold settle. simpl. rewrite bool_decide_eq_false_2 by done.
  split; [|done]. split; simpl.
  - by rewrite filter_fst_fmap, Ht.
  - by apply NoDup_filter.
  - rewrite fmap_app. simpl. by apply NoDup_snoc.
  - intros h [Hne Hh]%list_elem_of_filter. destruct (Hp h Hh) as [? ?].
    split; [done|]. rewrite fmap_app, elem_of_app. simpl.
    rewrite list_elem_of_singleton. tauto.
  - intros h Hh. rewrite fmap_app, elem_of_app, list_elem_of_filter.
    simpl. rewrite list_elem_of_singleton.
    destruct (decide (h = id)) as [->|Hne]; [tauto|].
    destruct (Hi h Hh); tauto.
  - intros h. rewrite fmap_app, elem_of_app. simpl.
    rewrite list_elem_of_singleton. intros [?| ->]; [by apply Hb|done].
Qed.

Lemma filter_all {A} (P : A → Prop) `{∀ x, Decision (P x)} (l : list A) :
  (∀ x, x ∈ l → P x) → filter P l = l.
Proof.
  induction l as [|x l IH]; intros Hall; [done|].
  rewrite filter_cons_True by (apply Hall; left).
  rewrite IH; [done|]. intros y Hy. apply Hall. by right.
Qed.

Lemma filter_none {A} (P : A → Prop) `{∀ x, Decision (P x)} (l : list A) :
  (∀ x, x ∈ l → ¬ P x) → filter P l = [].
Proof.
  induction l as [|x l IH]; intros Hall; [done|].
  rewrite filter_cons_False by (apply Hall; left).
  apply IH. intros y Hy. apply Hall. by right.
Qed.

Lemma handlers_load (ids : list nat) : ∀ st,
  Inv st → NoDup ids → (∀ id, id ∈ ids → id ∈ eventListeners st) →
  let st' := foldl (λ s id, handler id "Page.loadEventFired" s) st ids in
  Inv st'
  ∧ eventListeners st' = filter (λ h, h ∉ ids) (eventListeners st)
  ∧ settled st' = settled st ++ ((λ id, (id, Ok tt)) <$> ids)
  ∧ nextWait st' = nextWait st ∧ tabId st' = tabId st
  ∧ listening st' = listening st.
Proof.
  induction ids as [|id ids IH]; intros st HI Hnd Hin; simpl.
  { split_and!; try done.
    - symmetry. apply filter_all. intros ? _. apply not_elem_of_nil.
    - by rewrite app_nil_r. }
  apply NoDup_cons in Hnd as [Hni Hnd].
  destruct (finish_pending st id (Ok tt) HI)
    as (HI1 & L1 & T1 & S1 & N1 & B1 & G1).
  { apply Hin. left. }
  set (st1 := settle id (Ok tt) (off id (clearTimeout id st))) in *.
  assert (handler id "Page.loadEventFired" st = st1) as ->.
  { unfold handler. by rewrite decide_True. }
  destruct (IH st1 HI1 Hnd) as (HI2 & L2 & S2 & N2 & B2 & G2).
  { intros h Hh. rewrite L1. apply list_elem_of_filter. split.
    - intros ->. done.
    - apply Hin. by right. }
  split_and!; try congruence.
  - rewrite L2, L1, list_filter_filter. apply list_filter_iff.
    intros h. rewrite not_elem_of_cons. tauto.
  - rewrite S2, S1, <- app_assoc. done.
Qed.

Lemma handler_other id method st :
  method ≠ "Page.loadEventFired" → handler id method st = st.
Proof. intros H. unfold handler. by rewrite decide_False. Qed.

Lemma handlers_other ids method : ∀ st,
  method ≠ "Page.loadEventFired" →
  foldl (λ s id, handler id method s) st ids = st.
Proof.
  induction ids as [|id ids IH]; intros st H; simpl; [done|].
  rewrite handler_other by done. by apply IH.
Qed.

Lemma waits_Inv_init tab l : Inv (init tab l).
Proof.
  split; simpl; try done; try apply NoDup_nil_2.
  - intros id H. by apply elem_of_nil in H.
  - intros id H. lia.
  - intros id H. by apply elem_of_nil in H.
Qed.

Lemma waits_Inv_wait timeout st : Inv st → Inv (waitForNavigation timeout st).2.
Proof.
  intros [Ht Hn Hs Hp Hi Hb]. split; simpl.
  - rewrite fmap_app, Ht. reflexivity.
  - apply NoDup_snoc; [done|]. intros H. apply Hp in H as [? _]. lia.
  - done.
  - intros id. rewrite elem_of_app, list_elem_of_singleton.
    intros [H| ->].
    + destruct (Hp id H). split; [lia|done].
    + split; [lia|]. intros H%Hb. lia.
  - intros id Hlt. rewrite elem_of_app, list_elem_of_singleton.
    destruct (decide (id = nextWait st)) as [->|Hne]; [tauto|].
    destruct (Hi id); [lia|tauto..].
  - intros id H%Hb. lia.
Qed.

Lemma waits_Inv_step st e : Inv st → Inv (step st e).
Proof.
  intros HI. destruct e as [timeout|source method|id]; simpl.
  - by apply waits_Inv_wait.
  - destruct (listening st); [|done]. unfold handleEvent.
    case_decide; [|done].
    destruct (decide (method = "Page.loadEventFired")) as [->|Hne].
    + apply handlers_load; [done|by destruct HI|done].
    + by rewrite handlers_other.
  - unfold onTimer. case_bool_decide as Hin; [|done].
    apply finish_pending; [done|]. by rewrite <- (inv_timers _ HI).
Qed.

Lemma waits_Inv_run evs : ∀ st, Inv st → Inv (run st evs).
Proof.
  induction evs as [|e evs IH]; intros st H; [done|].
  apply IH. by apply waits_Inv_step.
Qed.

Lemma waits_frame_step st e :
  Inv st →
  tabId (step st e) = tabId st ∧ listening (step st e) = listening st.
Proof.
  intros HI. destruct e as [timeout|source method|id]; simpl; [done| |].
  - destruct (listening st) eqn:El; [|done]. unfold handleEvent.
    case_decide; [|done].
    destruct (decide (method = "Page.loadEventFired")) as [->|Hne].
    + destruct (handlers_load (eventListeners st) st) as
        (_ & _ & _ & _ & B & G); [done|by destruct HI|done|].
      by rewrite B, G.
    + by rewrite handlers_other.
  - unfold onTimer. case_bool_decide as Hin; [|done].
    destruct (finish_pending st id (Throw "Navigation timeout") HI)
      as (_ & _ & _ & _ & _ & B & G); [|done].
    by rewrite <- (inv_timers _ HI).
Qed.

(** After any waits, host events and timers: the registered handlers are
    exactly the armed timers, and exactly the waits whose promise is not
    yet settled; no promise is settled twice.  So a wait that has ended
    leaves neither a handler nor a timer behind. *)
Theorem waits_leave_nothing_behind (tab : N) (l : bool)
    (evs : list Event) :
  let st := run (init tab l) evs in
  (timers st).*1 = eventListeners st
  ∧ NoDup (eventListeners st)
  ∧ NoDup (settled st).*1
  ∧ ∀ id, (id < nextWait st)%nat →
      (id ∈ eventListeners st ↔ promiseState id st = None).
Proof.
  intros st. destruct (waits_Inv_run evs _ (waits_Inv_init tab l)) as
    [Ht Hn Hs Hp Hi Hb]. fold st in Ht, Hn, Hs, Hp, Hi, Hb.
  split_and!; try done.
  intros id Hlt. unfold promiseState.
  assert (Hiff : head (filter (λ s, s.1 = id) (settled st)) = None
                 ↔ id ∉ (settled st).*1).
  { rewrite head_None. split.
    - intros Hf [[h r] [-> Hin]]%list_elem_of_fmap. simpl in *.
      assert ((h, r) ∈ filter (λ s : nat * Res (), s.1 = h) (settled st))
        as Hx by (by apply list_elem_of_filter).
      rewrite Hf in Hx. by apply elem_of_nil in Hx.
    - intros Hni. apply filter_none. intros [h r] Hin Heq.
      simpl in Heq. apply Hni. apply list_elem_of_fmap. by exists (h, r). }
  rewrite fmap_None, Hiff. split.
  - intros Hin. by apply Hp.
  - intros Hni. destruct (Hi id Hlt); done.
Qed.

Lemma waits_frame_run evs : ∀ st,
  Inv st →
  tabId (run st evs) = tabId st ∧ listening (run st evs) = listening st.
Proof.
  induction evs as [|e evs IH]; intros st H; [done|]. simpl.
  destruct (IH (step st e)) as [-> ->]; [by apply waits_Inv_step|].
  by apply waits_frame_step.
Qed.

Lemma promiseState_unsettled id st :
  promiseState id st = None ↔ id ∉ (settled st).*1.
Proof.
  unfold promiseState. rewrite fmap_None, head_None. split.
  - intros Hf [[h r] [-> Hin]]%list_elem_of_fmap. simpl in *.
    assert ((h, r) ∈ filter (λ s : nat * Res (), s.1 = h) (settled st))
      as Hx by (by apply list_elem_of_filter).
    rewrite Hf in Hx. by apply elem_of_nil in Hx.
  - intros Hni. apply filter_none. intros [h r] Hin Heq.
    simpl in Heq. apply Hni. apply list_elem_of_fmap. by exists (h, r).
Qed.

Lemma promiseState_settled_all id st st' r ids :
  id ∉ (settled st).*1 → id ∈ ids →
  settled st' = settled st ++ ((λ h, (h, r)) <$> ids) →
  promiseState id st' = Some r.
Proof.
  intros Hni Hin Hs. unfold promiseState. rewrite Hs, filter_app.
  rewrite (filter_none _ (settled st)).
  2: { intros [h x] Hx Heq. simpl in Heq. apply Hni.
       apply list_elem_of_fmap. by exists (h, x). }
  simpl.
  destruct (filter _ ((λ h, (h, r)) <$> ids)) as [|[h x] rest] eqn:E.
  - exfalso. eapply (filter_nil_not_elem_of _ _ (id, r) E); [done|].
    apply list_elem_of_fmap. by exists id.
  - assert (Hx : (h, x) ∈ filter (λ s : nat * Res (), s.1 = id)
                   ((λ h, (h, r)) <$> ids)) by (rewrite E; left).
    apply list_elem_of_filter in Hx as [_ Hx].
    apply list_elem_of_fmap in Hx as (? & [= _ ->] & _). done.
Qed.

(** With the transport listening, a load event of the page's tab resolves
    every wait that is pending, whatever happened before: no handler and
    no timer is left, and every promise handed out so far is settled. *)
Theorem load_event_resolves_every_wait (tab : N) (evs : list Event) :
  let st := run (init tab true) evs in
  let st' := step st (EvHost tab "Page.loadEventFired") in
  eventListeners st' = [] ∧ timers st' = []
  ∧ settled st' = settled st ++ ((λ id, (id, Ok tt)) <$> eventListeners st)
  ∧ ∀ id, (id < nextWait st')%nat → is_Some (promiseState id st').
Proof.
  intros st st'.
  pose proof (waits_Inv_run evs _ (waits_Inv_init tab true)) as HI.
  destruct (waits_frame_run evs _ (waits_Inv_init tab true)) as [Ht Hl].
  fold st in HI, Ht, Hl. simpl in Ht, Hl.
  assert (Hst' : st' = foldl (λ s id, handler id "Page.loadEventFired" s)
                         st (eventListeners st)).
  { subst st'. simpl. rewrite Hl. unfold handleEvent.
    by rewrite decide_True. }
  destruct (handlers_load (eventListeners st) st HI (inv_nodup _ HI))
    as (HI' & L & S & Nx & _ & _); [done|].
  rewrite <- Hst' in HI', L, S, Nx. clearbody st'.
  assert (HL : eventListeners st' = []).
  { rewrite L. apply filter_none. tauto. }
  split_and!; try done.
  - pose proof (inv_timers _ HI') as HT. rewrite HL in HT.
    by apply fmap_nil_inv in HT.
  - intros id Hlt. destruct (inv_issued _ HI' id Hlt) as [Hin|Hin].
    + rewrite HL in Hin. by apply elem_of_nil in Hin.
    + destruct (promiseState id st') eqn:E; [done|].
      by apply promiseState_unsettled in E.
Qed.

Lemma pending_wait_step tab id d st e :
  Inv st → tabId st = tab → id ∈ eventListeners st → (id, d) ∈ timers st →
  ¬ ends tab id e →
  id ∈ eventListeners (step st e) ∧ (id, d) ∈ timers (step st e).
Proof.
  intros HI Ht Hin Hd Hne. destruct e as [timeout|source method|id']; simpl.
  - rewrite !elem_of_app. tauto.
  - destruct (listening st); [|done]. unfold handleEvent.
    case_decide as Hs; [|done].
    destruct (decide (method = "Page.loadEventFired")) as [->|Hm].
    + exfalso. apply Hne. left. congruence.
    + by rewrite handlers_other.
  - unfold onTimer. case_bool_decide as Ha; [|done].
    assert (id' ≠ id) as Hid. { intros ->. apply Hne. by right. }
    destruct (finish_pending st id' (Throw "Navigation timeout") HI)
      as (_ & L & T & _); [by rewrite <- (inv_timers _ HI)|].
    rewrite L, T, !list_elem_of_filter. simpl. split; split; done || congruence.
Qed.

(** A wait stays pending, with its handler registered and its timer
    armed, until a load event of the page's tab or its own timer: no other
    wait, event or timer ends it.  So a load event that came before the
    wait was started does not count.  When its timer runs out first, the
    promise is rejected with "Navigation timeout"; when the load event is
    handled first, it is resolved. *)
Theorem wait_pending_until_load_or_timer (tab : N) (l : bool)
    (evs0 evs : list Event) (timeout : option N) :
  let id := nextWait (run (init tab l) evs0) in
  let st0 := (waitForNavigation timeout (run (init tab l) evs0)).2 in
  let st := run st0 evs in
  Forall (λ e, ¬ ends tab id e) evs →
  id ∈ eventListeners st
  ∧ (id, default 30000%N timeout) ∈ timers st
  ∧ promiseState id st = None
  ∧ promiseState id (step st (EvTimer id)) = Some (Throw "Navigation timeout")
  ∧ (l = true →
     promiseState id (step st (EvHost tab "Page.loadEventFired"))
     = Some (Ok tt)).
Proof.
  intros id st0 st Hall.
  pose proof (waits_Inv_run evs0 _ (waits_Inv_init tab l)) as HI0.
  destruct (waits_frame_run evs0 _ (waits_Inv_init tab l)) as [Ht0 Hl0].
  simpl in Ht0, Hl0.
  assert (H0 : Inv st0 ∧ tabId st0 = tab ∧ listening st0 = l
               ∧ id ∈ eventListeners st0
               ∧ (id, default 30000%N timeout) ∈ timers st0).
  { subst st0 id. split; [by apply waits_Inv_wait|]. simpl.
    rewrite !elem_of_app, !list_elem_of_singleton. tauto. }
  assert (H : Inv st ∧ tabId st = tab ∧ listening st = l
              ∧ id ∈ eventListeners st
              ∧ (id, default 30000%N timeout) ∈ timers st).
  { subst st. clearbody st0 id. clear HI0 Ht0 Hl0. revert st0 H0.
    induction Hall as [|e evs He Hall IH]; intros st0 H0; [done|].
    simpl. apply IH. destruct H0 as (HI & Ht & Hl & Hin & Hd).
    destruct (pending_wait_step tab id _ st0 e HI Ht Hin Hd He) as [? ?].
    destruct (waits_frame_step st0 e HI) as [-> ->].
    split_and!; try done. by apply waits_Inv_step. }
  clearbody st. destruct H as (HI & Ht & Hl & Hin & Hd).
  destruct (inv_pending _ HI id Hin) as [Hlt Hns].
  split_and!; try done.
  - by apply promiseState_unsettled.
  - simpl. unfold onTimer. rewrite bool_decide_eq_true_2
      by (by rewrite (inv_timers _ HI)).
    destruct (finish_pending st id (Throw "Navigation timeout") HI Hin)
      as (_ & _ & _ & S & _).
    eapply (promiseState_settled_all id st _ _ [id]); [done|by left|].
    exact S.
  - intros ->. simpl. rewrite Hl. unfold handleEvent.
    rewrite decide_True by done.
    destruct (handlers_load (eventListeners st) st HI (inv_nodup _ HI))
      as (_ & _ & S & _); [done|].
    by eapply promiseState_settled_all.
Qed.

End WaitsFacts.

(** ** More on the page controller *)
Section PageMoreFacts3.
Import Cdp PageMore.

Variable host : Host.

Lemma latest_short {A} (n : nat) (l : list A) :
  (length l ≤ n)%nat → latest n l = l.
Proof.
  intros H. unfold latest. replace (length l - n)%nat with 0%nat by lia.
  done.
Qed.

Lemma pageRun_console evs : ∀ (v : Window) logs,
  Forall (λ e, isConsoleCall e = true) evs →
  agentsCCConsoleLogs v = Some logs → interceptors v = 1%nat →
  agentsCCMaxLogs v = 1000%N → (length logs ≤ 1000)%nat →
  agentsCCConsoleLogs (pageRun v evs) =
    Some (latest 1000 (logs ++ (entryOf <$> evs))).
Proof.
  induction evs as [|e evs IH]; intros v logs Hall Hl Hi Hm Hlen.
  { simpl. rewrite app_nil_r. by rewrite latest_short. }
  apply Forall_cons in Hall as [He Hall].
  destruct e as [m args now| |]; try done.
  unfold pageRun in *. simpl. rewrite Hi. simpl.
  destruct (consoleWrapper_capped m args now v logs Hl)
    as (logs' & Hl' & Hlen' & Hm' & Heq); [lia|].
  assert (Hi' : interceptors (consoleWrapper m args now v) = 1%nat).
  { unfold consoleWrapper, limit, push. rewrite Hl. simpl.
    by destruct (_ <? _)%N. }
  rewrite (IH _ logs' Hall Hl' Hi'); [|congruence|lia].
  f_equal. rewrite Heq. clear IH Hl' Hlen' Hm' Heq Hi'. cbv zeta.
  case_decide as Hfull.
  - destruct logs as [|oldest rest]; [simpl in Hfull; lia|].
    simpl. unfold latest. rewrite Hm in Hfull.
    rewrite !length_app. simpl. rewrite !length_app. simpl.
    assert (length rest = 999%nat) as Hr by (simpl in Hfull; lia).
    rewrite Hr.
    replace (S (999 + S (length (entryOf <$> evs))) - 1000)%nat
      with (S (length (entryOf <$> evs))) by lia.
    replace (999 + 1 + length (entryOf <$> evs) - 1000)%nat
      with (length (entryOf <$> evs)) by lia.
    simpl. by rewrite <- app_assoc.
  - by rewrite <- app_assoc.
Qed.

(** Console calls alone keep the buffer inside its cap: however many
    calls the page makes between two reads, the next read hands over the
    latest thousand of them, in order, the older ones having been dropped
    one by one. *)
Theorem console_calls_keep_latest_thousand (w : Window)
    (evs : list PageEvent) :
  agentsCCConsoleLogs w = None → interceptors w = 0%nat →
  Forall (λ e, isConsoleCall e = true) evs →
  (drainLogs (pageRun (drainLogs w).2 evs)).1 =
    Returns (latest 1000 (entryOf <$> evs)).
Proof.
  intros Hn Hi Hall.
  set (v := setLogs (Some []) (installCollector w)).
  assert (drainLogs w = (Returns [], v)) as ->.
  { unfold drainLogs. by rewrite Hn. }
  cbn [fst snd].
  assert (Hc : agentsCCConsoleLogs (pageRun v evs)
               = Some (latest 1000 (entryOf <$> evs))).
  { apply (pageRun_console evs v []); try done.
    - simpl. by rewrite Hi.
    - simpl. lia. }
  by rewrite (drainLogs_installed _ _ Hc).
Qed.

(** [slice(0, 100)] counts UTF-16 code units: of a hundred two-byte
    letters all hundred are kept, and of fifty-one code points outside the
    basic plane the first fifty. *)
Example slice100_counts_units :
  let letters := String.concat "" (replicate 100 "é") in
  let faces := String.concat "" (replicate 51 "😀") in
  slice100 (letters +:+ "z") = letters
  ∧ slice100 faces = String.concat "" (replicate 50 "😀").
Proof. vm_compute. done. Qed.

(** [clickElement] with a selector that leaves the script's message
    literal alone.  When it matches an element, the element is looked up
    once and then move, press and release go to the centre of its box, with
    the left button and a click count of one; its tag name and the first
    hundred UTF-16 code units of its text ([slice(0, 100)]) come back.  When
    it matches nothing, the lookup's error is thrown and no pointer event
    is sent. *)
Theorem click_goes_to_element_centre (selector : string) (w : World) :
  accepts host → attached w = true →
  scanSingleQuoted selector = Intact →
  let look := HSendCommand (tabId w)
                (RuntimeEvaluate (ElementCenterScript selector)) in
  match lookupElement (window w) selector with
  | Ok (Some (n, el)) =>
    let r := boundingClientRect el in
    (clickElement host selector w).1 =
      Ok (tagName el, slice100 (textContent el))
    ∧ hostLog (clickElement host selector w).2 =
        hostLog w ++ [look]
        ++ pointerEvents (tabId w) (rect_left r + rect_width r / 2)%Q
             (rect_top r + rect_height r / 2)%Q "left" 1
  | Ok None =>
    (clickElement host selector w).1 =
      Throw (exceptionText host _
               (Raises (T := ElementInfo)
                  ("Element not found: " +:+ selector)))
    ∧ hostLog (clickElement host selector w).2 = hostLog w ++ [look]
  | Throw m =>
    (clickElement host selector w).1 =
      Throw (exceptionText host _ (Raises (T := ElementInfo) m))
    ∧ hostLog (clickElement host selector w).2 = hostLog w ++ [look]
  end.
Proof.
  intros Ha H Hs look.
  destruct (lookupElement (window w) selector) as [[[n el]|]|m] eqn:Hl.
  - by apply (clickElement_found host selector w n el).
  - by apply clickElement_not_found.
  - unfold clickElement, bind. rewrite evaluate_accepted by done. cbv zeta.
    rewrite runScript_center_intact by done.
    unfold elementCenter. by rewrite Hl.
Qed.

(** Typing into an element that the selector does not match types
    nothing: [typeInElement] fails with the lookup's error after the one
    lookup, and no text is inserted anywhere. *)
Theorem typing_into_missing_element_types_nothing (selector text : string)
    (clearFirst : option bool) (delay : option Q) (w : World) :
  accepts host → attached w = true →
  scanSingleQuoted selector = Intact →
  lookupElement (window w) selector = Ok None →
  (typeInElement host selector text clearFirst delay w).1 =
    Throw (exceptionText host _
             (Raises (T := ElementInfo) ("Element not found: " +:+ selector)))
  ∧ hostLog (typeInElement host selector text clearFirst delay w).2 =
      hostLog w ++ [HSendCommand (tabId w)
                      (RuntimeEvaluate (ElementCenterScript selector))].
Proof.
  intros Ha H Hs Hl. unfold typeInElement, bind.
  destruct (clickElement_not_found host selector w Ha H Hs Hl) as [Hr Hlog].
  destruct (clickElement host selector w) as [[r|e] w1]; simpl in *; [done|].
  injection Hr as Hr. by rewrite Hr.
Qed.

(** [selectOption] with a selector that leaves the script's message
    literal alone, on a select element: the option settled on is reported,
    the select is set to that option's value, and a change event and then
    an input event are dispatched on it; when no option is settled on,
    "Option not found" is thrown and the page is left as it was. *)
Theorem select_option_sets_value_and_notifies (selector : string)
    (value text : option string) (index : option Z) (w : World) (n : N)
    (select : Element) :
  accepts host → attached w = true →
  scanSingleQuoted selector = Intact →
  lookupElement (window w) selector = Ok (Some (n, select)) →
  tagName select = "SELECT" →
  match resolveOption value text index (options select) with
  | Some o =>
    (selectOption host selector value text index w).1 =
      Ok {| selected_value := opt_value o; selected_text := opt_text o |}
    ∧ dispatched (window (selectOption host selector value text index w).2)
      = dispatched (window w) ++ [(n, "change"); (n, "input")]
    ∧ selectedIndex <$>
        (elements (window (selectOption host selector value text index w).2)
           !! n)
      = Some (indexOfValue (opt_value o) (options select))
  | None =>
    (selectOption host selector value text index w).1 =
      Throw (exceptionText host _
               (Raises (T := SelectedOption) "Option not found"))
    ∧ window (selectOption host selector value text index w).2 = window w
  end.
Proof. apply selectOption_on_select. Qed.

End PageMoreFacts3.

(** ** The dispatcher's responses *)
Section DispatcherMoreFacts.
Import Bridge Dispatcher.

Variable rt : Runtime.
Variable host : Cdp.Host.

Lemma onResult_shape name result :
  isError (onResult rt name result) = false
  ∧ content (onResult rt name result) ≠ []
  ∧ ∀ d m, ImageContent d m ∈ content (onResult rt name result) →
      name = "browser_screenshot" ∧ m = "image/png".
Proof.
  unfold onResult. case_bool_decide as Hn; simpl.
  2: { split_and!; try done. intros d m H.
       apply list_elem_of_singleton in H. done. }
  destruct (isObject result); simpl.
  2: { split_and!; try done. intros d m H.
       apply list_elem_of_singleton in H. done. }
  destruct (result ≫= property "image") as [image|]; simpl.
  2: { split_and!; try done. intros d m H.
       apply list_elem_of_singleton in H. done. }
  destruct (isTruthy image); simpl.
  2: { split_and!; try done. intros d m H.
       apply list_elem_of_singleton in H. done. }
  split_and!; try done. intros d m H.
  apply elem_of_cons in H as [[= -> ->]|H]; [done|].
  apply list_elem_of_singleton in H. done.
Qed.

End DispatcherMoreFacts.

(** ** The executor and the overlay together *)
Section OverlayLinkFacts.
Import Cdp Background Overlay OverlayLink.

Variable host : Host.

Lemma hideOverlay_hidden st : visible (Overlay.hideOverlay st) = false.
Proof.
  unfold Overlay.hideOverlay, visible.
  destruct (element st) as [n|] eqn:E; simpl; [done|]. by rewrite E.
Qed.

(** A page that stays in its document, with the content script in reach
    of the executor: if the overlay was hidden before a request, then after
    the overlay messages of that request it is hidden again and no key is
    blocked, whatever the action was and whether it succeeded or failed. *)
Theorem request_leaves_overlay_hidden (ms : list Message) (action : string)
    (params : option Params) (w : World) :
  (∀ calls, overlayReply host calls = Ok tt) →
  visible (run loaded ms) = false →
  let sent :=
    drop (length (overlay w))
         (overlay (handleMCPRequest host action params w).2) in
  let st := run loaded (ms ++ (toMessage <$> sent)) in
  visible st = false ∧ ∀ e, blocked st e = false.
Proof.
  intros Hov Hv sent st.
  assert (Hvis : visible st = false).
  { subst st sent. rewrite overlay_log by done. rewrite drop_app_length.
    destruct (assoc action OPERATION_STATUS) as [status|].
    - change (toMessage <$> [Some status; None])
        with ([SHOW_OVERLAY (Some status)] ++ [HIDE_OVERLAY]).
      rewrite app_assoc, run_snoc. apply hideOverlay_hidden.
    - destruct (Bridge.success _).
      + simpl. by rewrite app_nil_r.
      + simpl. rewrite run_snoc. apply hideOverlay_hidden. }
  split; [done|]. intros e.
  destruct (Shown_run (ms ++ (toMessage <$> sent)) loaded Shown_loaded)
    as [_ He _ _ _ _]. fold st in He.
  unfold blocked, keyBlocker. rewrite He, Hvis. by rewrite andb_false_r.
Qed.

End OverlayLinkFacts.

(** * Worked instances *)



(** Typing "hi" with a delay: two insertions. *)
Lemma type_inserts_the_text_witness :
  Cdp.hostLog (Cdp.type Samples.quietHost "hi" (Some 5%Q)
                 Samples.attachedWorld).2
  = Cdp.hostLog Samples.attachedWorld
    ++ PageMore.insertions 1 ["h"; "i"].
Proof.
  exact (proj1 (proj2 (type_inserts_the_text Samples.quietHost "hi"
                         (Some 5%Q) Samples.attachedWorld
                         quietHost_accepts eq_refl))).
Defined.

(** Going back from the only entry of the history. *)
Lemma history_navigation_stays_in_bounds_witness :
  Cdp.goBack Samples.quietHost Samples.attachedWorld
  = (Ok tt,
     Cdp.noteCall (Cdp.HSendCommand 1 Cdp.PageGetNavigationHistory)
       Samples.attachedWorld).
Proof.
  refine (proj1 (history_navigation_stays_in_bounds Samples.quietHost
                   Samples.attachedWorld quietHost_accepts eq_refl) _).
  simpl. lia.
Defined.

(** One early call is lost, a warning and an error are handed over. *)
Lemma console_capture_between_reads_witness :
  (Cdp.drainLogs
     (Cdp.pageRun
        (Cdp.drainLogs (Cdp.pageRun Samples.samplePage Instances.early)).2
        Instances.noise)).1
  = Cdp.Returns (PageMore.entryOf <$> Instances.noise).
Proof.
  refine (proj1 (proj2 (console_capture_between_reads Samples.samplePage
                          Instances.early Instances.noise
                          eq_refl eq_refl _))).
  simpl. lia.
Defined.

(** Asking for the option with the text "Second" of two options with the
    value "a": "Second" is reported, the first option is selected. *)
Lemma selection_lands_on_first_with_value_witness :
  (Cdp.selectOption Samples.quietHost "#twins" None (Some "Second") None
     MoreSamples.twinsWorld).1
  = Ok {| Cdp.selected_value := "a"; Cdp.selected_text := "Second" |}
  ∧ Cdp.selectedIndex <$>
      (Cdp.elements
         (Cdp.window
            (Cdp.selectOption Samples.quietHost "#twins" None (Some "Second")
               None MoreSamples.twinsWorld).2) !! 7%N)
    = Some 0%Z.
Proof.
  split; [|reflexivity].
  exact (proj1 (selection_lands_on_first_with_value Samples.quietHost
                  "#twins" None (Some "Second") None MoreSamples.twinsWorld
                  7 _ {| Cdp.opt_value := "a"; Cdp.opt_text := "Second" |}
                  quietHost_accepts eq_refl eq_refl eq_refl eq_refl
                  eq_refl)).
Defined.

(** "browser_navigate" on the sample page. *)
Lemma every_tool_has_a_case_witness :
  ∃ result,
    (Background.executeAction MoreSamples.obligingHost
       (Dispatcher.getActionFromToolName "browser_navigate")
       (MoreSamples.argumentsFor "browser_navigate")
       Samples.attachedWorld).1 = Ok result.
Proof.
  refine (proj1 (every_tool_has_a_case Instances.navigateTool _)).
  apply list_elem_of_here.
Defined.

(** Configuring openai with a key. *)
Lemma ai_config_round_trip_witness :
  Ai.getAIConfig
    (Ai.aiCase Ai.echoSdk "ai_config" Ai.configParams Ai.fresh).2
  = Some {| Ai.provider := "openai"; Ai.apiKey := "sk-test";
            Ai.model := None; Ai.baseURL := None |}.
Proof.
  exact (proj1 (proj2 (ai_config_round_trip Ai.echoSdk Ai.configParams
                         Ai.noAiParams Ai.fresh "openai" "sk-test"
                         eq_refl eq_refl))).
Defined.

(** Two keys, one reply. *)
Lemma ai_get_config_hides_key_witness :
  (Ai.aiCase Ai.echoSdk "ai_get_config" Ai.noAiParams
     (Ai.setStored
        (Some {| Ai.provider := "openai"; Ai.apiKey := "sk-one";
                 Ai.model := None; Ai.baseURL := None |}) Ai.fresh)).1
  = (Ai.aiCase Ai.echoSdk "ai_get_config" Ai.noAiParams
       (Ai.setStored
          (Some {| Ai.provider := "openai"; Ai.apiKey := "sk-two";
                   Ai.model := None; Ai.baseURL := None |}) Ai.fresh)).1.
Proof.
  refine (ai_get_config_hides_key Ai.echoSdk Instances.keyless
            "sk-one" "sk-two" Ai.noAiParams Ai.fresh _ _);
    discriminate.
Defined.

(** Configure, clear, chat. *)
Lemma cleared_key_still_used_witness :
  ∃ call,
    Ai.calls
      (Ai.aiCase Ai.echoSdk "ai_chat" Ai.configParams
         (Ai.aiCase Ai.echoSdk "ai_clear_config" Ai.configParams
            (Ai.aiCase Ai.echoSdk "ai_config" Ai.configParams
               Ai.fresh).2).2).2
    = [call]
    ∧ Ai.call_apiKey call = "sk-test".
Proof.
  destruct (cleared_key_still_used Ai.echoSdk Ai.configParams Ai.configParams
              Ai.fresh "openai" "sk-test" "hi" eq_refl eq_refl
              (list_elem_of_here _ _) eq_refl)
    as (_ & _ & call & Hc & _ & Hk).
  exists call. split; [exact Hc|exact Hk].
Defined.

(** A show message in a document that already has an overlay. *)
Lemma overlay_of_another_instance_stays_hidden_witness :
  Overlay.visible
    (Overlay.run Overlay.reloaded
       [Overlay.SHOW_OVERLAY (Some "Navigating...")]) = false.
Proof.
  refine (proj1 (overlay_of_another_instance_stays_hidden Overlay.reloaded
                   [Overlay.SHOW_OVERLAY (Some "Navigating...")] _)).
  split; [reflexivity..|]. eexists. split; reflexivity.
Defined.

(** "Runtime.enable" refused. *)
Lemma failed_enable_leaves_debugger_attached_witness :
  (PageLife.initialize PageLife.strictHost Instances.firstOf
     PageLife.newPage).1 = Throw "Not allowed"
  ∧ Cdp.attached
      (PageLife.transport
         (PageLife.initialize PageLife.strictHost Instances.firstOf
            PageLife.newPage).2) = true.
Proof.
  split; [reflexivity|].
  exact (proj1 (proj2 (failed_enable_leaves_debugger_attached
                         PageLife.strictHost Instances.firstOf
                         PageLife.newPage "Not allowed"
                         eq_refl eq_refl eq_refl eq_refl))).
Defined.

(** The host detaches the debugger from a live page. *)
Lemma detached_page_recovers_through_close_witness :
  Cdp.attached (PageLife.transport (PageLife.detached 1 PageLife.livePage))
  = false
  ∧ PageLife.initialize Samples.quietHost Instances.firstOf
      (PageLife.detached 1 PageLife.livePage)
    = (Ok tt, PageLife.detached 1 PageLife.livePage).
Proof.
  destruct (detached_page_recovers_through_close Samples.quietHost
              Instances.firstOf PageLife.livePage eq_refl eq_refl eq_refl)
    as (Ha & Hi & _).
  split; [exact Ha|exact Hi].
Defined.

(** A wait started after the load event, then events of another tab,
    another method, another wait and another timer. *)
Lemma wait_pending_until_load_or_timer_witness :
  Waits.promiseState 0
    (Waits.run
       (Waits.waitForNavigation None
          (Waits.run (Waits.init 1 true) Instances.tooEarly)).2
       Instances.unrelated) = None.
Proof.
  refine (proj1 (proj2 (proj2
    (wait_pending_until_load_or_timer 1 true Instances.tooEarly
       Instances.unrelated None _)))).
  repeat constructor; intros [H|H]; discriminate H.
Defined.

(** A navigation on the quiet host, seen from the page. *)
Lemma request_leaves_overlay_hidden_witness :
  Overlay.visible
    (Overlay.run Overlay.loaded
       ([] ++ (OverlayLink.toMessage <$>
                 drop (length (Cdp.overlay Samples.attachedWorld))
                   (Cdp.overlay
                      (Background.handleMCPRequest Samples.quietHost
                         "navigate" (Some Samples.urlParams)
                         Samples.attachedWorld).2)))) = false.
Proof.
  exact (proj1 (request_leaves_overlay_hidden Samples.quietHost []
                  "navigate" (Some Samples.urlParams) Samples.attachedWorld
                  quietHost_overlay_ok eq_refl)).
Defined.

(** A click on the search box. *)
Lemma click_goes_to_element_centre_witness :
  (Cdp.clickElement Samples.quietHost "#search" Samples.attachedWorld).1
  = Ok ("INPUT", "").
Proof.
  exact (proj1 (click_goes_to_element_centre Samples.quietHost "#search"
                  Samples.attachedWorld quietHost_accepts
                  eq_refl eq_refl)).
Defined.

(** Typing into an element that is not there. *)
Lemma typing_into_missing_element_types_nothing_witness :
  Cdp.hostLog
    (Cdp.typeInElement Samples.quietHost "#nope" "hi" None None
       Samples.attachedWorld).2
  = Cdp.hostLog Samples.attachedWorld
    ++ [Cdp.HSendCommand 1
          (Cdp.RuntimeEvaluate (Cdp.ElementCenterScript "#nope"))].
Proof.
  exact (proj2 (typing_into_missing_element_types_nothing Samples.quietHost
                  "#nope" "hi" None None Samples.attachedWorld
                  quietHost_accepts eq_refl eq_refl eq_refl)).
Defined.

(** Selecting the option with the value "b". *)
Lemma select_option_sets_value_and_notifies_witness :
  (Cdp.selectOption Samples.quietHost "#country" (Some "b") None None
     Samples.attachedWorld).1
  = Ok {| Cdp.selected_value := "b"; Cdp.selected_text := "B" |}.
Proof.
  exact (proj1 (select_option_sets_value_and_notifies Samples.quietHost
                  "#country" (Some "b") None None Samples.attachedWorld 2
                  Samples.dropdown quietHost_accepts
                  eq_refl eq_refl eq_refl eq_refl)).
Defined.

(** Two console calls after the first read. *)
Lemma console_calls_keep_latest_thousand_witness :
  (Cdp.drainLogs
     (Cdp.pageRun (Cdp.drainLogs Samples.samplePage).2
        Instances.chatter)).1
  = Cdp.Returns (PageMore.latest 1000 (PageMore.entryOf <$> Instances.chatter)).
Proof.
  refine (console_calls_keep_latest_thousand Samples.samplePage
            Instances.chatter eq_refl eq_refl _).
  repeat constructor.
Defined.

(** ** What becomes of a call *)
Section FateFacts.
Import Bridge BridgeMore BridgeFate.

Lemma fate_settles id h action e evs :
  ¬ settles id h e → fate id h action (e :: evs) = fate id h action evs.
Proof.
  intros Hns. destruct e as [|ws m|ws|ws|h'|a ps]; simpl; try done.
  - destruct m as [|type id' payload]; [done|]. simpl in Hns.
    by rewrite bool_decide_eq_false_2.
  - simpl in Hns. by rewrite bool_decide_eq_false_2.
Qed.

Lemma live_step_other p h id action st e :
  Inv st → live p h id action st → ¬ settles id h e →
  live p h id action (step st e).
Proof.
  intros HI [He Ht] Hns. split.
  { by apply (pending_step_other st e id {| caller := p; timeout := h |}). }
  destruct e as [|ws m|ws|ws|h'|a ps]; simpl; try done.
  - destruct m as [|type id' payload]; [done|]. simpl in *.
    case_decide as Hty; [|done].
    destruct (pendingRequests st !! id') as [e'|] eqn:He'; [|done].
    assert (id' ≠ id) as Hid by (intros ->; by apply Hns).
    assert (timers (clearTimeout (timeout e') st) !! h = timers st !! h)
      as Hk.
    { simpl. apply lookup_delete_ne. intros Heq.
      destruct (inv_timer_of _ HI _ _ He') as (a' & Ht').
      rewrite Heq, Ht in Ht'. by simplify_eq. }
    destruct payload as [pl|]; [destruct (success pl)|]; simpl in *;
      by rewrite Hk.
  - unfold onClose. by case_decide.
  - simpl in Hns. unfold onTimeout.
    destruct (timers st !! h') as [t|] eqn:Ht'; [|done]. simpl.
    by rewrite lookup_delete_ne.
  - unfold sendToExtension. destruct (extensionClient st); [|done].
    case_bool_decide; [|done]. simpl. rewrite lookup_insert_ne; [done|].
    intros Heq. apply (inv_timer_lt _ HI) in Ht. lia.
Qed.

Lemma over_step h id st e : Inv st → over h id st → over h id (step st e).
Proof.
  intros HI (He & Ht & Hh & n & Hn & ->).
  destruct e as [|ws m|ws|ws|h'|a ps]; simpl.
  - by split_and!; eauto.
  - destruct m as [|type id' payload]; [by split_and!; eauto|]. simpl.
    case_decide; [|by split_and!; eauto].
    destruct (pendingRequests st !! id') as [e'|] eqn:He';
      [|by split_and!; eauto].
    assert (over h (requestId n)
              (deletePending id' ByResponse (clearTimeout (timeout e') st)))
      as Hov.
    { split_and!; simpl; eauto.
      - rewrite lookup_delete_None. auto.
      - rewrite lookup_delete_None. auto. }
    by destruct payload as [pl|]; [destruct (success pl)|].
  - by split_and!; eauto.
  - unfold onClose. case_decide; by split_and!; eauto.
  - unfold onTimeout. destruct (timers st !! h') as [t|];
      [|by split_and!; eauto].
    split_and!; simpl; eauto.
    + rewrite lookup_delete_None. auto.
    + rewrite lookup_delete_None. auto.
  - unfold sendToExtension. destruct (extensionClient st);
      [|by split_and!; eauto].
    case_bool_decide; [|by split_and!; eauto]. simpl. split_and!; simpl.
    + rewrite lookup_insert_ne; [done|].
      intros Heq%requestId_inj. lia.
    + rewrite lookup_insert_ne; [done|]. lia.
    + lia.
    + exists n. split; [lia|done].
Qed.

Lemma over_run h id evs : ∀ st, Inv st → over h id st → over h id (run st evs).
Proof.
  induction evs as [|e evs IH]; intros st HI Ho; [done|].
  simpl. apply IH; [by apply Inv_step|by apply over_step].
Qed.

Lemma orphan_step p st e : Inv st → orphan p st → orphan p (step st e).
Proof.
  intros HI (Hlt & Hns & Hfree).
  destruct e as [|ws m|ws|ws|h'|a ps]; simpl.
  - done.
  - destruct m as [|type id' payload]; [done|]. simpl.
    case_decide; [|done].
    destruct (pendingRequests st !! id') as [e'|] eqn:He'; [|done].
    assert (orphan p
              (deletePending id' ByResponse (clearTimeout (timeout e') st)))
      as (Hlt1 & Hns1 & Hfree1).
    { split_and!; simpl; try done.
      intros i e0 [_ H0]%lookup_delete_Some. eauto. }
    pose proof (Hfree _ _ He') as Hne.
    destruct payload as [pl|]; [|done].
    destruct (success pl); (split_and!; simpl; try done);
      rewrite fmap_app; simpl; rewrite elem_of_snoc; intros [?|?]; done.
  - done.
  - unfold onClose. by case_decide.
  - unfold onTimeout. destruct (timers st !! h') as [t|] eqn:Ht; [|done].
    pose proof (inv_entry_of _ HI _ _ Ht) as He'.
    pose proof (Hfree _ _ He') as Hne. simpl in Hne.
    split_and!; simpl; try done.
    + rewrite fmap_app. simpl. rewrite elem_of_snoc. intros [?|?]; done.
    + intros i e0 [_ H0]%lookup_delete_Some. eauto.
  - unfold sendToExtension.
    assert (Hnew : orphan p
              (settle (nextPromise st) (Rejected notConnectedMessage)
                 (newPromise st))).
    { split_and!; simpl; [lia| |done].
      rewrite fmap_app. simpl. rewrite elem_of_snoc.
      intros [?|?]; [done|lia]. }
    destruct (extensionClient st); [|done].
    case_bool_decide; [|done]. simpl. split_and!; simpl; [lia|done|].
    intros i e0 [[_ <-]|[_ H0]]%lookup_insert_Some; simpl; [lia|eauto].
Qed.

Lemma orphan_run p evs : ∀ st,
  Inv st → orphan p st → orphan p (run st evs).
Proof.
  induction evs as [|e evs IH]; intros st HI Ho; [done|].
  simpl. apply IH; [by apply Inv_step|by apply orphan_step].
Qed.

Lemma settled_stays p s st st1 evs :
  p ∉ (settled st).*1 → settled st1 = settled st ++ [(p, s)] → Inv st1 →
  promiseState p (run st1 evs) = Some s
  ∧ ∀ s', (p, s') ∈ settled (run st1 evs) → s' = s.
Proof.
  intros Hp Hs HI1.
  pose proof (Inv_run st1 evs HI1) as HI2.
  destruct (settled_run st1 evs) as (l & Hl). rewrite Hs in Hl.
  rewrite <- app_assoc in Hl. simpl in Hl.
  assert (Hin : (p, s) ∈ settled (run st1 evs)).
  { rewrite Hl, elem_of_app, elem_of_cons. auto. }
  split.
  - by eapply (promiseState_first p s st _ l).
  - intros s' Hs'.
    by eapply (NoDup_fst_functional _ p), Hin;
      [apply (inv_settled_nodup _ HI2)|].
Qed.

(** The bridge does to a call in flight what the spec's reading of the
    trace says. *)
Lemma call_fate p h id action evs : ∀ st,
  Inv st → live p h id action st →
  let st' := run st evs in
  match fate id h action evs with
  | Pending => live p h id action st' ∧ promiseState p st' = None
  | Settled s =>
    promiseState p st' = Some s
    ∧ (∀ s', (p, s') ∈ settled st' → s' = s)
    ∧ over h id st'
  | Stranded =>
    promiseState p st' = None ∧ orphan p st' ∧ over h id st'
  end.
Proof.
  induction evs as [|e evs IH]; intros st HI Hl st'; subst st'.
  { simpl. split; [done|]. unfold promiseState.
    rewrite filter_fst_absent; [done|].
    apply (inv_caller_unsettled _ HI _ _ (proj1 Hl)). }
  change (run st (e :: evs)) with (run (step st e) evs).
  pose proof Hl as [He Ht].
  pose proof (inv_caller_unsettled _ HI _ _ He) as Hns. simpl in Hns.
  assert (Hother : ¬ settles id h e →
            match fate id h action (e :: evs) with
            | Pending =>
              live p h id action (run (step st e) evs)
              ∧ promiseState p (run (step st e) evs) = None
            | Settled s =>
              promiseState p (run (step st e) evs) = Some s
              ∧ (∀ s', (p, s') ∈ settled (run (step st e) evs) → s' = s)
              ∧ over h id (run (step st e) evs)
            | Stranded =>
              promiseState p (run (step st e) evs) = None
              ∧ orphan p (run (step st e) evs)
              ∧ over h id (run (step st e) evs)
            end).
  { intros Hno. rewrite fate_settles by done.
    apply (IH (step st e)); [by apply Inv_step|by apply live_step_other]. }
  assert (Hover : ∀ by_, over h id
            (deletePending id by_ (clearTimeout h st))).
  { intros by_. destruct (inv_key _ HI _ _ He) as (n & Hn & Hid).
    split_and!; simpl.
    - apply lookup_delete_eq.
    - apply lookup_delete_eq.
    - apply (inv_timer_lt _ HI _ _ Ht).
    - eauto. }
  assert (Hsettle : ∀ by_ s,
            step st e = settle p s (deletePending id by_ (clearTimeout h st)) →
            promiseState p (run (step st e) evs) = Some s
            ∧ (∀ s', (p, s') ∈ settled (run (step st e) evs) → s' = s)
            ∧ over h id (run (step st e) evs)).
  { intros by_ s Hstep.
    pose proof (Inv_step st e HI) as HI1.
    destruct (settled_stays p s st (step st e) evs Hns) as [H1 H2];
      [by rewrite Hstep|done|].
    split_and!; [done..|]. apply over_run; [done|].
    rewrite Hstep. destruct (Hover by_) as (? & ? & ? & ?).
    by split_and!. }
  destruct e as [|ws m|ws|ws|h'|a ps];
    try (apply Hother; simpl; tauto).
  - destruct m as [|type id' payload]; [apply Hother; simpl; tauto|].
    cbn [fate]. case_bool_decide as Hm.
    2: { pose proof (Hother ltac:(simpl; tauto)) as Ho. cbn [fate] in Ho.
         by rewrite bool_decide_eq_false_2 in Ho. }
    destruct Hm as [-> ->].
    destruct payload as [pl|].
    + apply (Hsettle ByResponse). simpl. rewrite He. simpl.
      by destruct (success pl).
    + assert (Hst : step st (EvMessage ws (Message "RESPONSE" id None))
                    = deletePending id ByResponse (clearTimeout h st)).
      { simpl. by rewrite He. }
      pose proof (Inv_step st (EvMessage ws (Message "RESPONSE" id None)) HI)
        as HI1.
      rewrite Hst in *.
      assert (Ho : orphan p (deletePending id ByResponse (clearTimeout h st))).
      { destruct (remove_caller_free id _ ByResponse st HI He _ eq_refl)
          as (? & ? & ?). by split_and!. }
      pose proof (orphan_run p evs _ HI1 Ho) as Ho'.
      split_and!; [|done|by apply over_run].
      unfold promiseState. rewrite filter_fst_absent; [done|].
      apply Ho'.
  - cbn [fate]. case_bool_decide as Hh.
    2: { pose proof (Hother ltac:(simpl; congruence)) as Ho. cbn [fate] in Ho.
         by rewrite bool_decide_eq_false_2 in Ho. }
    subst h'. apply (Hsettle ByTimeout). simpl. unfold onTimeout.
    by rewrite Ht.
Qed.

(** A call made with a peer connected is in flight. *)
Lemma sendToExtension_live action params st :
  Inv st → connected st = true →
  (sendToExtension action params st).2 = nextPromise st
  ∧ Inv (sendToExtension action params st).1
  ∧ live (nextPromise st) (nextTimer st) (requestId (requestIdCounter st))
      action (sendToExtension action params st).1.
Proof.
  intros HI Hc. pose proof (Inv_sendToExtension action params st HI) as HI1.
  unfold connected in Hc. unfold sendToExtension in *.
  destruct (extensionClient st) as [ws|]; [|done]. rewrite Hc in *.
  split_and!; [done|done|]. split; simpl; by rewrite lookup_insert_eq.
Qed.

End FateFacts.

(** ** The three ways a call ends *)
Section CallFacts.
Import Bridge BridgeMore BridgeFate Dispatcher.

Variable rt : Runtime.
Variable host : Cdp.Host.

Lemma fate_complete id h action evs :
  Forall complete evs → fate id h action evs ≠ Stranded.
Proof.
  induction 1 as [|e evs He _ IH]; [done|].
  destruct e as [|ws m|ws|ws|h'|a ps]; simpl; try done.
  - destruct m as [|type id' payload]; [done|].
    case_bool_decide as Hm; [|done].
    destruct payload as [pl|]; [done|]. simpl in He. by destruct Hm.
  - by case_bool_decide.
Qed.

Lemma fate_after id h action before rest :
  Forall (λ e, ¬ settles id h e) before →
  fate id h action (before ++ rest) = fate id h action rest.
Proof.
  induction 1 as [|e before He _ IH]; [done|].
  simpl app. by rewrite fate_settles.
Qed.

(** The events of a call, split at the first one that acts on it. *)
Lemma fate_cases id h action evs :
  Forall complete evs →
  (Forall (λ e, ¬ settles id h e) evs ∧ fate id h action evs = Pending)
  ∨ (∃ before ws pl after,
       evs = before ++ EvMessage ws (Message "RESPONSE" id (Some pl)) :: after
       ∧ Forall (λ e, ¬ settles id h e) before
       ∧ fate id h action evs =
           Settled (if success pl then Resolved (data pl)
                    else Rejected (opt_str_or (error pl) "Unknown error")))
  ∨ (∃ before after,
       evs = before ++ EvTimeout h :: after
       ∧ Forall (λ e, ¬ settles id h e) before
       ∧ fate id h action evs = Settled (Rejected (timeoutMessage action))).
Proof.
  induction 1 as [|e evs He _ IH]; [by left|].
  assert (Hskip : ¬ settles id h e →
    fate id h action (e :: evs) = fate id h action evs).
  { intros Hn. by apply (fate_after id h action [e] evs), Forall_singleton. }
  assert (Hrest : ¬ settles id h e →
    (Forall (λ e, ¬ settles id h e) (e :: evs)
     ∧ fate id h action (e :: evs) = Pending)
    ∨ (∃ before ws pl after,
         e :: evs =
           before ++ EvMessage ws (Message "RESPONSE" id (Some pl)) :: after
         ∧ Forall (λ e, ¬ settles id h e) before
         ∧ fate id h action (e :: evs) =
             Settled (if success pl then Resolved (data pl)
                      else Rejected (opt_str_or (error pl) "Unknown error")))
    ∨ (∃ before after,
         e :: evs = before ++ EvTimeout h :: after
         ∧ Forall (λ e, ¬ settles id h e) before
         ∧ fate id h action (e :: evs) =
             Settled (Rejected (timeoutMessage action)))).
  { intros Hn. rewrite (Hskip Hn).
    destruct IH as [[Hall Hf]|[(before & ws & pl & after & -> & Hb & Hf)
                              |(before & after & -> & Hb & Hf)]].
    - left. split; [by constructor|done].
    - right; left. exists (e :: before), ws, pl, after.
      split_and!; [done|by constructor|done].
    - right; right. exists (e :: before), after.
      split_and!; [done|by constructor|done]. }
  destruct e as [|ws m|ws|ws|h'|a ps]; try (apply Hrest; simpl; tauto).
  - destruct m as [|type id' payload]; [apply Hrest; simpl; tauto|].
    destruct (decide (type = "RESPONSE" ∧ id' = id)) as [[-> ->]|Hn];
      [|by apply Hrest].
    destruct payload as [pl|]; [|by simpl in He].
    right; left. exists [], ws, pl, evs. split_and!; [done|done|].
    simpl. by rewrite bool_decide_eq_true_2.
  - destruct (decide (h' = h)) as [->|Hn]; [|by apply Hrest].
    right; right. exists [], evs. split_and!; [done|done|].
    simpl. by rewrite bool_decide_eq_true_2.
Qed.

(** C3, as amended.  A call made with a peer connected ends in exactly one
    of three ways, decided by the first event that acts on it.  A response
    with its id whose payload has [success] resolves the caller with
    [payload.data]; a response with its id whose payload has not rejects
    the caller with [payload.error], or with "Unknown error" when that is
    empty or missing; the timer, when it runs out before any response with
    the id has come, rejects the caller with "Request timeout: " and the
    action.  Until one of them happens the call is pending with its 30000
    ms timer armed; once it has happened the settlement is the caller's
    only one, for ever, and the entry and the timer are gone.  (Responses
    are the spec's envelopes: each carries its payload.) *)
Theorem pending_call_settles_one_way (evs0 evs : list Event)
    (action : string) (params : option Params) :
  connected (run init evs0) = true →
  Forall complete evs →
  let st0 := run init evs0 in
  let id := requestId (requestIdCounter st0) in
  let h := nextTimer st0 in
  let p := (sendToExtension action params st0).2 in
  let st := run (sendToExtension action params st0).1 evs in
  let ended s :=
    promiseState p st = Some s
    ∧ (∀ s', (p, s') ∈ settled st → s' = s)
    ∧ pendingRequests st !! id = None
    ∧ timers st !! h = None in
  (Forall (λ e, ¬ settles id h e) evs
   ∧ promiseState p st = None
   ∧ pendingRequests st !! id = Some {| caller := p; timeout := h |}
   ∧ timers st !! h =
       Some {| t_id := id; t_action := action; t_caller := p;
               t_delay := 30000 |})
  ∨ (∃ before ws pl after,
       evs = before ++ EvMessage ws (Message "RESPONSE" id (Some pl)) :: after
       ∧ Forall (λ e, ¬ settles id h e) before
       ∧ ended (if success pl then Resolved (data pl)
                else Rejected (opt_str_or (error pl) "Unknown error")))
  ∨ (∃ before after,
       evs = before ++ EvTimeout h :: after
       ∧ Forall (λ e, ¬ settles id h e) before
       ∧ ended (Rejected (timeoutMessage action))).
Proof.
  intros Hc Hall st0 id h p st ended.
  destruct (sendToExtension_live action params st0 (Inv_reachable evs0) Hc)
    as (Hp & HI1 & Hl).
  pose proof (call_fate (nextPromise st0) h id action evs _ HI1 Hl) as Hf.
  subst ended p st. rewrite Hp. cbv zeta in Hf. fold id h in Hf.
  destruct (fate_cases id h action evs Hall)
    as [[Hn E]|[(before & ws & pl & after & Hevs & Hb & E)
               |(before & after & Hevs & Hb & E)]];
    rewrite E in Hf.
  - left. destruct Hf as [[? ?] ?]. done.
  - right; left. exists before, ws, pl, after.
    destruct Hf as (? & ? & ? & ? & _). done.
  - right; right. exists before, after.
    destruct Hf as (? & ? & ? & ? & _). done.
Qed.
(** What the request handler answers, given how the call stands. *)
Lemma response_of_call (evs0 evs : list Event) (name action : string)
    (args : option Params) :
  let st0 := run init evs0 in
  let id := requestId (requestIdCounter st0) in
  let h := nextTimer st0 in
  let p := (sendToExtension action args st0).2 in
  let st := run (sendToExtension action args st0).1 evs in
  respond rt name <$> promiseState p st =
  if connected st0 then
    match fate id h action evs with
    | Settled s => Some (respond rt name s)
    | _ => None
    end
  else Some (onError notConnectedMessage).
Proof.
  intros st0 id h p st. destruct (connected st0) eqn:Hc.
  - destruct (sendToExtension_live action args st0 (Inv_reachable evs0) Hc)
      as (Hp & HI1 & Hl).
    pose proof (call_fate (nextPromise st0) h id action evs _ HI1 Hl) as Hf.
    subst p st. rewrite Hp. cbv zeta in Hf.
    destruct (fate id h action evs) as [|s|].
    + destruct Hf as [_ ->]. done.
    + destruct Hf as [-> _]. done.
    + destruct Hf as [-> _]. done.
  - subst p st. rewrite sendToExtension_disconnected by done. simpl.
    pose proof (Inv_reachable evs0) as HI. fold st0 in HI.
    destruct (settled_stays (nextPromise st0) (Rejected notConnectedMessage)
                st0 (settle (nextPromise st0) (Rejected notConnectedMessage)
                       (newPromise st0)) evs) as [-> _]; try done.
    + intros H%(inv_settled_lt _ HI). lia.
    + by apply Inv_reject_new.
Qed.


(** Every tool call, on every schedule.  With no peer connected it is
    answered at once with the not-connected error.  With a peer it is
    answered when the call is settled, by the first response with its id
    or by its timer, and the answer is flagged as an error exactly when
    that settlement is a rejection: a failure reply or the timeout.  A
    response without payload leaves the call unanswered.  An answer has at
    least one part; an image part only comes with "browser_screenshot", as
    "image/png", and never in an answer flagged as an error. *)
Theorem response_flagged_iff_failed (evs0 evs : list Event) (name : string)
    (args : option Params) :
  name ∉ inheritedNames →
  let action := getActionFromToolName name in
  let st0 := run init evs0 in
  let id := requestId (requestIdCounter st0) in
  let h := nextTimer st0 in
  let p := (sendToExtension action args st0).2 in
  let st := run (sendToExtension action args st0).1 evs in
  let response := respond rt name <$> promiseState p st in
  (connected st0 = false →
     response = Some {| content :=
                          [TextContent ("Error: " +:+ notConnectedMessage)];
                        isError := true |})
  ∧ (connected st0 = true →
     match fate id h action evs with
     | Settled s =>
       response = Some (respond rt name s)
       ∧ (isError (respond rt name s) = true ↔ ∃ message, s = Rejected message)
     | Pending | Stranded => response = None
     end)
  ∧ ∀ r, response = Some r →
      content r ≠ []
      ∧ ∀ d m, ImageContent d m ∈ content r →
          name = "browser_screenshot" ∧ m = "image/png"
          ∧ isError r = false.
Proof.
  intros _ action st0 id h p st response.
  assert (Hresp : response =
            if connected st0 then
              match fate id h action evs with
              | Settled s => Some (respond rt name s)
              | _ => None
              end
            else Some (onError notConnectedMessage)).
  { subst response. etransitivity; [apply response_of_call|]. done. }
  assert (Hshape : ∀ s,
            content (respond rt name s) ≠ []
            ∧ ∀ d m, ImageContent d m ∈ content (respond rt name s) →
                name = "browser_screenshot" ∧ m = "image/png"
                ∧ isError (respond rt name s) = false).
  { intros [result|message]; simpl.
    - destruct (onResult_shape rt name result) as (He & Hc & Hi).
      split; [done|]. intros d m H. destruct (Hi d m H). done.
    - split; [done|]. intros d m H. apply list_elem_of_singleton in H.
      done. }
  clearbody response. subst response. clearbody st0 id h. split_and!.
  - by intros ->.
  - intros ->. destruct (fate id h action evs) as [|s|]; try done.
    split; [done|]. destruct s as [result|message]; simpl.
    + destruct (onResult_shape rt name result) as (-> & _). split; [done|].
      by intros [? ?].
    + split; [by eexists|done].
  - intros r Hr. destruct (connected st0).
    + destruct (fate id h action evs) as [|s|]; try done.
      injection Hr as <-. apply Hshape.
    + injection Hr as <-. apply (Hshape (Rejected notConnectedMessage)).
Qed.

End CallFacts.

(** A response that has lost its payload takes the entry and the timer
    and settles nobody: neither the timer nor a later, complete response
    reaches the caller any more. *)
Example response_without_payload_strands_caller :
  let st :=
    Bridge.run Bridge.init
      [Bridge.EvConnection; Bridge.EvCall "click" None;
       Bridge.EvMessage 0 (Bridge.Message "RESPONSE" "req_1" None);
       Bridge.EvTimeout 0;
       Bridge.EvMessage 0
         (Bridge.Message "RESPONSE" "req_1"
            (Some {| Bridge.success := true; Bridge.data := None;
                     Bridge.error := None |}))] in
  Bridge.promiseState 0 st = None
  ∧ Bridge.pendingRequests st !! "req_1" = None
  ∧ Bridge.timers st !! 0%N = None.
Proof. vm_compute. done. Qed.

(** One call on a connected bridge, answered with a failure. *)
Lemma pending_call_settles_one_way_witness :
  let evs :=
    [Bridge.EvMessage 0
       (Bridge.Message "RESPONSE" "req_1" (Some (BridgeFate.failed "boom")))] in
  let st0 := Bridge.run Bridge.init [Bridge.EvConnection] in
  let st := Bridge.run (Bridge.sendToExtension "click" None st0).1 evs in
  let ended s :=
    Bridge.promiseState 0 st = Some s
    ∧ (∀ s', (0%N, s') ∈ Bridge.settled st → s' = s)
    ∧ Bridge.pendingRequests st !! "req_1" = None
    ∧ Bridge.timers st !! 0%N = None in
  Bridge.connected st0 = true
  ∧ Forall BridgeFate.complete evs
  ∧ ((Forall (λ e, ¬ BridgeMore.settles "req_1" 0 e) evs
      ∧ Bridge.promiseState 0 st = None
      ∧ Bridge.pendingRequests st !! "req_1" =
          Some {| Bridge.caller := 0; Bridge.timeout := 0 |}
      ∧ Bridge.timers st !! 0%N =
          Some {| Bridge.t_id := "req_1"; Bridge.t_action := "click";
                  Bridge.t_caller := 0; Bridge.t_delay := 30000 |})
     ∨ (∃ before ws pl after,
          evs = before
                ++ Bridge.EvMessage ws
                     (Bridge.Message "RESPONSE" "req_1" (Some pl)) :: after
          ∧ Forall (λ e, ¬ BridgeMore.settles "req_1" 0 e) before
          ∧ ended (if Bridge.success pl then Bridge.Resolved (Bridge.data pl)
                   else Bridge.Rejected
                          (opt_str_or (Bridge.error pl) "Unknown error")))
     ∨ (∃ before after,
          evs = before ++ Bridge.EvTimeout 0 :: after
          ∧ Forall (λ e, ¬ BridgeMore.settles "req_1" 0 e) before
          ∧ ended (Bridge.Rejected (Bridge.timeoutMessage "click")))).
Proof.
  split; [reflexivity|]. split; [repeat constructor|].
  apply (pending_call_settles_one_way [Bridge.EvConnection]
           [Bridge.EvMessage 0
              (Bridge.Message "RESPONSE" "req_1"
                 (Some (BridgeFate.failed "boom")))]
           "click" None); [reflexivity|repeat constructor].
Defined.


(** A click whose reply does not come before the bridge's timer. *)
Lemma response_flagged_iff_failed_witness :
  Dispatcher.respond Samples.plainRuntime "browser_click" <$>
    Bridge.promiseState 0
      (Bridge.run
         (Bridge.sendToExtension "click" None
            (Bridge.run Bridge.init [Bridge.EvConnection])).1
         [Bridge.EvTimeout 0])
  = Some {| Dispatcher.content :=
              [Dispatcher.TextContent "Error: Request timeout: click"];
            Dispatcher.isError := true |}.
Proof.
  refine (proj1 (proj1 (proj2
    (response_flagged_iff_failed Samples.plainRuntime [Bridge.EvConnection]
       [Bridge.EvTimeout 0] "browser_click" None _)) eq_refl)).
  apply (bool_decide_eq_false_1 _). reflexivity.
Defined.
